(** * Crop editor, watermark renderer and PDF tools: a shallow embedding

    The repository holds two browser programs:
    - [src/watermark/app.js], the image watermark editor with its crop
      dialog, embedded in module [Watermark];
    - [src/app.js], the PDF compressor and image-to-PDF converter, embedded
      in module [PdfTools].

    JavaScript numbers are IEEE-754 doubles.  The crop session, the
    renderer and the page layout idealise every finite number as an exact
    rational ([Q]).  Where a number is truncated to an integer right after
    it was computed (the size of a canvas), an exact product and the
    double can differ by one: there the arithmetic is that of module
    [Binary64], which rounds every product and quotient to the nearest
    double.  The places where the source can divide by zero are kept
    apart: there the quotient is a [jsnum], which also has the two
    infinities and NaN, and the comparison that consumes it is the
    JavaScript one. *)

From Stdlib Require Import QArith Qround Qpower Lqa ZArith Lia List String
  Ascii Bool.
From stdpp Require Import gmap strings.
Import ListNotations.

Local Open Scope Q_scope.

(** ** JavaScript numbers *)
Module Js.

(** [Math.max(a, b)] and [Math.min(a, b)] on finite numbers. *)
Definition max (a b : Q) : Q := if Qle_bool a b then b else a.
Definition min (a b : Q) : Q := if Qle_bool a b then a else b.

(** [a < b] and [a > b] on finite numbers. *)
Definition lt (a b : Q) : bool := negb (Qle_bool b a).
Definition gt (a b : Q) : bool := lt b a.
(** [a >= b] and [a <= b]. *)
Definition ge (a b : Q) : bool := Qle_bool b a.
Definition le (a b : Q) : bool := Qle_bool a b.

(** The value of an expression [a / b] whose divisor may be zero. *)
Inductive jsnum : Type :=
| Finite (q : Q)
| PosInfinity
| NegInfinity
| NaN.

(** [a / b] for finite [a] and [b] (a zero divisor is [+0]). *)
Definition div (a b : Q) : jsnum :=
  if Qeq_bool b 0 then
    if lt 0 a then PosInfinity
    else if lt a 0 then NegInfinity
    else NaN
  else Finite (a / b).

(** [v > r] and [v < r] for a quotient [v] and a finite [r]; a comparison
    with NaN is false. *)
Definition num_gt (v : jsnum) (r : Q) : bool :=
  match v with
  | Finite q => gt q r
  | PosInfinity => true
  | NegInfinity | NaN => false
  end.

Definition num_lt (v : jsnum) (r : Q) : bool :=
  match v with
  | Finite q => lt q r
  | NegInfinity => true
  | PosInfinity | NaN => false
  end.

(** Truncation toward zero: what an [unsigned long] attribute such as
    [canvas.width] keeps of a non-negative number assigned to it (sizes
    stay far below the 2^31 limit of the attribute). *)
Definition trunc (q : Q) : Z :=
  if lt q 0 then Qceiling q else Qfloor q.

(** [Number(v.toFixed(0))]: the nearest integer, a tie going away from
    zero ([toFixed] rounds the magnitude and keeps the sign). *)
Definition toFixed0 (v : Q) : Z :=
  if lt v 0 then (- Qfloor (- v + (1 # 2)))%Z else Qfloor (v + (1 # 2)).

(** [s.includes(needle)]. *)
Definition includes (needle s : string) : bool :=
  match String.index 0 needle s with
  | Some _ => true
  | None => false
  end.

(** White space as [String.prototype.trim] sees it, on UTF-16 code
    units: the WhiteSpace and LineTerminator productions. *)
Definition isWhiteSpace (c : N) : bool :=
  existsb (N.eqb c)
    [9; 10; 11; 12; 13; 32; 160; 5760;
     8192; 8193; 8194; 8195; 8196; 8197; 8198; 8199; 8200; 8201; 8202;
     8232; 8233; 8239; 8287; 12288; 65279]%N.

Fixpoint trimStart (s : list N) : list N :=
  match s with
  | [] => []
  | c :: rest => if isWhiteSpace c then trimStart rest else s
  end.

Definition trim (s : list N) : list N :=
  rev (trimStart (rev (trimStart s))).

End Js.

(** ** IEEE-754 binary64 arithmetic *)
Module Binary64.

(** [floor (log2 q)] for a positive [q]. *)
Definition ilog2 (q : Q) : Z :=
  let e := (Z.log2 (Qnum q) - Z.log2 (Z.pos (Qden q)))%Z in
  if Qle_bool (2 ^ e) q then e else (e - 1)%Z.

(** The integer nearest to [q], a tie going to the even one. *)
Definition nearestEven (q : Q) : Z :=
  let f := Qfloor q in
  match Qcompare (q - inject_Z f) (1 # 2) with
  | Lt => f
  | Gt => (f + 1)%Z
  | Eq => if Z.even f then f else (f + 1)%Z
  end.

(** The double nearest to a positive [q]: 53 binary digits are kept. *)
Definition roundPositive (q : Q) : Q :=
  let e := (ilog2 q - 52)%Z in
  Qred (inject_Z (nearestEven (q / 2 ^ e)) * 2 ^ e).

(** The double nearest to [q].  The exponent range is left open:
    numbers beyond 2^1024 or below 2^-1022 in size do not arise from
    sizes in pixels, points and millimetres. *)
Definition round (q : Q) : Q :=
  match Qnum q with
  | Z0 => 0
  | Zpos _ => roundPositive q
  | Zneg _ => - roundPositive (- q)
  end.

(** [a * b] and [a / b] on doubles: the exact result, rounded. *)
Definition mul (a b : Q) : Q := round (a * b).
Definition div (a b : Q) : Q := round (a / b).

(** Half the distance between neighbouring doubles, relative to the
    smaller one. *)
Definition unitRoundoff : Q := 1 # (2 ^ 53).

(** The factor by which [k] roundings can shrink a number. *)
Definition shrink (k : nat) : Q := (1 - unitRoundoff) ^ Z.of_nat k.

(** [x'] is [x] up to [k] roundings. *)
Definition within (k : nat) (x' x : Q) : Prop :=
  x * shrink k <= x' /\ x' * shrink k <= x.

(** [x'] is [x] up to one part in 2^48, which sixteen roundings keep. *)
Definition near (x' x : Q) : Prop :=
  x * (1 - (1 # 2 ^ 48)) <= x' /\ x' <= x * (1 + (1 # 2 ^ 48)).

End Binary64.

(** ** The watermark editor: [src/watermark/app.js] *)
Module Watermark.

(** *** Data *)

(** An image element.  Its pixels are known by provenance: decoded from
    the user's file, or read back from the temporary canvas that
    [applyCrop] fills with a source rectangle of another image. *)
Inductive image : Type :=
| Decoded (w h : positive)
| CroppedImage (src : image) (left top width height : Q).

(** [img.width], [img.height]: the natural size, a positive integer.
    A canvas keeps the integer part of the size assigned to it. *)
Definition imgWidth (i : image) : positive :=
  match i with
  | Decoded w _ => w
  | CroppedImage _ _ _ width _ => Z.to_pos (Js.trunc width)
  end.

Definition imgHeight (i : image) : positive :=
  match i with
  | Decoded _ h => h
  | CroppedImage _ _ _ _ height => Z.to_pos (Js.trunc height)
  end.

(** [state.settings].  The numeric fields come from [parseInt]; [text]
    is a sequence of UTF-16 code units. *)
Record settings : Type := mkSettings {
  text : list N;
  fontSize : Z;
  opacity : Z;
  rotation : Z;
  color : string;
  position : string;
  tile : bool;
  tileSpacing : Z
}.

(** [state.crop]. [aspectRatio = None] is [null]; [dragType = None] is
    [null]. *)
Record crop : Type := mkCrop {
  x : Q;
  y : Q;
  width : Q;
  height : Q;
  scale : Q;
  aspectRatio : option Q;
  isDragging : bool;
  dragType : option string;
  startMouseX : Q;
  startMouseY : Q;
  startX : Q;
  startY : Q;
  startWidth : Q;
  startHeight : Q;
  canvasWidth : Q;
  canvasHeight : Q
}.

Definition set_x (v : Q) (c : crop) : crop :=
  mkCrop v (y c) (width c) (height c) (scale c) (aspectRatio c)
    (isDragging c) (dragType c) (startMouseX c) (startMouseY c)
    (startX c) (startY c) (startWidth c) (startHeight c)
    (canvasWidth c) (canvasHeight c).

Definition set_y (v : Q) (c : crop) : crop :=
  mkCrop (x c) v (width c) (height c) (scale c) (aspectRatio c)
    (isDragging c) (dragType c) (startMouseX c) (startMouseY c)
    (startX c) (startY c) (startWidth c) (startHeight c)
    (canvasWidth c) (canvasHeight c).

Definition set_width (v : Q) (c : crop) : crop :=
  mkCrop (x c) (y c) v (height c) (scale c) (aspectRatio c)
    (isDragging c) (dragType c) (startMouseX c) (startMouseY c)
    (startX c) (startY c) (startWidth c) (startHeight c)
    (canvasWidth c) (canvasHeight c).

Definition set_height (v : Q) (c : crop) : crop :=
  mkCrop (x c) (y c) (width c) v (scale c) (aspectRatio c)
    (isDragging c) (dragType c) (startMouseX c) (startMouseY c)
    (startX c) (startY c) (startWidth c) (startHeight c)
    (canvasWidth c) (canvasHeight c).

Definition set_aspectRatio (v : option Q) (c : crop) : crop :=
  mkCrop (x c) (y c) (width c) (height c) (scale c) v
    (isDragging c) (dragType c) (startMouseX c) (startMouseY c)
    (startX c) (startY c) (startWidth c) (startHeight c)
    (canvasWidth c) (canvasHeight c).

Definition set_isDragging (v : bool) (c : crop) : crop :=
  mkCrop (x c) (y c) (width c) (height c) (scale c) (aspectRatio c)
    v (dragType c) (startMouseX c) (startMouseY c)
    (startX c) (startY c) (startWidth c) (startHeight c)
    (canvasWidth c) (canvasHeight c).

Definition set_dragType (v : option string) (c : crop) : crop :=
  mkCrop (x c) (y c) (width c) (height c) (scale c) (aspectRatio c)
    (isDragging c) v (startMouseX c) (startMouseY c)
    (startX c) (startY c) (startWidth c) (startHeight c)
    (canvasWidth c) (canvasHeight c).

(** The three fields [openCropModal] derives from the image size. *)
Definition set_canvas (s cw ch : Q) (c : crop) : crop :=
  mkCrop (x c) (y c) (width c) (height c) s (aspectRatio c)
    (isDragging c) (dragType c) (startMouseX c) (startMouseY c)
    (startX c) (startY c) (startWidth c) (startHeight c) cw ch.

(** The pointer-down snapshot taken by [handleCropMouseDown]. *)
Definition set_start (mx my : Q) (c : crop) : crop :=
  mkCrop (x c) (y c) (width c) (height c) (scale c) (aspectRatio c)
    (isDragging c) (dragType c) mx my
    (x c) (y c) (width c) (height c)
    (canvasWidth c) (canvasHeight c).

(** [state]. *)
Record state : Type := mkState {
  originalImage : option image;
  fileName : string;
  settings_of : settings;
  crop_of : crop
}.

(** *** The 2D drawing surface *)

Inductive font : Type :=
| DefaultFont
| BoldInter (px : Z).

(** [rotate] receives [rotation * Math.PI / 180]; the angle is kept in
    degrees. *)
Inductive transform : Type :=
| Translate (tx ty : Q)
| Rotate (degrees : Z).

Record drawState : Type := mkDrawState {
  ctxFont : font;
  fillStyle : string;
  globalAlpha : Q;
  textAlign : string;
  textBaseline : string;
  transforms : list transform;
  shadowColor : string;
  shadowBlur : Q;
  shadowOffsetX : Q;
  shadowOffsetY : Q
}.

Inductive drawOp : Type :=
| DrawImage (img : image) (dx dy : Q)
| FillText (txt : list N) (tx ty : Q) (under : drawState).

(** A rendering context: the current drawing state, the stack of
    [save], and what was painted, oldest first. *)
Record context : Type := mkContext {
  current : drawState;
  saved : list drawState;
  surface : list drawOp
}.

Record canvas : Type := mkCanvas {
  canvas_width : Z;
  canvas_height : Z;
  ctx : context
}.

Definition defaultDrawState : drawState :=
  mkDrawState DefaultFont "#000000" 1 "start" "alphabetic" []
    "rgba(0, 0, 0, 0)" 0 0 0.

(** Assigning [canvas.width] or [canvas.height] clears the bitmap and
    resets the context. *)
Definition resized (w h : Z) : canvas :=
  mkCanvas w h (mkContext defaultDrawState [] []).

Definition on_current (f : drawState -> drawState) (c : context) : context :=
  mkContext (f (current c)) (saved c) (surface c).

Definition save (c : context) : context :=
  mkContext (current c) (current c :: saved c) (surface c).

Definition restore (c : context) : context :=
  match saved c with
  | [] => c
  | s :: rest => mkContext s rest (surface c)
  end.

Definition paint (op : drawOp) (c : context) : context :=
  mkContext (current c) (saved c) (surface c ++ [op]).

Definition drawImage (img : image) (dx dy : Q) : context -> context :=
  paint (DrawImage img dx dy).

Definition fillText (txt : list N) (tx ty : Q) (c : context) : context :=
  paint (FillText txt tx ty (current c)) c.

Definition set_font (f : font) : context -> context :=
  on_current (fun d =>
    mkDrawState f (fillStyle d) (globalAlpha d) (textAlign d)
      (textBaseline d) (transforms d) (shadowColor d) (shadowBlur d)
      (shadowOffsetX d) (shadowOffsetY d)).

Definition set_fillStyle (v : string) : context -> context :=
  on_current (fun d =>
    mkDrawState (ctxFont d) v (globalAlpha d) (textAlign d)
      (textBaseline d) (transforms d) (shadowColor d) (shadowBlur d)
      (shadowOffsetX d) (shadowOffsetY d)).

(** The setter ignores a value outside [0, 1]. *)
Definition set_globalAlpha (v : Q) : context -> context :=
  on_current (fun d =>
    mkDrawState (ctxFont d) (fillStyle d)
      (if Js.le 0 v && Js.le v 1 then v else globalAlpha d)
      (textAlign d) (textBaseline d) (transforms d) (shadowColor d)
      (shadowBlur d) (shadowOffsetX d) (shadowOffsetY d)).

Definition set_textAlign (align baseline : string) : context -> context :=
  on_current (fun d =>
    mkDrawState (ctxFont d) (fillStyle d) (globalAlpha d) align baseline
      (transforms d) (shadowColor d) (shadowBlur d)
      (shadowOffsetX d) (shadowOffsetY d)).

Definition transformed (t : transform) : context -> context :=
  on_current (fun d =>
    mkDrawState (ctxFont d) (fillStyle d) (globalAlpha d) (textAlign d)
      (textBaseline d) (transforms d ++ [t]) (shadowColor d) (shadowBlur d)
      (shadowOffsetX d) (shadowOffsetY d)).

Definition set_shadow (col : string) (blur ox oy : Q) : context -> context :=
  on_current (fun d =>
    mkDrawState (ctxFont d) (fillStyle d) (globalAlpha d) (textAlign d)
      (textBaseline d) (transforms d) col blur ox oy).

(** *** Watermark rendering *)

(** What a property read [obj[key]] on an object literal of points can
    give: an own property, a member inherited from [Object.prototype]
    (a function, or the prototype itself for [__proto__]), or
    [undefined]. *)
Inductive member : Type :=
| Point (px py : Q)
| Inherited (name : string)
| Undefined.

(** The property names every object literal inherits. *)
Definition objectPrototype : gset string :=
  list_to_set
    ["constructor"; "hasOwnProperty"; "isPrototypeOf";
     "propertyIsEnumerable"; "toLocaleString"; "toString"; "valueOf";
     "__proto__"; "__defineGetter__"; "__defineSetter__";
     "__lookupGetter__"; "__lookupSetter__"].

Definition get (obj : gmap string (Q * Q)) (key : string) : member :=
  match obj !! key with
  | Some (px, py) => Point px py
  | None => if decide (key ∈ objectPrototype) then Inherited key else Undefined
  end.

(** [a || b]: objects and functions are truthy, [undefined] is not. *)
Definition or_else (a b : member) : member :=
  match a with
  | Undefined => b
  | _ => a
  end.

(** The object literal [positions] of [getPosition]. *)
Definition positions (width height fontSize : Q) : gmap string (Q * Q) :=
  let padding := fontSize * 0.8 in
  list_to_map
    [("top-left", (padding + fontSize, padding + fontSize / 2));
     ("top-center", (width / 2, padding + fontSize / 2));
     ("top-right", (width - padding - fontSize, padding + fontSize / 2));
     ("middle-left", (padding + fontSize, height / 2));
     ("center", (width / 2, height / 2));
     ("middle-right", (width - padding - fontSize, height / 2));
     ("bottom-left", (padding + fontSize, height - padding - fontSize / 2));
     ("bottom-center", (width / 2, height - padding - fontSize / 2));
     ("bottom-right",
       (width - padding - fontSize, height - padding - fontSize / 2))].

Definition getPosition (position : string) (width height fontSize : Q)
  : member :=
  let positions := positions width height fontSize in
  or_else (get positions position) (get positions "center").


Section Rendering.

(** The two numeric services the renderer takes from the browser:
    [ctx.measureText(text).width] under the current font, and
    [Math.sqrt]. *)
Variable measureText : font -> list N -> Q.
Variable sqrt : Q -> Q.

(** [for (let x = from; x < diagonal; x += spacing) fillText(text, x, y)],
    run for [n] iterations. *)
Fixpoint tileRow (n : nat) (txt : list N) (tx ty spacing : Q)
  (c : context) : context :=
  match n with
  | O => c
  | S n' => tileRow n' txt (tx + spacing) ty spacing (fillText txt tx ty c)
  end.

Fixpoint tileRows (n perRow : nat) (txt : list N) (from ty spacing : Q)
  (c : context) : context :=
  match n with
  | O => c
  | S n' =>
      tileRows n' perRow txt from (ty + spacing * 0.7) spacing
        (tileRow perRow txt from ty spacing c)
  end.

(** How often a loop from [-diagonal] below [diagonal] in steps of
    [step > 0] runs its body. *)
Definition iterations (diagonal step : Q) : nat :=
  Z.to_nat (Qceiling (2 * diagonal / step)).

(** [renderTiledWatermark]; [None] when the loops do not terminate (a
    step that is not positive, on a non-empty range). *)
Definition renderTiledWatermark (c : context) (width height : Q)
  (txt : list N) (fontSize rotation tileSpacing : Z) : option context :=
  let textWidth := measureText (ctxFont (current c)) txt in
  let spacingFactor := inject_Z tileSpacing / 100 in
  let baseSpacing := Js.max (textWidth * 1.5) (inject_Z fontSize * 3) in
  let spacing := baseSpacing * spacingFactor in
  let diagonal := sqrt (width * width + height * height) in
  let c := transformed (Translate (width / 2) (height / 2)) c in
  let c := transformed (Rotate rotation) c in
  let c := set_shadow "rgba(0, 0, 0, 0.3)" 3 1 1 c in
  if Js.lt (- diagonal) diagonal then
    if Js.lt 0 spacing then
      Some (tileRows (iterations diagonal (spacing * 0.7))
              (iterations diagonal spacing) txt
              (- diagonal) (- diagonal) spacing c)
    else None
  else Some c.

(** [applyWatermark(ctx, width, height)], reading [state.settings]. *)
Definition applyWatermark (s : settings) (c : context) (width height : Q)
  : option context :=
  match Js.trim (text s) with
  | [] => Some c
  | _ :: _ =>
      let c := save c in
      let c := set_font (BoldInter (fontSize s)) c in
      let c := set_fillStyle (color s) c in
      let c := set_globalAlpha (inject_Z (opacity s) / 100) c in
      let c := set_textAlign "center" "middle" c in
      if tile s then
        option_map restore
          (renderTiledWatermark c width height (text s) (fontSize s)
             (rotation s) (tileSpacing s))
      else
        let pos := getPosition (position s) width height
                     (inject_Z (fontSize s)) in
        (* [translate] does nothing when a coordinate is not a finite
           number, as [pos.x] of an inherited member is *)
        let c := match pos with
                 | Point px py => transformed (Translate px py) c
                 | Inherited _ | Undefined => c
                 end in
        let c := transformed (Rotate (rotation s)) c in
        let c := set_shadow "rgba(0, 0, 0, 0.5)" 4 2 2 c in
        let c := fillText (text s) 0 0 c in
        Some (restore c)
  end.

(** [renderPreview]: the preview canvas afterwards; the canvas is left
    as it is without an image. *)
Definition renderPreview (s : state) (preview : canvas) : option canvas :=
  match originalImage s with
  | None => Some preview
  | Some img =>
      let w := Z.pos (imgWidth img) in
      let h := Z.pos (imgHeight img) in
      let cv := resized w h in
      let c := drawImage img 0 0 (ctx cv) in
      option_map (mkCanvas w h)
        (applyWatermark (settings_of s) c (inject_Z w) (inject_Z h))
  end.

End Rendering.

(** *** The page around the state *)

(** The [data-ratio] of a ratio button: ['free'], or ['a:b'] with two
    positive decimal integers, as [parseInt] reads the two parts. *)
Inductive ratio : Type :=
| Free
| Parts (a b : positive).

(** The elements the crop code writes to.  [cropCanvas] is the pair of
    integer attributes [width], [height] of the crop canvas;
    [activeRatio] is the ratio button carrying the class [active].  The
    style of the crop box and the size label only mirror [state.crop]
    and are left out. *)
Record elements : Type := mkElements {
  cropCanvas : Z * Z;
  previewCanvas : canvas;
  cropModalHidden : bool;
  applyCropDisabled : bool;
  activeRatio : ratio
}.

(** The program state, the page, and the messages shown with [alert]. *)
Record world : Type := mkWorld {
  st : state;
  el : elements;
  alerts : list string
}.

Definition with_crop (f : crop -> crop) (w : world) : world :=
  mkWorld
    (mkState (originalImage (st w)) (fileName (st w)) (settings_of (st w))
       (f (crop_of (st w))))
    (el w) (alerts w).

Definition with_image (img : image) (w : world) : world :=
  mkWorld
    (mkState (Some img) (fileName (st w)) (settings_of (st w))
       (crop_of (st w)))
    (el w) (alerts w).

Definition with_el (f : elements -> elements) (w : world) : world :=
  mkWorld (st w) (f (el w)) (alerts w).

Definition set_cropCanvas (v : Z * Z) (e : elements) : elements :=
  mkElements v (previewCanvas e) (cropModalHidden e) (applyCropDisabled e)
    (activeRatio e).

Definition set_previewCanvas (v : canvas) (e : elements) : elements :=
  mkElements (cropCanvas e) v (cropModalHidden e) (applyCropDisabled e)
    (activeRatio e).

Definition set_cropModalHidden (v : bool) (e : elements) : elements :=
  mkElements (cropCanvas e) (previewCanvas e) v (applyCropDisabled e)
    (activeRatio e).

Definition set_applyCropDisabled (v : bool) (e : elements) : elements :=
  mkElements (cropCanvas e) (previewCanvas e) (cropModalHidden e) v
    (activeRatio e).

Definition set_activeRatio (v : ratio) (e : elements) : elements :=
  mkElements (cropCanvas e) (previewCanvas e) (cropModalHidden e)
    (applyCropDisabled e) v.

(** [window.innerWidth], [window.innerHeight]. *)
Record window : Type := mkWindow {
  innerWidth : Q;
  innerHeight : Q
}.

(** *** Crop functionality *)

(** [updateCropBox]: of its writes, the one that is not a mirror of the
    region is the gate on the Apply button. *)
Definition updateCropBox (w : world) : world :=
  let c := crop_of (st w) in
  with_el
    (set_applyCropDisabled (Js.lt (width c) 20 || Js.lt (height c) 20)) w.

(** [openCropModal] over exact products and quotients.  The doubles of
    the source can fall just below a whole number where the exact
    product is one, and the canvas is then one unit smaller:
    [CropOpening.openCropModal] is the same function over doubles. *)
Definition openCropModal (win : window) (w : world) : world :=
  match originalImage (st w) with
  | None => w
  | Some img =>
      let imgW := inject_Z (Z.pos (imgWidth img)) in
      let imgH := inject_Z (Z.pos (imgHeight img)) in
      let maxWidth := innerWidth win * 0.7 in
      let maxHeight := innerHeight win * 0.5 in
      let scale := Js.min (Js.min (maxWidth / imgW) (maxHeight / imgH)) 1 in
      let w := with_crop (set_canvas scale (imgW * scale) (imgH * scale)) w in
      let canvasW := Js.trunc (canvasWidth (crop_of (st w))) in
      let canvasH := Js.trunc (canvasHeight (crop_of (st w))) in
      let w := with_el (set_cropCanvas (canvasW, canvasH)) w in
      let padding := 20 in
      let w := with_crop (set_x padding) w in
      let w := with_crop (set_y padding) w in
      let w := with_crop (set_width (inject_Z canvasW - padding * 2)) w in
      let w := with_crop (set_height (inject_Z canvasH - padding * 2)) w in
      let w := with_crop (set_aspectRatio None) w in
      let w := with_el (set_activeRatio Free) w in
      let w := updateCropBox w in
      with_el (set_cropModalHidden false) w
  end.

Definition closeCropModal (w : world) : world :=
  let w := with_el (set_cropModalHidden true) w in
  with_crop (set_isDragging false) w.

Definition constrainCropBox (c : crop) : crop :=
  let canvasWidth := canvasWidth c in
  let canvasHeight := canvasHeight c in
  let c := set_x (Js.max 0 (Js.min (x c) (canvasWidth - width c))) c in
  let c := set_y (Js.max 0 (Js.min (y c) (canvasHeight - height c))) c in
  let c := set_width (Js.max 20 (Js.min (width c) (canvasWidth - x c))) c in
  set_height (Js.max 20 (Js.min (height c) (canvasHeight - y c))) c.

(** [if (state.crop.aspectRatio)]: [null] and [0] are falsy. *)
Definition truthy (a : option Q) : option Q :=
  match a with
  | Some r => if Qeq_bool r 0 then None else Some r
  | None => None
  end.

Definition setAspectRatio (r : ratio) (w : world) : world :=
  let w :=
    match r with
    | Free => with_crop (set_aspectRatio None) w
    | Parts a b =>
        with_crop
          (set_aspectRatio (Some (inject_Z (Z.pos a) / inject_Z (Z.pos b))))
          w
    end in
  let w := with_el (set_activeRatio r) w in
  let w :=
    match truthy (aspectRatio (crop_of (st w))) with
    | Some aspect =>
        with_crop
          (fun c =>
             let currentRatio := Js.div (width c) (height c) in
             let c := if Js.num_gt currentRatio aspect
                      then set_width (height c * aspect) c
                      else set_height (width c / aspect) c in
             constrainCropBox c)
          w
    | None => w
    end in
  updateCropBox w.

(** What the pointer went down on. *)
Inductive target : Type :=
| CropBox
| Handle (handle : string)
| Elsewhere.

Definition handleCropMouseDown (t : target) (clientX clientY : Q)
  (w : world) : world :=
  let begin (kind : string) :=
    let w := with_crop (set_dragType (Some kind)) w in
    let w := with_crop (set_isDragging true) w in
    with_crop (set_start clientX clientY) w in
  match t with
  | CropBox => begin "move"
  | Handle h => begin h
  | Elsewhere => w
  end.

(** The resize branch of [handleCropMouseMove]: the candidate
    [(newX, newY, newW, newH)] for a handle and a pointer delta. *)
Definition candidate (c : crop) (dragType : string) (dx dy : Q)
  : Q * Q * Q * Q :=
  let newX := startX c in
  let newY := startY c in
  let newW := startWidth c in
  let newH := startHeight c in
  let newW := if Js.includes "e" dragType
              then Js.max 20 (startWidth c + dx) else newW in
  let '(newX, newW) := if Js.includes "w" dragType
                       then (startX c + dx, startWidth c - dx)
                       else (newX, newW) in
  let newH := if Js.includes "s" dragType
              then Js.max 20 (startHeight c + dy) else newH in
  let '(newY, newH) := if Js.includes "n" dragType
                       then (startY c + dy, startHeight c - dy)
                       else (newY, newH) in
  let '(newW, newH) :=
    match truthy (aspectRatio c) with
    | Some aspect =>
        if String.eqb dragType "e" || String.eqb dragType "w" then
          (newW, newW / aspect)
        else if String.eqb dragType "n" || String.eqb dragType "s" then
          (newH * aspect, newH)
        else
          let newRatio := Js.div newW newH in
          if Js.num_gt newRatio aspect
          then (newH * aspect, newH)
          else (newW, newW / aspect)
    | None => (newW, newH)
    end in
  (newX, newY, newW, newH).

(** The two acceptance tests that end the resize branch. *)
Definition acceptsX (c : crop) (newX newW : Q) : bool :=
  Js.ge newW 20 && Js.ge newX 0 && Js.le (newX + newW) (canvasWidth c).

Definition acceptsY (c : crop) (newY newH : Q) : bool :=
  Js.ge newH 20 && Js.ge newY 0 && Js.le (newY + newH) (canvasHeight c).

Definition handleCropMouseMove (clientX clientY : Q) (w : world) : world :=
  let c := crop_of (st w) in
  if negb (isDragging c) then w
  else
    let dx := clientX - startMouseX c in
    let dy := clientY - startMouseY c in
    match dragType c with
    | None => w (* [null.includes] throws before any write *)
    | Some dragType =>
        let c :=
          if String.eqb dragType "move" then
            let c := set_x (Js.max 0 (Js.min (startX c + dx)
                                        (canvasWidth c - width c))) c in
            set_y (Js.max 0 (Js.min (startY c + dy)
                               (canvasHeight c - height c))) c
          else
            let '(newX, newY, newW, newH) := candidate c dragType dx dy in
            let c := if acceptsX c newX newW
                     then set_width newW (set_x newX c) else c in
            if acceptsY c newY newH
            then set_height newH (set_y newY c) else c in
        updateCropBox (with_crop (fun _ => c) w)
    end.

Definition handleCropMouseUp (w : world) : world :=
  let w := with_crop (set_isDragging false) w in
  with_crop (set_dragType None) w.

(** How a call of [applyCrop] ends. *)
Inductive outcome : Type :=
| Refused   (* the early return on a region below 10 natural pixels *)
| Threw     (* [drawImage] on a missing image raises a TypeError *)
| NotLoaded (* a rectangle that is not finite leaves an empty canvas, whose
               data URL never fires [onload] *)
| Applied (left top width height : Q)
            (* the rectangle was cropped and the dialog closed *)
| Hung (left top width height : Q).
            (* the rectangle was cropped, and the preview render that
               [onload] starts does not terminate *)

(** The rectangle [(left, top, width, height)] that reached
    [drawImage]: the crop command. *)
Definition command (o : outcome) : option (Q * Q * Q * Q) :=
  match o with
  | Applied l t wd ht | Hung l t wd ht => Some (l, t, wd, ht)
  | Refused | Threw | NotLoaded => None
  end.

Section Commit.

Variable measureText : font -> list N -> Q.
Variable sqrt : Q -> Q.

(** [applyCrop], with the [onload] continuation of the cropped image
    run to its end.  The source rectangle handed to [drawImage] is the
    crop command. *)
Definition applyCrop (w : world) : outcome * world :=
  let c := crop_of (st w) in
  let scale := scale c in
  let left := Js.div (x c) scale in
  let top := Js.div (y c) scale in
  let width := Js.div (width c) scale in
  let height := Js.div (height c) scale in
  if Js.num_lt width 10 || Js.num_lt height 10 then (Refused, w)
  else
    match originalImage (st w) with
    | None => (Threw, w)
    | Some img =>
        match left, top, width, height with
        | Js.Finite l, Js.Finite t, Js.Finite wd, Js.Finite ht =>
            let croppedImg := CroppedImage img l t wd ht in
            let w := with_image croppedImg w in
            match renderPreview measureText sqrt (st w)
                    (previewCanvas (el w)) with
            | Some cv =>
                let w := with_el (set_previewCanvas cv) w in
                (Applied l t wd ht, closeCropModal w)
            | None => (Hung l t wd ht, w)
            end
        | _, _, _, _ => (NotLoaded, w)
        end
    end.

(** *** The crop dialog as a machine *)

(** The handlers the page wires to the crop dialog. *)
Inductive event : Type :=
| OpenCropModal (win : window)
| CloseCropModal
| SetAspectRatio (r : ratio)
| MouseDown (t : target) (clientX clientY : Q)
| MouseMove (clientX clientY : Q)
| MouseUp
| ApplyCrop.

Definition handle (e : event) (w : world) : world :=
  match e with
  | OpenCropModal win => openCropModal win w
  | CloseCropModal => closeCropModal w
  | SetAspectRatio r => setAspectRatio r w
  | MouseDown t cx cy => handleCropMouseDown t cx cy w
  | MouseMove cx cy => handleCropMouseMove cx cy w
  | MouseUp => handleCropMouseUp w
  | ApplyCrop => snd (applyCrop w)
  end.

Definition run (es : list event) (w : world) : world :=
  fold_left (fun w e => handle e w) es w.

End Commit.

(** *** Properties named by the specification *)

(** The region invariant of the crop editor. *)
Definition wellFormed (c : crop) : Prop :=
  0 <= x c /\ 0 <= y c /\
  x c + width c <= canvasWidth c /\
  y c + height c <= canvasHeight c /\
  20 <= width c /\ 20 <= height c.

(** [clamp(v, lo, hi)] as the specification uses it. *)
Definition clamp (v lo hi : Q) : Q :=
  if Js.lt v lo then lo else if Js.lt hi v then hi else v.

(** The initial [state] and page of the program. *)
Definition initialSettings : settings :=
  mkSettings [169; 32; 50; 48; 50; 52]%N 48 50 (-30) "#ffffff" "center"
    false 100.

Definition initialCrop : crop :=
  mkCrop 0 0 0 0 1 None false None 0 0 0 0 0 0 0 0.

Definition initialWorld : world :=
  mkWorld (mkState None "" initialSettings initialCrop)
    (mkElements (300, 150)%Z (resized 300 150) true false Free) [].

(** The world once an image has been loaded into the editor. *)
Definition loaded (img : image) : world := with_image img initialWorld.

(** Bounds that leave room for the seeded region: 20 units of padding on
    each side and the minimum size of 20 between them. *)
Definition roomy (c : crop) : Prop :=
  60 <= canvasWidth c /\ 60 <= canvasHeight c.

Definition opens (e : event) : bool :=
  match e with
  | OpenCropModal _ => true
  | _ => false
  end.

Section Sessions.

Variable measureText : font -> list N -> Q.
Variable sqrt : Q -> Q.

(** The worlds of a crop session: the dialog was opened on an image,
    and any handlers ran since; every opening found roomy bounds. *)
Inductive inSession : world -> Prop :=
| session_opened (win : window) (w : world) (img : image) :
    originalImage (st w) = Some img ->
    roomy (crop_of (st (openCropModal win w))) ->
    inSession (openCropModal win w)
| session_handled (e : event) (w : world) :
    inSession w ->
    (opens e = true ->
     roomy (crop_of (st (handle measureText sqrt e w)))) ->
    inSession (handle measureText sqrt e w).

End Sessions.

(** *** Sample inputs of the closed examples *)

(** A sample browser for the closed examples: ten units of width per
    code unit, and the identity in place of the square root. *)
Definition sampleMeasure : font -> list N -> Q :=
  fun _ txt => 10 * inject_Z (Z.of_nat (length txt)).

Definition sampleSqrt : Q -> Q := fun q => q.

(** The dialog opened on a 4000 by 3000 image under a viewport maximum
    of 800 by 600 (70% of the window width, 50% of its height). *)
Definition sampleSession : world :=
  openCropModal (mkWindow (8000 # 7) 1200) (loaded (Decoded 4000 3000)).

(** The dialog of [sampleSession] with the ratio 1:1 chosen and the
    east handle held down at (500, 300). *)
Definition sampleResize : world :=
  handleCropMouseDown (Handle "e") 500 300
    (setAspectRatio (Parts 1 1) sampleSession).



(** The editor with an image loaded and the text set to a space and a
    tab. *)
Definition sampleBlank : state :=
  mkState (Some (Decoded 640 480)) "photo.png"
    (mkSettings [32; 9]%N 48 50 (-30) "#ffffff" "center" true 100)
    initialCrop.

End Watermark.

(** ** Opening the crop dialog, in doubles *)
Module CropOpening.
Import Watermark.

Section Arithmetic.

(** The product and the quotient of two numbers, and the number the
    literal [0.7] denotes. *)
Variable mul : Q -> Q -> Q.
Variable div : Q -> Q -> Q.
Variable seventenths : Q.

(** [openCropModal] over the arithmetic given. *)
Definition openCropModalWith (win : window) (w : world) : world :=
  match originalImage (st w) with
  | None => w
  | Some img =>
      let imgW := inject_Z (Z.pos (imgWidth img)) in
      let imgH := inject_Z (Z.pos (imgHeight img)) in
      let maxWidth := mul (innerWidth win) seventenths in
      let maxHeight := mul (innerHeight win) 0.5 in
      let scale := Js.min (Js.min (div maxWidth imgW) (div maxHeight imgH)) 1 in
      let w := with_crop (set_canvas scale (mul imgW scale) (mul imgH scale)) w in
      let canvasW := Js.trunc (canvasWidth (crop_of (st w))) in
      let canvasH := Js.trunc (canvasHeight (crop_of (st w))) in
      let w := with_el (set_cropCanvas (canvasW, canvasH)) w in
      let padding := 20 in
      let w := with_crop (set_x padding) w in
      let w := with_crop (set_y padding) w in
      let w := with_crop (set_width (inject_Z canvasW - padding * 2)) w in
      let w := with_crop (set_height (inject_Z canvasH - padding * 2)) w in
      let w := with_crop (set_aspectRatio None) w in
      let w := with_el (set_activeRatio Free) w in
      let w := updateCropBox w in
      with_el (set_cropModalHidden false) w
  end.

End Arithmetic.

(** [openCropModal] as the browser computes it: every product and
    quotient is rounded to the nearest double. *)
Definition openCropModal : window -> world -> world :=
  openCropModalWith Binary64.mul Binary64.div (Binary64.round 0.7).

(** A 1536 by 864 window around a 4000 by 3000 image. *)
Definition sampleLaptop : world :=
  openCropModal (mkWindow 1536 864) (loaded (Decoded 4000 3000)).

(** The dialog of the scenario: a 4000 by 3000 image under a viewport
    maximum of 800 by 600. *)
Definition sampleOpening : world :=
  openCropModal (mkWindow (8000 # 7) 1200) (loaded (Decoded 4000 3000)).

(** A 1143 by 1200 window around the same image: the viewport maximum
    is 800.0999999999999 by 600. *)
Definition sampleDesktop : world :=
  openCropModal (mkWindow 1143 1200) (loaded (Decoded 4000 3000)).

(** A 1000 by 800 window around a 1000 by 700 image. *)
Definition sampleFraction : world :=
  openCropModal (mkWindow 1000 800) (loaded (Decoded 1000 700)).

End CropOpening.

(** ** The PDF tools: [src/app.js] *)
Module PdfTools.

(** *** Data *)

(** A [File]: what the code reads of it. *)
Record file : Type := mkFile {
  name : string;
  type : string;
  size : N
}.

(** An entry of [state.images].  [decoded] is what [loadImage(dataUrl)]
    resolves to, the pixel size of the image, or [None] when the promise
    is rejected. *)
Record imageEntry : Type := mkImageEntry {
  entryName : string;
  decoded : option (positive * positive)
}.

Inductive orientation : Type :=
| Landscape
| Portrait.

(** One page of the document under construction: the arguments of
    [new jsPDF] or [addPage], and of the [addImage] that follows.
    [payload] is the pixel size of the canvas [compressImage] encodes,
    [jpegQuality] its quality argument. *)
Record page : Type := mkPage {
  pageWidth : Q;
  pageHeight : Q;
  pageOrientation : orientation;
  imgX : Q;
  imgY : Q;
  imgFinalWidth : Q;
  imgFinalHeight : Q;
  payload : Z * Z;
  jpegQuality : Q
}.

(** [state] (without the fields of the preview dialog).  A blob of the
    compressor is known by its size, the blob of the converter by the
    pages it holds. *)
Record state : Type := mkState {
  file_of : option file;
  compressedBlob : option N;
  originalSize : N;
  compressedSize : N;
  isProcessing : bool;
  images : list imageEntry;
  imagePdfBlob : option (list page)
}.

(** The savings badge: ['n% smaller'] on the accent background or
    ['n% larger'] on the warning background; the number is [None] when
    it prints as [Infinity] or [NaN]. *)
Inductive badge : Type :=
| Smaller (percent : Z)
| Larger (percent : option Z).

(** The two texts of the result tip: the one shown in lossy mode
    advises lossless mode or 72 DPI, the other advises lossy mode. *)
Inductive tip : Type :=
| TipTryLossless
| TipTryLossy.

(** The elements of the compression tab.  A size label holds the byte
    count that [formatFileSize] prints; [resultTip] is [None] when the
    tip is hidden and empty. *)
Record compressTab : Type := mkCompressTab {
  dropZoneHidden : bool;
  fileInfoHidden : bool;
  settingsPanelHidden : bool;
  progressSectionHidden : bool;
  resultsSectionHidden : bool;
  compressBtnDisabled : bool;
  compressionMode : string;
  originalSizeLabel : N;
  compressedSizeLabel : N;
  savingsBadge : option badge;
  resultTip : option tip
}.

(** The elements of the image tab. *)
Record imagesTab : Type := mkImagesTab {
  imageListHidden : bool;
  imageProgressSectionHidden : bool;
  imageResultsSectionHidden : bool;
  imgQualitySlider : Z;
  pageSizeSelect : string
}.

Record world : Type := mkWorld {
  st : state;
  compress : compressTab;
  imagesUi : imagesTab;
  alerts : list string
}.

(** *** PDF compression *)

Definition removeFile (w : world) : world :=
  let s := st w in
  let t := compress w in
  mkWorld
    (mkState None None 0 0 (isProcessing s) (images s) (imagePdfBlob s))
    (mkCompressTab false true true true true (compressBtnDisabled t)
       (compressionMode t) (originalSizeLabel t) (compressedSizeLabel t)
       (savingsBadge t) (resultTip t))
    (imagesUi w) (alerts w).

(** [((1 - compressedSize / originalSize) * 100).toFixed(0)] as a
    number; [None] when it is not finite.  The percentage is rounded
    from the exact quotient: where the doubles fall on the other side of
    a half the source prints the neighbouring integer (7 rather than 8
    for 185 of 200 bytes). *)
Definition savings (originalSize compressedSize : N) : option Z :=
  match Js.div (inject_Z (Z.of_N compressedSize))
          (inject_Z (Z.of_N originalSize)) with
  | Js.Finite q => Some (Js.toFixed0 ((1 - q) * 100))
  | _ => None
  end.

Definition showResults (w : world) : world :=
  let s := st w in
  let t := compress w in
  let savings := savings (originalSize s) (compressedSize s) in
  let mode := compressionMode t in
  let positive := match savings with
                  | Some n => (0 <? n)%Z
                  | None => false
                  end in
  let '(badge, tip) :=
    if positive then
      (Smaller (default 0%Z savings), None)
    else
      (Larger (option_map Z.abs savings),
       Some (if String.eqb mode "lossy" then TipTryLossless
             else TipTryLossy)) in
  mkWorld s
    (mkCompressTab (dropZoneHidden t) (fileInfoHidden t)
       (settingsPanelHidden t) true false (compressBtnDisabled t)
       mode (originalSize s) (compressedSize s) (Some badge) tip)
    (imagesUi w) (alerts w).

(** How the compressor chosen by the mode ([compressLossless] on pdf-lib,
    [compressLossy] on pdf.js and jsPDF) ends: with the bytes of the new
    document, or with an exception. *)
Inductive encoding : Type :=
| Produced (bytes : N)
| Failed.

Definition compressPDF (enc : encoding) (w : world) : world :=
  match file_of (st w) with
  | None => w
  | Some _ =>
      if isProcessing (st w) then w
      else
        let s := st w in
        let t := compress w in
        (* isProcessing = true; the settings give way to the progress bar *)
        let s := mkState (file_of s) (compressedBlob s) (originalSize s)
                   (compressedSize s) true (images s) (imagePdfBlob s) in
        let t := mkCompressTab (dropZoneHidden t) (fileInfoHidden t) true
                   false (resultsSectionHidden t) true (compressionMode t)
                   (originalSizeLabel t) (compressedSizeLabel t)
                   (savingsBadge t) (resultTip t) in
        let w := mkWorld s t (imagesUi w) (alerts w) in
        let w :=
          match enc with
          | Produced bytes =>
              (* try: the compressor stores the blob and its size *)
              let s := mkState (file_of s) (Some bytes) (originalSize s)
                         bytes (isProcessing s) (images s)
                         (imagePdfBlob s) in
              showResults (mkWorld s t (imagesUi w) (alerts w))
          | Failed =>
              (* catch *)
              removeFile
                (mkWorld s t (imagesUi w)
                   (alerts w ++
                    ["An error occurred while compressing the PDF. Please try again."]))
          end in
        (* finally *)
        let s := st w in
        let t := compress w in
        mkWorld
          (mkState (file_of s) (compressedBlob s) (originalSize s)
             (compressedSize s) false (images s) (imagePdfBlob s))
          (mkCompressTab (dropZoneHidden t) (fileInfoHidden t)
             (settingsPanelHidden t) (progressSectionHidden t)
             (resultsSectionHidden t) false (compressionMode t)
             (originalSizeLabel t) (compressedSizeLabel t)
             (savingsBadge t) (resultTip t))
          (imagesUi w) (alerts w)
  end.

(** [handleFileSelect] on a file that passes its two checks, and the
    alerts it raises otherwise. *)
Definition handleFileSelect (f : option file) (w : world) : world :=
  let refuse msg := mkWorld (st w) (compress w) (imagesUi w)
                      (alerts w ++ [msg]) in
  match f with
  | None => refuse "Please select a valid PDF file."
  | Some f =>
      if negb (String.eqb (type f) "application/pdf") then
        refuse "Please select a valid PDF file."
      else if (100 * 1024 * 1024 <? size f)%N then
        refuse "File size exceeds 100MB limit."
      else
        let s := st w in
        let t := compress w in
        mkWorld
          (mkState (Some f) (compressedBlob s) (size f) (compressedSize s)
             (isProcessing s) (images s) (imagePdfBlob s))
          (mkCompressTab true false false (progressSectionHidden t) true
             (compressBtnDisabled t) (compressionMode t)
             (originalSizeLabel t) (compressedSizeLabel t)
             (savingsBadge t) (resultTip t))
          (imagesUi w) (alerts w)
  end.

(** *** Image to PDF *)

(** The object literal [pageSizes]: page dimensions in mm. *)
Definition pageSizes : gmap string (Q * Q) :=
  list_to_map
    [("a4", (210, 297));
     ("letter", (215.9, 279.4));
     ("legal", (215.9, 355.6))].

(** The geometry of one page: [(pageWidth, pageHeight)] and
    [(imgX, imgY, imgFinalWidth, imgFinalHeight)].  A page size without
    an entry in [pageSizes] has no geometry: reading [pg.width] raises a
    TypeError (a name inherited from [Object.prototype] would give
    geometry that is not a number; the select does not offer one). *)
Definition geometry (pageSize : string) (imgWidth imgHeight : Q)
  : option (Q * Q * (Q * Q * Q * Q)) :=
  if String.eqb pageSize "fit" then
    let pageWidth := (imgWidth / 96) * 25.4 in
    let pageHeight := (imgHeight / 96) * 25.4 in
    Some (pageWidth, pageHeight, (0, 0, pageWidth, pageHeight))
  else
    match pageSizes !! pageSize with
    | None => None
    | Some (pageWidth, pageHeight) =>
        let margin := 10 in
        let availWidth := pageWidth - (margin * 2) in
        let availHeight := pageHeight - (margin * 2) in
        let imgRatio := imgWidth / imgHeight in
        let availRatio := availWidth / availHeight in
        let '(imgFinalWidth, imgFinalHeight) :=
          if Js.gt imgRatio availRatio
          then (availWidth, availWidth / imgRatio)
          else (availHeight * imgRatio, availHeight) in
        let imgX := margin + (availWidth - imgFinalWidth) / 2 in
        let imgY := margin + (availHeight - imgFinalHeight) / 2 in
        Some (pageWidth, pageHeight,
              (imgX, imgY, imgFinalWidth, imgFinalHeight))
    end.

(** [compressImage]: the size of the canvas it encodes. *)
Definition compressImage (imgWidth imgHeight : Q) : Z * Z :=
  let maxDim := 2000 in
  let '(width, height) :=
    if Js.gt imgWidth maxDim || Js.gt imgHeight maxDim then
      if Js.gt imgWidth imgHeight
      then (maxDim, (imgHeight / imgWidth) * maxDim)
      else ((imgWidth / imgHeight) * maxDim, maxDim)
    else (imgWidth, imgHeight) in
  (Js.trunc width, Js.trunc height).

(** The body of the loop of [createPdfFromImages] for one image; [None]
    when it throws. *)
Definition processImage (pageSize : string) (quality : Q) (img : imageEntry)
  : option page :=
  match decoded img with
  | None => None
  | Some (w, h) =>
      let imgWidth := inject_Z (Z.pos w) in
      let imgHeight := inject_Z (Z.pos h) in
      match geometry pageSize imgWidth imgHeight with
      | None => None
      | Some (pageWidth, pageHeight, (imgX, imgY, fw, fh)) =>
          Some (mkPage pageWidth pageHeight
                  (if Js.gt pageWidth pageHeight then Landscape else Portrait)
                  imgX imgY fw fh
                  (compressImage imgWidth imgHeight) quality)
      end
  end.

(** The loop: the pages in list order, or [None] as soon as one image
    throws. *)
Fixpoint assemble (pageSize : string) (quality : Q) (imgs : list imageEntry)
  : option (list page) :=
  match imgs with
  | [] => Some []
  | img :: rest =>
      match processImage pageSize quality img with
      | None => None
      | Some p =>
          match assemble pageSize quality rest with
          | None => None
          | Some ps => Some (p :: ps)
          end
      end
  end.

Definition createPdfFromImages (w : world) : world :=
  let s := st w in
  let u := imagesUi w in
  match images s with
  | [] => w
  | _ :: _ =>
      if isProcessing s then w
      else
        let quality := inject_Z (imgQualitySlider u) / 100 in
        let pageSize := pageSizeSelect u in
        let finish (blob : option (list page)) (listHidden progressHidden
                      resultsHidden : bool) (alerts : list string) :=
          mkWorld
            (mkState (file_of s) (compressedBlob s) (originalSize s)
               (compressedSize s) false (images s) blob)
            (compress w)
            (mkImagesTab listHidden progressHidden resultsHidden
               (imgQualitySlider u) (pageSizeSelect u))
            alerts in
        match assemble pageSize quality (images s) with
        | Some pages =>
            (* state.imagePdfBlob = jspdfDoc.output('blob'); showImageResults() *)
            finish (Some pages) true true false (alerts w)
        | None =>
            (* catch: the list comes back, no blob is stored *)
            finish (imagePdfBlob s) false true (imageResultsSectionHidden u)
              (alerts w ++
               ["An error occurred while creating the PDF. Please try again."])
        end
  end.

(** *** Properties named by the specification *)

(** The size [(fw, fh)] fits the box [(bw, bh)] and keeps the aspect
    ratio of an image of [w] by [h] pixels. *)
Definition fitsKeeping (w h bw bh fw fh : Q) : Prop :=
  fw <= bw /\ fh <= bh /\ fw * h == fh * w.

(** The three named page sizes of the specification, in mm. *)
Definition namedSizes : list (string * (Q * Q)) :=
  [("a4", (210, 297)); ("letter", (215.9, 279.4)); ("legal", (215.9, 355.6))].

(** The page as loaded: the drop zone shown, lossy mode selected, 85%
    image quality and A4 pages. *)
Definition sampleStart : world :=
  mkWorld (mkState None None 0 0 false [] None)
    (mkCompressTab false true true true true false "lossy" 0 0 None None)
    (mkImagesTab true true true 85 "a4")
    [].

Definition samplePdf : file := mkFile "report.pdf" "application/pdf" 1000.

Definition samplePhoto : imageEntry :=
  mkImageEntry "photo.jpg" (Some (1600, 1200)%positive).

End PdfTools.

(** ** Event sequences of the crop dialog *)
Module CropEvents.
Import Watermark.

(** The handlers that edit the region of an open dialog: all but the
    opening itself and the commit. *)
Definition editing (e : event) : bool :=
  match e with
  | OpenCropModal _ | ApplyCrop => false
  | _ => true
  end.

(** A run of pointer moves. *)
Definition moves (ps : list (Q * Q)) : list event :=
  map (fun p => MouseMove (fst p) (snd p)) ps.

(** The right and the bottom edge of the region. *)
Definition right (c : crop) : Q := x c + width c.
Definition bottom (c : crop) : Q := y c + height c.

End CropEvents.

(** ** The stamps of a watermark *)
Module Stamps.
Import Watermark.

(** The values a loop variable takes in [n] rounds from [from] in steps
    of [step]. *)
Fixpoint steps (n : nat) (from step : Q) : list Q :=
  match n with
  | O => []
  | S n' => from :: steps n' (from + step) step
  end.

(** The stamps of a grid, row by row: the text at every [tx] of [xs] for
    every [ty] of [ys], all under one drawing state. *)
Definition grid (txt : list N) (under : drawState) (xs ys : list Q)
  : list drawOp :=
  flat_map (fun ty => map (fun tx => FillText txt tx ty under) xs) ys.

(** The anchors in pairs that lie opposite each other about the center
    of the image. *)
Definition opposite : list (string * string) :=
  [("top-left", "bottom-right"); ("top-center", "bottom-center");
   ("top-right", "bottom-left"); ("middle-left", "middle-right");
   ("center", "center"); ("middle-right", "middle-left");
   ("bottom-left", "top-right"); ("bottom-center", "top-center");
   ("bottom-right", "top-left")].

(** Settings of a visible, tiled watermark. *)
Definition sampleTiled : settings :=
  mkSettings [87; 77]%N 10 50 (-30) "#ffffff" "center" true 100.

(** The same with the spacing slider at zero. *)
Definition sampleStuck : settings :=
  mkSettings [87; 77]%N 10 50 (-30) "#ffffff" "center" true 0.

End Stamps.

(** ** The loops of the tiled watermark, round by round *)
Module TileLoops.
Import Watermark.

(** The inner loop
    [for (let x = -diagonal; x < diagonal; x += spacing) fillText(text, x, y)]
    from the value [x] of its variable, run for at most [fuel] rounds:
    [None] when its test still holds after them. *)
Fixpoint rowLoop (fuel : nat) (txt : list N) (x y diagonal spacing : Q)
  (c : context) : option context :=
  if Js.lt x diagonal then
    match fuel with
    | O => None
    | S fuel' =>
        rowLoop fuel' txt (x + spacing) y diagonal spacing
          (fillText txt x y c)
    end
  else Some c.

(** The outer loop
    [for (let y = -diagonal; y < diagonal; y += spacing * 0.7)] around
    it, from the value [y] of its variable, each loop run for at most
    [fuel] rounds. *)
Fixpoint rowsLoop (fuel : nat) (txt : list N) (y diagonal spacing : Q)
  (c : context) : option context :=
  if Js.lt y diagonal then
    match fuel with
    | O => None
    | S fuel' =>
        match rowLoop fuel txt (- diagonal) y diagonal spacing c with
        | Some c =>
            rowsLoop fuel' txt (y + spacing * 0.7) diagonal spacing c
        | None => None
        end
    end
  else Some c.

Section Bounded.

Variable measureText : font -> list N -> Q.
Variable sqrt : Q -> Q.

(** [renderTiledWatermark] with its loops as they are written, each
    run for at most [fuel] rounds. *)
Definition renderTiledWatermarkWithin (fuel : nat) (c : context)
  (width height : Q) (txt : list N) (fontSize rotation tileSpacing : Z)
  : option context :=
  let textWidth := measureText (ctxFont (current c)) txt in
  let spacingFactor := inject_Z tileSpacing / 100 in
  let baseSpacing := Js.max (textWidth * 1.5) (inject_Z fontSize * 3) in
  let spacing := baseSpacing * spacingFactor in
  let diagonal := sqrt (width * width + height * height) in
  let c := transformed (Translate (width / 2) (height / 2)) c in
  let c := transformed (Rotate rotation) c in
  let c := set_shadow "rgba(0, 0, 0, 0.3)" 3 1 1 c in
  rowsLoop fuel txt (- diagonal) diagonal spacing c.

End Bounded.

End TileLoops.

(** ** Download names and the theme switch *)
Module FileNames.

Definition isDot (c : ascii) : bool := Ascii.eqb c ".".

Fixpoint hasDot (s : string) : bool :=
  match s with
  | EmptyString => false
  | String c rest => isDot c || hasDot rest
  end.

(** [s.replace(/\.[^.]+$/, '')] of [downloadImage]: the match, if there
    is one, starts at the one dot that has at least one character and no
    dot after it, and runs to the end. *)
Fixpoint stripExtension (s : string) : string :=
  match s with
  | EmptyString => EmptyString
  | String c rest =>
      if isDot c && negb (Nat.eqb (String.length rest) 0)
         && negb (hasDot rest)
      then EmptyString
      else String c (stripExtension rest)
  end.

(** The download name of the watermark editor. *)
Definition watermarkedName (fileName : string) : string :=
  stripExtension fileName ++ "_watermarked.png".

(** [s] without its first [n] characters. *)
Fixpoint dropString (n : nat) (s : string) : string :=
  match n, s with
  | O, _ => s
  | S _, EmptyString => EmptyString
  | S n', String _ rest => dropString n' rest
  end.

(** [s.replace(pattern, replacement)] for a string pattern and a
    replacement without [$]: the first occurrence is replaced. *)
Fixpoint replaceFirst (pattern replacement s : string) : string :=
  if String.prefix pattern s then
    replacement ++ dropString (String.length pattern) s
  else
    match s with
    | EmptyString => EmptyString
    | String c rest => String c (replaceFirst pattern replacement rest)
    end.

(** The download name of [downloadCompressed]. *)
Definition compressedName (name : string) : string :=
  replaceFirst ".pdf" "" name ++ "_compressed.pdf".

(** [pattern] occurs somewhere in [s]. *)
Fixpoint occurs (pattern s : string) : bool :=
  String.prefix pattern s
  || match s with
     | EmptyString => false
     | String _ rest => occurs pattern rest
     end.

End FileNames.

(** [initTheme] and [toggleTheme], the same in both programs up to the
    key of the stored item. *)
Module Theme.

(** The [data-theme] attribute of the document element and the item in
    [localStorage]; [None] is an absent attribute or item. *)
Record page : Type := mkPage {
  dataTheme : option string;
  storedTheme : option string
}.

Definition isDark (p : page) : bool :=
  match dataTheme p with
  | Some t => String.eqb t "dark"
  | None => false
  end.

(** [!savedTheme]: no item, or the empty string. *)
Definition unset (saved : option string) : bool :=
  match saved with
  | Some t => String.eqb t ""
  | None => true
  end.

Definition initTheme (prefersDark : bool) (p : page) : page :=
  let savedTheme := storedTheme p in
  let savedDark := match savedTheme with
                   | Some t => String.eqb t "dark"
                   | None => false
                   end in
  if savedDark || (unset savedTheme && prefersDark)
  then mkPage (Some "dark") (storedTheme p)
  else p.

Definition toggleTheme (p : page) : page :=
  let next := if isDark p then "light" else "dark" in
  mkPage (Some next) (Some next).

(** A new document for the same origin: the storage stays, the attribute
    is what the markup gives it. *)
Definition reloaded (markup : option string) (p : page) : page :=
  mkPage markup (storedTheme p).

End Theme.


(** ** Images and page sizes of the converter *)
Module PdfMore.
Import PdfTools.

(** The page sizes [createPdfFromImages] has a geometry for: [fit] and
    the keys of [pageSizes]. *)
Definition knownSizes : list string := ["fit"; "a4"; "letter"; "legal"].

(** An image whose canvas keeps at least one pixel on each side: it is
    decoded, and neither side is more than 2000 times the other. *)
Definition drawable (img : imageEntry) : Prop :=
  exists w h, decoded img = Some (w, h) /\
              (Z.pos w <= 2000 * Z.pos h)%Z /\ (Z.pos h <= 2000 * Z.pos w)%Z.

(** The orientation handed to jsPDF agrees with the format handed to
    it: a landscape page is wider than high, a portrait page is not.
    jsPDF then takes the two numbers of the format as the width and the
    height of the page, in this order. *)
Definition agrees (p : page) : Prop :=
  match pageOrientation p with
  | Landscape => pageHeight p < pageWidth p
  | Portrait => pageWidth p <= pageHeight p
  end.

(** The page [p] of the image [img] under the page size [pageSize]:
    the page of the image at 96 DPI with the image all over it for
    [fit]; for a named size a portrait page of that size, with the image
    at the largest size that fits the page less 10 mm on each side and
    keeps its aspect ratio, centered in that box. *)
Definition pageOf (pageSize : string) (img : imageEntry) (p : page) : Prop :=
  exists w h,
    decoded img = Some (w, h) /\
    let imgW := inject_Z (Z.pos w) in
    let imgH := inject_Z (Z.pos h) in
    agrees p /\
    (pageSize = "fit" ->
     pageWidth p = (imgW / 96) * 25.4 /\
     pageHeight p = (imgH / 96) * 25.4 /\
     imgX p = 0 /\ imgY p = 0 /\
     imgFinalWidth p = pageWidth p /\
     imgFinalHeight p = pageHeight p) /\
    (forall pw ph,
        In (pageSize, (pw, ph)) namedSizes ->
        pageWidth p = pw /\ pageHeight p = ph /\
        pageOrientation p = Portrait /\
        fitsKeeping imgW imgH (pw - 20) (ph - 20)
          (imgFinalWidth p) (imgFinalHeight p) /\
        (forall fw fh,
            fitsKeeping imgW imgH (pw - 20) (ph - 20) fw fh ->
            fw <= imgFinalWidth p /\ fh <= imgFinalHeight p) /\
        imgX p - 10 == (pw - 10) - (imgX p + imgFinalWidth p) /\
        imgY p - 10 == (ph - 10) - (imgY p + imgFinalHeight p) /\
        10 <= imgX p /\ 10 <= imgY p).

(** Three images of different shapes, and the image tab with them
    under the page size chosen. *)
Definition sampleImages : list imageEntry :=
  [mkImageEntry "wide.jpg" (Some (1600, 1200)%positive);
   mkImageEntry "tall.jpg" (Some (900, 1600)%positive);
   mkImageEntry "square.png" (Some (500, 500)%positive)].

Definition sampleTab (pageSize : string) : world :=
  mkWorld (mkState None None 0 0 false sampleImages None)
    (compress sampleStart) (mkImagesTab false true true 85 pageSize) [].

End PdfMore.

(** ** Choosing an image for the watermark editor *)
Module Intake.
Import Watermark.

(** A [File]: its name and its MIME type. *)
Record file : Type := mkFile {
  name : string;
  type : string
}.

(** [toLowerCase] on the letters A to Z.  The strings it is compared
    with ([image/heic], [image/heif], [.heic], [.heif]) hold no letter
    that is the lower case of a letter outside ASCII, so the other
    characters can stay as they are. *)
Definition lowerLetter (c : ascii) : ascii :=
  let n := nat_of_ascii c in
  if (65 <=? n)%nat && (n <=? 90)%nat then ascii_of_nat (n + 32) else c.

Fixpoint toLowerCase (s : string) : string :=
  match s with
  | EmptyString => EmptyString
  | String c rest => String (lowerLetter c) (toLowerCase rest)
  end.

(** [s.endsWith(suffix)]. *)
Definition endsWith (suffix s : string) : bool :=
  let n := String.length s in
  let m := String.length suffix in
  (m <=? n)%nat && String.eqb (substring (n - m) m s) suffix.

Definition isHeicFile (f : file) : bool :=
  let heicTypes := ["image/heic"; "image/heif"] in
  let heicExtensions := [".heic"; ".heif"] in
  if existsb (String.eqb (toLowerCase (type f))) heicTypes then true
  else
    let fileName := toLowerCase (name f) in
    existsb (fun ext => endsWith ext fileName) heicExtensions.

(** What the asynchronous steps of [handleFileSelect] come to: whether
    [heic2any] resolves, and the image whose [onload] fires, if the data
    can be decoded ([onerror] has no handler). *)
Record loading : Type := mkLoading {
  converts : bool;
  decodes : option image
}.

(** The editor state with the two panels [showEditor] and [removeImage]
    switch between. *)
Record page : Type := mkPage {
  world_of : world;
  dropZoneHidden : bool;
  editorPanelHidden : bool
}.

Definition alert (msg : string) (p : page) : page :=
  let w := world_of p in
  mkPage (mkWorld (st w) (el w) (alerts w ++ [msg]))
    (dropZoneHidden p) (editorPanelHidden p).

Definition set_fileName (v : string) (p : page) : page :=
  let w := world_of p in
  let s := st w in
  mkPage
    (mkWorld (mkState (originalImage s) v (settings_of s) (crop_of s))
       (el w) (alerts w))
    (dropZoneHidden p) (editorPanelHidden p).

Definition showEditor (p : page) : page :=
  mkPage (world_of p) true false.

Definition removeImage (p : page) : page :=
  let w := world_of p in
  let s := st w in
  mkPage
    (mkWorld (mkState None "" (settings_of s) (crop_of s)) (el w) (alerts w))
    false true.

(** The name [downloadImage] gives the download; [None] without an
    image. *)
Definition downloadImage (p : page) : option string :=
  match originalImage (st (world_of p)) with
  | None => None
  | Some _ => Some (FileNames.watermarkedName (fileName (st (world_of p))))
  end.

Section Selecting.

Variable measureText : font -> list N -> Q.
Variable sqrt : Q -> Q.

(** [handleFileSelect], with its continuations run to their end;
    [None] when the preview never finishes. *)
Definition handleFileSelect (f : option file) (l : loading) (p : page)
  : option page :=
  match f with
  | None => Some (alert "Please select a valid image file." p)
  | Some f =>
      let isImage := String.prefix "image/" (type f) in
      let isHeic := isHeicFile f in
      if negb isImage && negb isHeic then
        Some (alert
                "Please select a valid image file (JPG, PNG, WebP, GIF, HEIC)."
                p)
      else
        let p := set_fileName (name f) p in
        if isHeic && negb (converts l) then
          Some (alert
                  "Failed to convert HEIC file. Please try a different image."
                  p)
        else
          match decodes l with
          | None => Some p
          | Some img =>
              let p := mkPage (with_image img (world_of p))
                         (dropZoneHidden p) (editorPanelHidden p) in
              let p := showEditor p in
              let w := world_of p in
              match renderPreview measureText sqrt (st w)
                      (previewCanvas (el w)) with
              | Some cv =>
                  Some (mkPage (with_el (set_previewCanvas cv) w)
                          (dropZoneHidden p) (editorPanelHidden p))
              | None => None
              end
          end
  end.

End Selecting.

(** A file the editor takes. *)
Definition accepted (f : file) : bool :=
  String.prefix "image/" (type f) || isHeicFile f.

(** The editor with a 640 by 480 picture in it. *)
Definition samplePage : page :=
  mkPage
    (mkWorld
       (mkState (Some (Decoded 640 480)) "beach.jpg" initialSettings
          initialCrop)
       (el initialWorld) [])
    true false.

End Intake.

(** ** The list of images of the converter *)
Module ImageList.

Section Arrays.

Context {A : Type}.

(** The value a missing element reads as. *)
Variable undefined : A.

(** [array.splice(start, deleteCount, ...items)] for indices that are
    not negative: the removed elements and the array afterwards. *)
Definition splice (start deleteCount : nat) (items : list A) (array : list A)
  : list A * list A :=
  (take deleteCount (drop start array),
   take start array ++ items ++ drop (start + deleteCount) array).

(** [handleImageDropReorder] on [state.images]: [draggedImageIndex] is
    [None] for [null]. *)
Definition handleImageDropReorder (draggedImageIndex : option nat)
  (targetIndex : nat) (images : list A) : list A :=
  match draggedImageIndex with
  | None => images
  | Some dragged =>
      if negb (dragged =? targetIndex)%nat then
        let '(removedItems, images) := splice dragged 1 [] images in
        (* const [removed] = ... *)
        let removed := hd undefined removedItems in
        snd (splice targetIndex 0 [removed] images)
      else images
  end.

Definition removeImage (index : nat) (images : list A) : list A :=
  snd (splice index 1 [] images).

End Arrays.

End ImageList.

(** ** The preview dialog *)
Module Preview.

(** The preview fields of [state]: [previewPdf] is the number of pages
    of the loaded document. *)
Record state : Type := mkState {
  previewPdf : option positive;
  currentPage : Z;
  totalPages : Z
}.

(** The dialog: the two numbers of the page indicator, the two buttons,
    and [rendered], the page of the last call of [renderPreviewPage] on
    a loaded document.  That call is asynchronous and nothing waits for
    it or cancels it: the canvas shows this page when each render is
    left to finish before the next click, and the page of whichever
    render finishes last otherwise. *)
Record modal : Type := mkModal {
  previewModalHidden : bool;
  pageIndicator : Z * Z;
  prevPageBtnDisabled : bool;
  nextPageBtnDisabled : bool;
  rendered : option Z
}.

Record world : Type := mkWorld {
  st : state;
  ui : modal;
  alerts : list string
}.

Definition updatePageNavigation (w : world) : world :=
  let s := st w in
  let m := ui w in
  mkWorld s
    (mkModal (previewModalHidden m) (currentPage s, totalPages s)
       (currentPage s <=? 1)%Z (totalPages s <=? currentPage s)%Z
       (rendered m))
    (alerts w).

(** [renderPreviewPage], as far as the call goes: the page asked for is
    recorded; drawing it is left to pdf.js. *)
Definition renderPreviewPage (pageNum : Z) (w : world) : world :=
  match previewPdf (st w) with
  | None => w
  | Some _ =>
      let m := ui w in
      mkWorld (st w)
        (mkModal (previewModalHidden m) (pageIndicator m)
           (prevPageBtnDisabled m) (nextPageBtnDisabled m) (Some pageNum))
        (alerts w)
  end.

Definition closePreview (w : world) : world :=
  let s := st w in
  let m := ui w in
  mkWorld (mkState None (currentPage s) (totalPages s))
    (mkModal true (pageIndicator m) (prevPageBtnDisabled m)
       (nextPageBtnDisabled m) (rendered m))
    (alerts w).

(** [openPreview(blob)]: [blob] is [None] for [null]; a blob is known
    by the number of pages pdf.js finds in it, [None] when loading it
    throws. *)
Definition openPreview (blob : option (option positive)) (w : world)
  : world :=
  match blob with
  | None => w
  | Some document =>
      let m := ui w in
      let w := mkWorld (st w)
                 (mkModal false (pageIndicator m) (prevPageBtnDisabled m)
                    (nextPageBtnDisabled m) (rendered m))
                 (alerts w) in
      match document with
      | Some numPages =>
          let w := mkWorld (mkState (Some numPages) 1 (Z.pos numPages))
                     (ui w) (alerts w) in
          let w := updatePageNavigation w in
          renderPreviewPage (currentPage (st w)) w
      | None =>
          closePreview
            (mkWorld (st w) (ui w)
               (alerts w ++ ["Could not preview the PDF."]))
      end
  end.

Definition prevPage (w : world) : world :=
  let s := st w in
  if (1 <? currentPage s)%Z then
    let w := mkWorld (mkState (previewPdf s) (currentPage s - 1)
                        (totalPages s))
               (ui w) (alerts w) in
    let w := updatePageNavigation w in
    renderPreviewPage (currentPage (st w)) w
  else w.

Definition nextPage (w : world) : world :=
  let s := st w in
  if (currentPage s <? totalPages s)%Z then
    let w := mkWorld (mkState (previewPdf s) (currentPage s + 1)
                        (totalPages s))
               (ui w) (alerts w) in
    let w := updatePageNavigation w in
    renderPreviewPage (currentPage (st w)) w
  else w.

(** A click on one of the two page buttons. *)
Inductive click : Type :=
| Prev
| Next.

Definition press (c : click) (w : world) : world :=
  match c with
  | Prev => prevPage w
  | Next => nextPage w
  end.

Definition clicks (cs : list click) (w : world) : world :=
  fold_left (fun w c => press c w) cs w.

(** The state as the page loads, with the dialog hidden. *)
Definition initialWorld : world :=
  mkWorld (mkState None 1 1) (mkModal true (1, 1)%Z false false None) [].

(** The dialog is on a page of a document of [n] pages: the page
    number is one of the document, the indicator shows it, and a button
    is disabled exactly at its end of the document. *)
Definition onPage (n : positive) (w : world) : Prop :=
  let page := currentPage (st w) in
  previewPdf (st w) = Some n /\
  totalPages (st w) = Z.pos n /\
  (1 <= page <= Z.pos n)%Z /\
  pageIndicator (ui w) = (page, Z.pos n) /\
  prevPageBtnDisabled (ui w) = (page =? 1)%Z /\
  nextPageBtnDisabled (ui w) = (page =? Z.pos n)%Z /\
  previewModalHidden (ui w) = false.

(** The same with every render left to finish: the page asked for last
    is the page the dialog is on. *)
Definition inDocument (n : positive) (w : world) : Prop :=
  let page := currentPage (st w) in
  previewPdf (st w) = Some n /\
  totalPages (st w) = Z.pos n /\
  (1 <= page <= Z.pos n)%Z /\
  pageIndicator (ui w) = (page, Z.pos n) /\
  prevPageBtnDisabled (ui w) = (page =? 1)%Z /\
  nextPageBtnDisabled (ui w) = (page =? Z.pos n)%Z /\
  rendered (ui w) = Some page /\
  previewModalHidden (ui w) = false.

End Preview.

(** ** Printing sizes *)
Module Format.

Definition sizes : list string := ["Bytes"; "KB"; "MB"; "GB"].

(** [Math.floor(Math.log(bytes) / Math.log(1024))] for [bytes > 0]:
    the number of binary digits after the first, over ten.  Below 2^49
    bytes the quotient of the two logarithms, as computed, is not yet
    rounded up to the next integer. *)
Definition unitIndex (bytes : N) : N := (N.log2 bytes / 10)%N.

(** [formatFileSize]: the number printed, in hundredths, and the unit;
    the unit is [None] where [sizes[i]] is [undefined].
    [toFixed(2)] rounds to the nearest hundredth, a tie going up, and
    [parseFloat] drops the zeros at the end. *)
Definition formatFileSize (bytes : N) : Z * option string :=
  if (bytes =? 0)%N then (0%Z, Some "Bytes")
  else
    let k := 1024%N in
    let i := unitIndex bytes in
    (Qfloor (inject_Z (Z.of_N bytes) / inject_Z (Z.of_N (k ^ i)) * 100
             + (1 # 2)),
     sizes !! N.to_nat i).

End Format.

(** ** Pages of the lossy compressor *)
Module Lossy.

(** What one turn of the page loop hands to the canvas and to jsPDF. *)
Record output : Type := mkOutput {
  canvas : Z * Z;
  format : Q * Q;
  landscape : bool;
  image : Q * Q * Q * Q
}.

(** [page.getViewport({ scale })] for a page whose box is [width] by
    [height] points: its [width] and [height], each a product of
    doubles. *)
Definition getViewport (page : Q * Q) (scale : Q) : Q * Q :=
  (Binary64.mul (fst page) scale, Binary64.mul (snd page) scale).

(** The body of the loop of [compressLossy], in doubles: the sizes of
    the canvas are truncated. *)
Definition compressLossy (dpi : Z) (page : Q * Q) : output :=
  let renderScale := Binary64.div (inject_Z dpi) 72 in
  let originalViewport := getViewport page 1 in
  let renderViewport := getViewport page renderScale in
  let widthPt := fst originalViewport in
  let heightPt := snd originalViewport in
  let widthMM :=
    Binary64.mul (Binary64.div widthPt 72) (Binary64.round 25.4) in
  let heightMM :=
    Binary64.mul (Binary64.div heightPt 72) (Binary64.round 25.4) in
  mkOutput (Js.trunc (fst renderViewport), Js.trunc (snd renderViewport))
    (widthMM, heightMM) (Js.gt widthMM heightMM)
    (0, 0, widthMM, heightMM).

(** The body of the loop of [compressPDF] in the compressor that has no
    lossless mode (the second program of the file), in doubles. *)
Definition compressPDF (dpi : Z) (page : Q * Q) : output :=
  let baseScale := Binary64.div (inject_Z dpi) 150 in
  let compressionFactor := Binary64.round 0.7 in
  let scale := Binary64.mul baseScale compressionFactor in
  let viewport := getViewport page scale in
  let widthMM :=
    Binary64.mul (Binary64.div (fst viewport) (inject_Z dpi))
      (Binary64.round 25.4) in
  let heightMM :=
    Binary64.mul (Binary64.div (snd viewport) (inject_Z dpi))
      (Binary64.round 25.4) in
  mkOutput (Js.trunc (fst viewport), Js.trunc (snd viewport))
    (widthMM, heightMM) (Js.gt widthMM heightMM)
    (0, 0, widthMM, heightMM).

(** A US Letter page and an A4 page, in points as pdf.js has them. *)
Definition letter : Q * Q := (612, 792).

Definition a4 : Q * Q := (Binary64.round 595.28, Binary64.round 841.92).

End Lossy.
(** * Proofs *)

(** ** Facts about the JavaScript operators *)
Module JsFacts.

Lemma Qle_bool_false (a b : Q) : Qle_bool a b = false <-> b < a.
Proof.
  split; intro H.
  - apply Qnot_le_lt. intro L. apply Qle_bool_iff in L. congruence.
  - destruct (Qle_bool a b) eqn:E; [| reflexivity].
    apply Qle_bool_iff in E. lra.
Qed.

Lemma lt_true (a b : Q) : Js.lt a b = true <-> a < b.
Proof.
  unfold Js.lt. rewrite negb_true_iff. apply Qle_bool_false.
Qed.

Lemma lt_false (a b : Q) : Js.lt a b = false <-> b <= a.
Proof.
  unfold Js.lt. rewrite negb_false_iff. apply Qle_bool_iff.
Qed.

Lemma max_cases (a b : Q) :
  (a <= b /\ Js.max a b = b) \/ (b < a /\ Js.max a b = a).
Proof.
  unfold Js.max. destruct (Qle_bool a b) eqn:E.
  - left. split; [apply Qle_bool_iff, E | reflexivity].
  - right. split; [apply Qle_bool_false, E | reflexivity].
Qed.

Lemma min_cases (a b : Q) :
  (a <= b /\ Js.min a b = a) \/ (b < a /\ Js.min a b = b).
Proof.
  unfold Js.min. destruct (Qle_bool a b) eqn:E.
  - left. split; [apply Qle_bool_iff, E | reflexivity].
  - right. split; [apply Qle_bool_false, E | reflexivity].
Qed.

(** A quotient by a divisor that is not zero is finite. *)
Lemma div_finite (a b : Q) : ~ b == 0 -> Js.div a b = Js.Finite (a / b).
Proof.
  intro H. unfold Js.div. destruct (Qeq_bool b 0) eqn:E; [| reflexivity].
  apply Qeq_bool_eq in E. contradiction.
Qed.

(** Truncation of a number that is not negative rounds down. *)
Lemma trunc_nonneg (q : Q) : 0 <= q -> Js.trunc q = Qfloor q.
Proof.
  intro H. unfold Js.trunc. destruct (Js.lt q 0) eqn:E; [| reflexivity].
  apply lt_true in E. lra.
Qed.

Lemma floor_ge (q : Q) (z : Z) : inject_Z z <= q -> (z <= Qfloor q)%Z.
Proof.
  intro H. rewrite <- (Qfloor_Z z). apply Qfloor_resp_le, H.
Qed.

Lemma inject_pos (p : positive) : 0 < inject_Z (Z.pos p).
Proof. unfold Qlt. simpl. lia. Qed.

Lemma trimStart_white (s : list N) :
  forallb Js.isWhiteSpace s = true -> Js.trimStart s = [].
Proof.
  induction s as [| c rest IH]; simpl; [reflexivity |].
  intro H. apply andb_true_iff in H as [Hc Hrest].
  rewrite Hc. apply IH, Hrest.
Qed.

Lemma trim_white (s : list N) :
  forallb Js.isWhiteSpace s = true -> Js.trim s = [].
Proof.
  intro H. unfold Js.trim. rewrite (trimStart_white s H). reflexivity.
Qed.

Example includes_on_handles :
  Js.includes "e" "ne" = true /\ Js.includes "w" "sw" = true /\
  Js.includes "n" "s" = false /\ Js.includes "e" "move" = true.
Proof. repeat split. Qed.

Example toFixed0_rounds_ties_away :
  Js.toFixed0 (5 # 2) = 3%Z /\ Js.toFixed0 (- (5 # 2)) = (-3)%Z /\
  Js.toFixed0 (- (2 # 5)) = 0%Z /\ Js.toFixed0 (- 20) = (-20)%Z.
Proof. repeat split. Qed.

Example trim_keeps_inner_space :
  Js.trim [32; 169; 32; 50; 10]%N = [169; 32; 50]%N /\
  Js.trim [32; 9; 160; 12288]%N = [].
Proof. repeat split. Qed.

Example div_by_zero :
  Js.div 3 0 = Js.PosInfinity /\ Js.div (-3) 0 = Js.NegInfinity /\
  Js.div 0 0 = Js.NaN /\ Js.num_gt (Js.div 3 0) 2 = true /\
  Js.num_lt (Js.div 0 0) 10 = false.
Proof. repeat split. Qed.

End JsFacts.

(** ** Rounding to the nearest double *)
Module Binary64Facts.
Import Binary64.

Lemma two_power_pos (e : Z) : 0 < 2 ^ e.
Proof. apply Qpower_0_lt. reflexivity. Qed.

Lemma two_power_succ (e : Z) : 2 ^ (e + 1) == 2 * 2 ^ e.
Proof.
  rewrite Qpower_plus by discriminate. change (2 ^ 1) with 2. ring.
Qed.

Lemma ilog2_spec (q : Q) :
  0 < q -> 2 ^ ilog2 q <= q /\ q < 2 ^ (ilog2 q + 1).
Proof.
  intro Hq. unfold ilog2.
  destruct q as [n d]. cbn [Qnum Qden].
  assert (0 < n)%Z as Hn by (unfold Qlt in Hq; simpl in Hq; lia).
  set (a := Z.log2 n). set (b := Z.log2 (Z.pos d)).
  assert (0 <= a)%Z as Ha by apply Z.log2_nonneg.
  assert (0 <= b)%Z as Hb by apply Z.log2_nonneg.
  destruct (Z.log2_spec n Hn) as [An An'].
  destruct (Z.log2_spec (Z.pos d) (Pos2Z.is_pos d)) as [Bd Bd'].
  fold a in An, An'. fold b in Bd, Bd'.
  set (N := inject_Z n). set (D := inject_Z (Z.pos d)).
  set (A := 2 ^ a). set (B := 2 ^ b).
  assert (inject_Z (2 ^ a) == A) as EA by (apply Zpower_Qpower; exact Ha).
  assert (inject_Z (2 ^ b) == B) as EB by (apply Zpower_Qpower; exact Hb).
  assert (A <= N) as HAN by (rewrite <- EA; unfold N; rewrite <- Zle_Qle; exact An).
  assert (N < 2 * A) as HNA.
  { rewrite <- EA. change 2 with (inject_Z 2). rewrite <- inject_Z_mult.
    unfold N. rewrite <- Zlt_Qlt. rewrite Z.pow_succ_r in An' by exact Ha. exact An'. }
  assert (B <= D) as HBD by (rewrite <- EB; unfold D; rewrite <- Zle_Qle; exact Bd).
  assert (D < 2 * B) as HDB.
  { rewrite <- EB. change 2 with (inject_Z 2). rewrite <- inject_Z_mult.
    unfold D. rewrite <- Zlt_Qlt. rewrite Z.pow_succ_r in Bd' by exact Hb. exact Bd'. }
  assert (0 < A) as PA by apply two_power_pos.
  assert (0 < B) as PB by apply two_power_pos.
  assert (n # d == N / D) as Eq by apply Qmake_Qdiv.
  set (E := 2 ^ (a - b)).
  assert (E == A / B) as EE by (unfold E, A, B; apply Qpower_minus; discriminate).
  assert (E * B == A) as EE' by (rewrite EE; field; lra).
  assert (0 < E) as PE by apply two_power_pos.
  set (q := n # d) in *.
  assert (q * D == N) as Eq' by (rewrite Eq; field; lra).
  assert (E < 2 * q) as Hlo by nra.
  assert (q < 2 * E) as Hhi by nra.
  destruct (Qle_bool E q) eqn:Ecmp.
  - apply Qle_bool_iff in Ecmp. fold E. split; [exact Ecmp |].
    rewrite two_power_succ. fold E. exact Hhi.
  - assert (q < E) as Hlt.
    { apply Qnot_le_lt. intro L. apply Qle_bool_iff in L. congruence. }
    replace (a - b - 1 + 1)%Z with (a - b)%Z by lia. fold E.
    split; [| exact Hlt].
    assert (E == 2 * 2 ^ (a - b - 1)) as E2.
    { unfold E. rewrite <- two_power_succ.
      replace (a - b - 1 + 1)%Z with (a - b)%Z by lia. reflexivity. }
    lra.
Qed.

Lemma nearestEven_close (q : Q) :
  q - (1 # 2) <= inject_Z (nearestEven q) /\
  inject_Z (nearestEven q) <= q + (1 # 2).
Proof.
  unfold nearestEven.
  pose proof (Qfloor_le q) as Hf. pose proof (Qlt_floor q) as Hc.
  rewrite inject_Z_plus in Hc. change (inject_Z 1) with 1 in Hc.
  destruct (Qcompare_spec (q - inject_Z (Qfloor q)) (1 # 2)) as [E | E | E].
  - destruct (Z.even (Qfloor q)).
    + split; lra.
    + rewrite inject_Z_plus. change (inject_Z 1) with 1. split; lra.
  - split; lra.
  - rewrite inject_Z_plus. change (inject_Z 1) with 1. split; lra.
Qed.

Lemma roundPositive_bounds (q : Q) :
  0 < q ->
  q * (1 - unitRoundoff) <= roundPositive q /\
  roundPositive q <= q * (1 + unitRoundoff).
Proof.
  intro Hq. unfold roundPositive. rewrite Qred_correct.
  destruct (ilog2_spec q Hq) as [Hlo Hhi].
  set (e := ilog2 q) in *.
  set (s := 2 ^ (e - 52)).
  assert (0 < s) as Ps by apply two_power_pos.
  assert (2 ^ e == 2 ^ 52 * s) as Es.
  { unfold s. rewrite <- Qpower_plus by discriminate.
    replace (52 + (e - 52))%Z with e by lia. reflexivity. }
  destruct (nearestEven_close (q / s)) as [Nlo Nhi].
  set (n := inject_Z (nearestEven (q / s))) in *.
  set (m := q / s) in *.
  assert (m * s == q) as Em by (unfold m; field; lra).
  assert (s <= q * (1 # 2 ^ 52)) as Hs.
  { assert (2 ^ 52 * s <= q) as H by (rewrite <- Es; exact Hlo).
    assert ((1 # 2 ^ 52) * 2 ^ 52 == 1) as H1 by reflexivity.
    nra. }
  unfold unitRoundoff.
  assert ((1 # 2 ^ 53) * 2 == (1 # 2 ^ 52)) as Hu by reflexivity.
  split; nra.
Qed.

Lemma round_nonneg (q : Q) : 0 <= q -> 0 <= round q.
Proof.
  intro Hq. unfold round. destruct q as [[| p | p] d]; cbn [Qnum].
  - lra.
  - assert (0 < Z.pos p # d) as Hp by reflexivity.
    destruct (roundPositive_bounds _ Hp) as [Hlo _].
    assert (0 <= (Z.pos p # d) * (1 - unitRoundoff)).
    { apply Qmult_le_0_compat; [lra |]. apply Qle_bool_iff. reflexivity. }
    lra.
  - exfalso. unfold Qle in Hq. simpl in Hq. lia.
Qed.

Lemma round_bounds (q : Q) :
  0 <= q ->
  q * (1 - unitRoundoff) <= round q /\ round q <= q * (1 + unitRoundoff).
Proof.
  intro Hq. unfold round. destruct q as [[| p | p] d]; cbn [Qnum].
  - split; apply Qle_bool_iff; reflexivity.
  - apply roundPositive_bounds. reflexivity.
  - exfalso. unfold Qle in Hq. simpl in Hq. lia.
Qed.

Lemma shrink_pos (k : nat) : 0 < shrink k.
Proof. apply Qpower_0_lt. reflexivity. Qed.

Lemma shrink_add (j k : nat) : shrink (j + k) == shrink j * shrink k.
Proof.
  unfold shrink. rewrite Nat2Z.inj_add. apply Qpower_plus. discriminate.
Qed.

Lemma shrink_one : shrink 1 == 1 - unitRoundoff.
Proof. reflexivity. Qed.

Lemma shrink_le_1 (k : nat) : shrink k <= 1.
Proof.
  induction k as [| k IH]; [apply Qle_refl |].
  replace (S k) with (1 + k)%nat by reflexivity.
  rewrite shrink_add, shrink_one.
  pose proof (shrink_pos k).
  assert (0 < unitRoundoff) by reflexivity.
  set (u := unitRoundoff) in *. nra.
Qed.

Lemma within_refl (x : Q) : within 0 x x.
Proof. unfold within. change (shrink 0) with 1. split; lra. Qed.

Lemma within_eq (k : nat) (x' y' x y : Q) :
  x' == y' -> x == y -> within k x' x -> within k y' y.
Proof. unfold within. intros -> ->. tauto. Qed.

Lemma within_nonneg (k : nat) (x' x : Q) : 0 <= x -> within k x' x -> 0 <= x'.
Proof.
  intros Hx [H _]. pose proof (shrink_pos k).
  assert (0 <= x * shrink k) by (apply Qmult_le_0_compat; lra). lra.
Qed.

Lemma within_pos (k : nat) (x' x : Q) : 0 < x -> within k x' x -> 0 < x'.
Proof.
  intros Hx [H _]. pose proof (shrink_pos k).
  assert (0 < x * shrink k) by (apply Qmult_lt_0_compat; lra). lra.
Qed.

Lemma within_weaken (j k : nat) (x' x : Q) :
  0 <= x -> within j x' x -> within (j + k) x' x.
Proof.
  intros Hx Hw. pose proof (within_nonneg j x' x Hx Hw) as Hx'.
  destruct Hw as [H1 H2]. unfold within. rewrite shrink_add.
  pose proof (shrink_pos j). pose proof (shrink_pos k).
  pose proof (shrink_le_1 k).
  split; nra.
Qed.

Lemma within_round (k : nat) (x' x : Q) :
  0 <= x -> within k x' x -> within (S k) (round x') x.
Proof.
  intros Hx Hw. pose proof (within_nonneg k x' x Hx Hw) as Hx'.
  destruct Hw as [H1 H2].
  destruct (round_bounds x' Hx') as [R1 R2].
  pose proof (round_nonneg x' Hx') as R0.
  replace (S k) with (1 + k)%nat by reflexivity.
  unfold within. rewrite shrink_add, shrink_one.
  pose proof (shrink_pos k) as Pk.
  assert (0 < unitRoundoff /\ unitRoundoff < 1) as [U0 U1]
      by (split; reflexivity).
  set (u := unitRoundoff) in *. set (t := shrink k) in *.
  split.
  - assert (x * t * (1 - u) <= x' * (1 - u)) by nra. lra.
  - assert (round x' * (1 - u) <= x') by nra.
    assert (round x' * (1 - u) * t <= x' * t) by nra. lra.
Qed.

Lemma within_mul (j k : nat) (a' a b' b : Q) :
  0 <= a -> 0 <= b ->
  within j a' a -> within k b' b -> within (j + k) (a' * b') (a * b).
Proof.
  intros Ha Hb Wa Wb.
  pose proof (within_nonneg j a' a Ha Wa) as Ha'.
  pose proof (within_nonneg k b' b Hb Wb) as Hb'.
  destruct Wa as [A1 A2]. destruct Wb as [B1 B2].
  unfold within. rewrite shrink_add.
  pose proof (shrink_pos j). pose proof (shrink_pos k).
  set (s := shrink j) in *. set (t := shrink k) in *.
  assert (0 <= a * s) by nra. assert (0 <= b * t) by nra.
  assert (0 <= a' * s) by nra. assert (0 <= b' * t) by nra.
  split.
  - assert ((a * s) * (b * t) <= a' * b') by nra. lra.
  - assert ((a' * s) * (b' * t) <= a * b) by nra. lra.
Qed.

Lemma within_div (j k : nat) (a' a b' b : Q) :
  0 <= a -> 0 < b ->
  within j a' a -> within k b' b -> within (j + k) (a' / b') (a / b).
Proof.
  intros Ha Hb Wa Wb.
  pose proof (within_nonneg j a' a Ha Wa) as Ha'.
  pose proof (within_pos k b' b Hb Wb) as Hb'.
  destruct Wa as [A1 A2]. destruct Wb as [B1 B2].
  unfold within. rewrite shrink_add.
  pose proof (shrink_pos j). pose proof (shrink_pos k).
  set (s := shrink j) in *. set (t := shrink k) in *.
  set (q := a / b). set (q' := a' / b').
  assert (q * b == a) as Eq by (unfold q; field; lra).
  assert (q' * b' == a') as Eq' by (unfold q'; field; lra).
  assert (0 <= q) by (unfold q; apply Qle_shift_div_l; lra).
  assert (0 <= q') by (unfold q'; apply Qle_shift_div_l; lra).
  split.
  - assert (0 <= q * s) by nra.
    assert ((q * s) * (b' * t) <= (q * s) * b) by nra.
    assert (q * s * b == a * s) as E1 by (rewrite <- Eq; ring).
    assert (q * s * t * b' <= q' * b') by lra.
    apply Qnot_lt_le. intro L.
    assert (q' * b' < q * s * t * b') by nra. lra.
  - assert (0 <= q' * s) by nra.
    assert ((q' * s) * (b * t) <= (q' * s) * b') by nra.
    assert (q' * s * b' == a' * s) as E1 by (rewrite <- Eq'; ring).
    assert (q' * s * t * b <= q * b) by lra.
    apply Qnot_lt_le. intro L.
    assert (q * b < q' * s * t * b) by nra. lra.
Qed.

(** The doubles behind some literals and sums: 0.1, 0.1 + 0.2 (which
    prints as 0.30000000000000004) and 0.3, two ties above 2^53, and
    -2/3. *)
Example round_samples :
  round 0.1 == 3602879701896397 # 36028797018963968 /\
  round (round 0.1 + round 0.2) == 1351079888211149 # 4503599627370496 /\
  round 0.3 == 5404319552844595 # 18014398509481984 /\
  round 9007199254740993 == 9007199254740992 /\
  round 9007199254740995 == 9007199254740996 /\
  round (- (2 # 3)) == - (6004799503160661 # 9007199254740992).
Proof. vm_compute. repeat split. Qed.

(** *** Error analysis *)

Lemma within_near (k : nat) (x' x : Q) :
  (k <= 16)%nat -> 0 <= x -> within k x' x -> near x' x.
Proof.
  intros Hk Hx Hw.
  assert (within 16 x' x) as Hw16.
  { replace 16%nat with (k + (16 - k))%nat by lia.
    apply within_weaken; assumption. }
  clear Hw. pose proof (within_nonneg 16 x' x Hx Hw16) as Hx'.
  destruct Hw16 as [H1 H2].
  assert (1 - (1 # 2 ^ 48) <= shrink 16) as S1
      by (apply Qle_bool_iff; vm_compute; reflexivity).
  assert (1 <= shrink 16 * (1 + (1 # 2 ^ 48))) as S2
      by (apply Qle_bool_iff; vm_compute; reflexivity).
  pose proof (shrink_pos 16) as P.
  set (t := shrink 16) in *. set (e := 1 # 2 ^ 48) in *.
  assert (0 < e) as He by reflexivity.
  unfold near. fold e. split.
  - assert (x * (1 - e) <= x * t) by nra. lra.
  - assert (x' * 1 <= x' * (t * (1 + e))) by nra.
    assert (x' * t * (1 + e) <= x * (1 + e)) by nra. lra.
Qed.

Lemma within_const (q : Q) : 0 <= q -> within 1 (round q) q.
Proof. intro H. apply within_round; [exact H | apply within_refl]. Qed.

Lemma near_eq (x' x y : Q) : x == y -> near x' x -> near x' y.
Proof. unfold near. intros ->. tauto. Qed.

(** One step of an error analysis: the outermost operation of the
    number computed against the same operation on exact numbers. *)
Ltac within_step :=
  match goal with
  | |- within _ ?x ?x => apply within_refl
  | |- within _ (round _) _ => apply within_round
  | |- within _ (mul _ _) _ => unfold mul at 1
  | |- within _ (div _ _) _ => unfold div at 1
  | |- within _ (_ * _) (_ * _) => apply within_mul
  | |- within _ (_ / _) (_ / _) => apply within_div
  end.

(** Signs of the exact numbers of an error analysis. *)
Ltac signs :=
  repeat match goal with
    | |- 0 <= _ * _ => apply Qmult_le_0_compat
    | |- 0 < _ * _ => apply Qmult_lt_0_compat
    | |- 0 <= _ / _ => apply Qle_shift_div_l; [| rewrite Qmult_0_l]
    | |- 0 < _ / _ => apply Qlt_shift_div_l; [| rewrite Qmult_0_l]
    | |- _ => lra
    | |- _ => reflexivity
    end.

(** Two numbers near two exact numbers that are clearly apart compare
    as the exact numbers do. *)
Lemma near_gt (a' a b' b : Q) :
  0 < b -> near a' a -> near b' b ->
  b * (1 + (1 # 2 ^ 46)) <= a -> Js.gt a' b' = true.
Proof.
  intros Hb [A1 _] [_ B2] Hab. unfold Js.gt. apply JsFacts.lt_true.
  set (e := 1 # 2 ^ 48) in *.
  assert (0 < e /\ e < 1 # 4) as [E0 E1] by (split; reflexivity).
  assert ((1 # 2 ^ 46) == 4 * e) as E4 by reflexivity.
  rewrite E4 in Hab.
  assert (0 <= (a - b * (1 + 4 * e)) * (1 - e)) as H1
      by (apply Qmult_le_0_compat; lra).
  assert (0 < b * (e * (2 - 4 * e))) as H2
      by (apply Qmult_lt_0_compat; [lra | apply Qmult_lt_0_compat; lra]).
  assert (b * (1 + e) < a * (1 - e)) by lra.
  lra.
Qed.

Lemma near_le (a' a b' b : Q) :
  0 < a -> near a' a -> near b' b ->
  a * (1 + (1 # 2 ^ 46)) <= b -> Js.gt a' b' = false.
Proof.
  intros Ha [_ A2] [B1 _] Hab. unfold Js.gt. apply JsFacts.lt_false.
  set (e := 1 # 2 ^ 48) in *.
  assert (0 < e /\ e < 1 # 4) as [E0 E1] by (split; reflexivity).
  assert ((1 # 2 ^ 46) == 4 * e) as E4 by reflexivity.
  rewrite E4 in Hab.
  assert (0 <= (b - a * (1 + 4 * e)) * (1 - e)) as H1
      by (apply Qmult_le_0_compat; lra).
  assert (0 < a * (e * (2 - 4 * e))) as H2
      by (apply Qmult_lt_0_compat; [lra | apply Qmult_lt_0_compat; lra]).
  assert (a * (1 + e) < b * (1 - e)) by lra.
  lra.
Qed.

End Binary64Facts.

(** Splits on every [Math.max] and [Math.min] in the goal and in the
    hypotheses. *)
Ltac js_minmax_step a b cases :=
  let H := fresh "Hcase" in
  let E := fresh "Ecase" in
  destruct (cases a b) as [[H E] | [H E]]; rewrite E in *; clear E.

Ltac js_minmax :=
  repeat match goal with
    | |- context [Js.max ?a ?b] => js_minmax_step a b JsFacts.max_cases
    | |- context [Js.min ?a ?b] => js_minmax_step a b JsFacts.min_cases
    | _ : context [Js.max ?a ?b] |- _ => js_minmax_step a b JsFacts.max_cases
    | _ : context [Js.min ?a ?b] |- _ => js_minmax_step a b JsFacts.min_cases
    end.

(** Turns the boolean tests of the source into order facts. *)
Ltac js_tests :=
  repeat match goal with
    | H : _ && _ = true |- _ => apply andb_true_iff in H; destruct H
    | H : Js.ge _ _ = true |- _ => unfold Js.ge in H; apply Qle_bool_iff in H
    | H : Js.le _ _ = true |- _ => unfold Js.le in H; apply Qle_bool_iff in H
    | H : Js.lt _ _ = true |- _ => apply JsFacts.lt_true in H
    | H : Js.lt _ _ = false |- _ => apply JsFacts.lt_false in H
    | H : Js.gt _ _ = true |- _ => unfold Js.gt in H; apply JsFacts.lt_true in H
    | H : Js.gt _ _ = false |- _ => unfold Js.gt in H; apply JsFacts.lt_false in H
    end.

(** Splits a conjunction into its parts, and nothing else. *)
Ltac conjuncts :=
  try unfold Watermark.wellFormed; try unfold PdfTools.fitsKeeping;
  repeat match goal with
    | |- _ /\ _ => split
    end.

(** ** The crop editor *)
Module WatermarkProofs.
Import Watermark.

(** *** The region invariant *)

(** [constrainCropBox] restores the invariant of a region whose origin
    leaves room for the minimum size, whatever its size was. *)
Lemma constrain_wellFormed (c : crop) :
  0 <= x c -> x c + 20 <= canvasWidth c ->
  0 <= y c -> y c + 20 <= canvasHeight c ->
  wellFormed (constrainCropBox c).
Proof.
  intros Hx Hxw Hy Hyh. unfold wellFormed, constrainCropBox. simpl.
  js_minmax; conjuncts; lra.
Qed.

Lemma updateCropBox_crop (w : world) :
  crop_of (st (updateCropBox w)) = crop_of (st w).
Proof. reflexivity. Qed.

Lemma setAspectRatio_wellFormed (r : ratio) (w : world) :
  wellFormed (crop_of (st w)) ->
  wellFormed (crop_of (st (setAspectRatio r w))).
Proof.
  intros (Hx & Hy & Hxw & Hyh & Hw & Hh).
  unfold setAspectRatio. rewrite updateCropBox_crop.
  destruct r as [| a b]; simpl.
  - conjuncts; assumption.
  - destruct (Js.num_gt _ _); apply constrain_wellFormed; simpl; lra.
Qed.

Lemma move_wellFormed (clientX clientY : Q) (w : world) :
  wellFormed (crop_of (st w)) ->
  wellFormed (crop_of (st (handleCropMouseMove clientX clientY w))).
Proof.
  intros (Hx & Hy & Hxw & Hyh & Hw & Hh).
  unfold handleCropMouseMove.
  destruct (isDragging (crop_of (st w))); simpl;
    [| conjuncts; assumption].
  destruct (dragType (crop_of (st w))) as [kind |];
    [| conjuncts; assumption].
  rewrite updateCropBox_crop. simpl.
  destruct (String.eqb kind "move").
  - unfold wellFormed. simpl. js_minmax; conjuncts; lra.
  - destruct (candidate _ kind _ _) as [[[newX newY] newW] newH].
    destruct (acceptsX _ newX newW) eqn:EX;
      [unfold acceptsX in EX |];
      (destruct (acceptsY _ newY newH) eqn:EY;
       [unfold acceptsY in EY |]);
      simpl in *; js_tests; unfold wellFormed; simpl;
      conjuncts; lra.
Qed.

Section Machine.

Variable measureText : font -> list N -> Q.
Variable sqrt : Q -> Q.

Lemma applyCrop_crop (w : world) :
  let c := crop_of (st w) in
  let c' := crop_of (st (snd (applyCrop measureText sqrt w))) in
  x c' = x c /\ y c' = y c /\ width c' = width c /\
  height c' = height c /\ canvasWidth c' = canvasWidth c /\
  canvasHeight c' = canvasHeight c.
Proof.
  unfold applyCrop. cbv zeta.
  destruct (_ || _); [simpl; tauto |].
  destruct (originalImage (st w)) as [img |]; [| simpl; tauto].
  destruct (Js.div (x (crop_of (st w))) _); try (simpl; tauto).
  destruct (Js.div (y (crop_of (st w))) _); try (simpl; tauto).
  destruct (Js.div (width (crop_of (st w))) _); try (simpl; tauto).
  destruct (Js.div (height (crop_of (st w))) _); try (simpl; tauto).
  destruct (renderPreview _ _ _ _); simpl; tauto.
Qed.

(** Every handler other than an opening keeps the invariant. *)
Lemma handle_wellFormed (e : event) (w : world) :
  opens e = false ->
  wellFormed (crop_of (st w)) ->
  wellFormed (crop_of (st (handle measureText sqrt e w))).
Proof.
  intros He Hw. destruct e; simpl in *; try discriminate.
  - exact Hw.
  - apply setAspectRatio_wellFormed, Hw.
  - destruct t; exact Hw.
  - apply move_wellFormed, Hw.
  - exact Hw.
  - destruct (applyCrop_crop w) as (Ex & Ey & Ew & Eh & Ecw & Ech).
    unfold wellFormed. rewrite Ex, Ey, Ew, Eh, Ecw, Ech. exact Hw.
Qed.

(** An opening on roomy bounds seeds a region inside them. *)
Lemma open_wellFormed (win : window) (w : world) :
  roomy (crop_of (st (openCropModal win w))) ->
  wellFormed (crop_of (st w)) \/ originalImage (st w) <> None ->
  wellFormed (crop_of (st (openCropModal win w))).
Proof.
  unfold openCropModal. destruct (originalImage (st w)) as [img |].
  - intros [Hcw Hch] _. simpl in *.
    set (cw := _ * _) in *. clearbody cw.
    set (ch := _ * _) in *. clearbody ch.
    rewrite !JsFacts.trunc_nonneg by lra.
    pose proof (Qfloor_le cw) as Fw. pose proof (Qfloor_le ch) as Fh.
    pose proof (JsFacts.floor_ge cw 60 Hcw) as Gw.
    pose proof (JsFacts.floor_ge ch 60 Hch) as Gh.
    assert (60 <= inject_Z (Qfloor cw)) as Iw
        by (rewrite Zle_Qle in Gw; exact Gw).
    assert (60 <= inject_Z (Qfloor ch)) as Ih
        by (rewrite Zle_Qle in Gh; exact Gh).
    unfold wellFormed. simpl. conjuncts; lra.
  - intros _ [H | H]; [exact H | congruence].
Qed.

(** Handlers other than an opening keep a session going. *)
Lemma session_run (es : list event) (w : world) :
  forallb (fun e => negb (opens e)) es = true ->
  inSession measureText sqrt w ->
  inSession measureText sqrt (run measureText sqrt es w).
Proof.
  revert w. induction es as [| e rest IH]; intros w Hes Hs; [exact Hs |].
  simpl in Hes. apply andb_true_iff in Hes as [He Hrest].
  apply negb_true_iff in He.
  change (run measureText sqrt (e :: rest) w)
    with (run measureText sqrt rest (handle measureText sqrt e w)).
  apply IH; [exact Hrest |].
  apply session_handled; [exact Hs | congruence].
Qed.

(** C1, as the code has it: in every world of a crop session whose
    openings all found bounds of at least 60 by 60 display units, the
    region lies inside the bounds and is at least 20 by 20. *)
Theorem region_wellFormed_in_session (w : world) :
  inSession measureText sqrt w -> wellFormed (crop_of (st w)).
Proof.
  induction 1 as [win w img Himg Hroomy | e w Hs IH Hroomy].
  - apply open_wellFormed; [exact Hroomy | right; congruence].
  - destruct (opens e) eqn:He.
    + destruct e; try discriminate. simpl in *.
      apply open_wellFormed; [apply Hroomy; reflexivity | left; exact IH].
    + apply handle_wellFormed; assumption.
Qed.

End Machine.

Lemma region_wellFormed_in_session_witness :
  wellFormed
    (crop_of (st (handle sampleMeasure sampleSqrt (MouseMove 530 340)
                    (handle sampleMeasure sampleSqrt
                       (MouseDown (Handle "se") 500 300) sampleSession)))).
Proof.
  apply (region_wellFormed_in_session sampleMeasure sampleSqrt).
  apply session_handled; [| discriminate].
  apply session_handled; [| discriminate].
  apply (session_opened _ _ _ _ (Decoded 4000 3000)); [reflexivity |].
  split; apply Qle_bool_iff; vm_compute; reflexivity.
Defined.

(** C1 as stated fails: on a 30 by 30 image the dialog opens with a
    region of width and height [-10]. *)
Lemma seeded_region_below_minimum :
  let c := crop_of (st (openCropModal (mkWindow 1000 800)
                          (loaded (Decoded 30 30)))) in
  width c == -10 /\ height c == -10 /\ ~ wellFormed c.
Proof.
  cbv zeta. split; [| split]; [reflexivity | reflexivity |].
  intros (_ & _ & _ & _ & Hw & _).
  apply Qle_bool_iff in Hw. vm_compute in Hw. discriminate.
Qed.

(** The gate for such a region: the Apply button is disabled. *)
Lemma small_image_disables_apply :
  applyCropDisabled
    (el (openCropModal (mkWindow 1000 800) (loaded (Decoded 30 30)))) = true.
Proof. vm_compute. reflexivity. Qed.

(** *** Translation *)

(** The clamping idiom of the source agrees with [clamp] on a range
    that is not empty. *)
Lemma max_min_is_clamp (v hi : Q) :
  0 <= hi -> Js.max 0 (Js.min v hi) = clamp v 0 hi.
Proof.
  intro Hhi. unfold clamp.
  destruct (Js.lt v 0) eqn:E1; js_tests.
  - js_minmax; try reflexivity; lra.
  - destruct (Js.lt hi v) eqn:E2; js_tests;
      js_minmax; try reflexivity; lra.
Qed.

(** C6: a translate update puts the origin at the clamp of the snapshot
    origin plus the pointer delta, and keeps the size. *)
Theorem translate_clamps_origin (clientX clientY : Q) (w : world) :
  let c := crop_of (st w) in
  isDragging c = true ->
  dragType c = Some "move" ->
  width c <= canvasWidth c ->
  height c <= canvasHeight c ->
  let c' := crop_of (st (handleCropMouseMove clientX clientY w)) in
  x c' = clamp (startX c + (clientX - startMouseX c)) 0
           (canvasWidth c - width c) /\
  y c' = clamp (startY c + (clientY - startMouseY c)) 0
           (canvasHeight c - height c) /\
  width c' = width c /\ height c' = height c.
Proof.
  intros c Hdrag Hmove Hw Hh. subst c.
  unfold handleCropMouseMove. rewrite Hdrag, Hmove. simpl.
  rewrite !max_min_is_clamp by lra. conjuncts; reflexivity.
Qed.

Lemma translate_clamps_origin_witness :
  let w := handleCropMouseDown CropBox 100 100 sampleSession in
  let c' := crop_of (st (handleCropMouseMove 130 60 w)) in
  x c' = clamp (20 + (130 - 100)) 0 ((224000000 # 280000) - 760) /\
  y c' = clamp (20 + (60 - 100)) 0 ((168000000 # 280000) - 560) /\
  width c' = 760 /\ height c' = 560.
Proof.
  apply (translate_clamps_origin 130 60
           (handleCropMouseDown CropBox 100 100 sampleSession)).
  - reflexivity.
  - reflexivity.
  - apply Qle_bool_iff. vm_compute. reflexivity.
  - apply Qle_bool_iff. vm_compute. reflexivity.
Defined.

(** *** Resizing under an aspect ratio *)

Lemma truthy_positive (r : Q) : 0 < r -> truthy (Some r) = Some r.
Proof.
  intro H. unfold truthy. destruct (Qeq_bool r 0) eqn:E; [| reflexivity].
  apply Qeq_bool_eq in E. lra.
Qed.

(** Under a ratio [r], the candidate of every handle has
    [newW == newH * r]. *)
Lemma candidate_ratio (c : crop) (kind : string) (dx dy r : Q)
  (newX newY newW newH : Q) :
  aspectRatio c = Some r -> 0 < r ->
  candidate c kind dx dy = (newX, newY, newW, newH) ->
  newW == newH * r.
Proof.
  intros Hr Hpos. unfold candidate. rewrite Hr, (truthy_positive r Hpos).
  destruct (Js.includes "e" kind), (Js.includes "w" kind),
    (Js.includes "s" kind), (Js.includes "n" kind),
    (String.eqb kind "e" || String.eqb kind "w"),
    (String.eqb kind "n" || String.eqb kind "s");
    cbv beta iota zeta;
    try (destruct (Js.num_gt _ r));
    intro H; inversion H; subst; clear H;
    try reflexivity; field; lra.
Qed.

(** C2, as the code has it: a resize update whose candidate passes the
    acceptance test on both axes leaves [width / height == r]. *)
Theorem resize_accepted_on_both_axes_keeps_ratio
  (clientX clientY : Q) (w : world) (kind : string) (r : Q)
  (newX newY newW newH : Q) :
  let c := crop_of (st w) in
  isDragging c = true ->
  dragType c = Some kind ->
  kind <> "move" ->
  aspectRatio c = Some r ->
  0 < r ->
  candidate c kind (clientX - startMouseX c) (clientY - startMouseY c)
    = (newX, newY, newW, newH) ->
  acceptsX c newX newW = true ->
  acceptsY c newY newH = true ->
  let c' := crop_of (st (handleCropMouseMove clientX clientY w)) in
  aspectRatio c' = Some r /\ width c' / height c' == r.
Proof.
  intros c Hdrag Hkind Hmove Hr Hpos Hcand HX HY. subst c.
  pose proof (candidate_ratio _ _ _ _ _ _ _ _ _ Hr Hpos Hcand) as Hratio.
  unfold handleCropMouseMove. rewrite Hdrag, Hkind.
  cbn [negb]. cbv beta iota zeta.
  apply String.eqb_neq in Hmove. rewrite Hmove, Hcand, HX.
  rewrite updateCropBox_crop.
  unfold acceptsY in *. cbn [canvasHeight set_width set_x] in *.
  rewrite HY. cbn [crop_of st with_crop aspectRatio width height
                     set_height set_y set_width set_x].
  split; [exact Hr |].
  js_tests. rewrite Hratio. field. lra.
Qed.

Lemma resize_accepted_on_both_axes_keeps_ratio_witness :
  let c' := crop_of (st (handleCropMouseMove 480 300 sampleResize)) in
  aspectRatio c' = Some 1 /\ width c' / height c' == 1.
Proof.
  apply (resize_accepted_on_both_axes_keeps_ratio 480 300 sampleResize
           "e" 1 20 20 540 (540 / 1)).
  - reflexivity.
  - reflexivity.
  - discriminate.
  - reflexivity.
  - apply JsFacts.lt_true. vm_compute. reflexivity.
  - vm_compute. reflexivity.
  - vm_compute. reflexivity.
  - vm_compute. reflexivity.
Defined.

(** C2 as stated fails: pulling the east handle 100 units outwards is
    accepted on the horizontal axis and refused on the vertical one; the
    region becomes 660 by 560 under the ratio 1. *)
Lemma resize_accepted_on_one_axis_breaks_ratio :
  let c' := crop_of (st (handleCropMouseMove 600 300 sampleResize)) in
  aspectRatio c' = Some 1 /\ width c' = 660 /\ height c' = 560 /\
  ~ width c' / height c' == 1.
Proof.
  vm_compute. conjuncts; try reflexivity. discriminate.
Qed.

(** *** Committing the crop *)

Section Committing.

Variable measureText : font -> list N -> Q.
Variable sqrt : Q -> Q.




End Committing.



(** *** Opening a session *)

Lemma div_nonneg (a b : Q) : 0 <= a -> 0 < b -> 0 <= a / b.
Proof.
  intros Ha Hb. apply Qle_shift_div_l; [exact Hb | lra].
Qed.

(** *** Choosing an aspect ratio *)

(** After [setAspectRatio] a region that was inside the bounds is
    inside them again: the re-clamp is effective. *)
Lemma setAspectRatio_stays_in_bounds (r : ratio) (w : world) :
  wellFormed (crop_of (st w)) ->
  let c' := crop_of (st (setAspectRatio r w)) in
  0 <= x c' /\ x c' + width c' <= canvasWidth c' /\
  0 <= y c' /\ y c' + height c' <= canvasHeight c'.
Proof.
  intro H. destruct (setAspectRatio_wellFormed r w H)
    as (Hx & Hy & Hxw & Hyh & _ & _).
  conjuncts; assumption.
Qed.

(** *** Rendering the watermark *)

Section Blank.

Variable measureText : font -> list N -> Q.
Variable sqrt : Q -> Q.

(** C9: with a text that is empty or all white space,
    [applyWatermark] hands the context back untouched, and the
    preview canvas holds the image alone under the default drawing
    state. *)
Theorem blank_text_renders_bare_image (s : state) :
  forallb Js.isWhiteSpace (text (settings_of s)) = true ->
  (forall (c : context) (wd ht : Q),
      applyWatermark measureText sqrt (settings_of s) c wd ht = Some c) /\
  (forall (img : image) (preview : canvas),
      originalImage s = Some img ->
      renderPreview measureText sqrt s preview
        = Some (mkCanvas (Z.pos (imgWidth img)) (Z.pos (imgHeight img))
                  (mkContext defaultDrawState []
                     [DrawImage img 0 0]))).
Proof.
  intro Hblank.
  assert (forall c wd ht,
             applyWatermark measureText sqrt (settings_of s) c wd ht
             = Some c) as Hnoop.
  { intros c wd ht. unfold applyWatermark.
    rewrite (JsFacts.trim_white _ Hblank). reflexivity. }
  split; [exact Hnoop |].
  intros img preview Himg. unfold renderPreview.
  rewrite Himg, Hnoop. reflexivity.
Qed.

End Blank.

Lemma blank_text_renders_bare_image_witness :
  renderPreview sampleMeasure sampleSqrt sampleBlank (resized 300 150)
    = Some (mkCanvas 640 480
              (mkContext defaultDrawState []
                 [DrawImage (Decoded 640 480) 0 0])).
Proof.
  exact (proj2 (blank_text_renders_bare_image sampleMeasure sampleSqrt
                  sampleBlank eq_refl)
           (Decoded 640 480) (resized 300 150) eq_refl).
Defined.

(** *** Anchor lookup *)

(** The name [constructor] is found on the prototype of the object
    literal, so the fallback to the center is not taken and no point
    comes back. *)
Lemma getPosition_constructor_is_inherited (width height fontSize : Q) :
  getPosition "constructor" width height fontSize = Inherited "constructor".
Proof. vm_compute. reflexivity. Qed.






End WatermarkProofs.

(** ** Opening the crop dialog *)
Module CropOpeningProofs.
Import Watermark CropOpening Binary64Facts.

(** Over exact products and quotients [openCropModalWith] is the opening
    of the crop session of module [Watermark]. *)
Lemma exact_arithmetic (win : window) (w : world) :
  openCropModalWith Qmult Qdiv 0.7 win w = Watermark.openCropModal win w.
Proof. reflexivity. Qed.

(** C4, as the code has it: the scale never upscales, the bounds are the
    natural size times the scale, rounded once, and the region is seeded
    20 units inside the crop canvas, whose size is the whole-number part
    of the bounds.  On the 4000 by 3000 image under a viewport maximum
    of 800 by 600 this gives the double nearest to 0.2 as the scale,
    bounds of 800 by 600 and the region (20, 20, 760, 560), and so does
    a window of 1143 by 1200; in a 1536 by 864 window the height of the
    bounds is the double just below 432 and the region is 391 high. *)
Theorem openCropModal_seeds_region :
  (forall (win : window) (w : world) (img : image),
      originalImage (st w) = Some img ->
      0 <= innerWidth win -> 0 <= innerHeight win ->
      let maxW := Binary64.mul (innerWidth win) (Binary64.round 0.7) in
      let maxH := Binary64.mul (innerHeight win) 0.5 in
      let naturalWidth := inject_Z (Z.pos (imgWidth img)) in
      let naturalHeight := inject_Z (Z.pos (imgHeight img)) in
      let w' := openCropModal win w in
      let c := crop_of (st w') in
      scale c
      = Js.min (Js.min (Binary64.div maxW naturalWidth)
                  (Binary64.div maxH naturalHeight)) 1 /\
      0 <= scale c /\ scale c <= 1 /\
      canvasWidth c = Binary64.mul naturalWidth (scale c) /\
      canvasHeight c = Binary64.mul naturalHeight (scale c) /\
      Binary64.within 1 (canvasWidth c) (naturalWidth * scale c) /\
      Binary64.within 1 (canvasHeight c) (naturalHeight * scale c) /\
      cropCanvas (el w') = (Qfloor (canvasWidth c), Qfloor (canvasHeight c)) /\
      x c = 20 /\ y c = 20 /\
      width c == inject_Z (Qfloor (canvasWidth c)) - 40 /\
      height c == inject_Z (Qfloor (canvasHeight c)) - 40 /\
      aspectRatio c = None) /\
  (let c := crop_of (st sampleOpening) in
   scale c == Binary64.round 0.2 /\ Binary64.within 1 (scale c) 0.2 /\
   canvasWidth c == 800 /\ canvasHeight c == 600 /\
   x c == 20 /\ y c == 20 /\ width c == 760 /\ height c == 560 /\
   aspectRatio c = None) /\
  (let c := crop_of (st sampleDesktop) in
   scale c == Binary64.round 0.2 /\
   canvasWidth c == 800 /\ canvasHeight c == 600 /\
   x c == 20 /\ y c == 20 /\ width c == 760 /\ height c == 560 /\
   aspectRatio c = None) /\
  (let c := crop_of (st sampleLaptop) in
   scale c == Binary64.round 0.144 /\
   canvasWidth c == 576 /\
   canvasHeight c < 432 /\ 432 - (1 # 10 ^ 12) < canvasHeight c /\
   width c == 536 /\ height c == 391).
Proof.
  split; [| split; [| split]].
  - intros win w img Himg HW HH maxW maxH naturalWidth naturalHeight w' c.
    subst c w'. unfold openCropModal, openCropModalWith. rewrite Himg.
    cbn [crop_of st el with_crop with_el updateCropBox set_canvas set_x
           set_y set_width set_height set_aspectRatio set_cropCanvas
           set_activeRatio set_cropModalHidden set_applyCropDisabled
           cropCanvas scale canvasWidth canvasHeight x y width height
           aspectRatio].
    fold maxW maxH naturalWidth naturalHeight.
    set (s := Js.min (Js.min (Binary64.div maxW naturalWidth)
                        (Binary64.div maxH naturalHeight)) 1).
    pose proof (JsFacts.inject_pos (imgWidth img)) as Pw.
    pose proof (JsFacts.inject_pos (imgHeight img)) as Ph.
    fold naturalWidth in Pw. fold naturalHeight in Ph.
    assert (0 <= Binary64.round 0.7) as H07
        by (apply Qle_bool_iff; vm_compute; reflexivity).
    assert (0 <= maxW) as Mw
        by (apply round_nonneg, Qmult_le_0_compat; assumption).
    assert (0 <= maxH) as Mh
        by (apply round_nonneg, Qmult_le_0_compat; [exact HH | lra]).
    assert (0 <= Binary64.div maxW naturalWidth) as Dw
        by (apply round_nonneg, Qle_shift_div_l; lra).
    assert (0 <= Binary64.div maxH naturalHeight) as Dh
        by (apply round_nonneg, Qle_shift_div_l; lra).
    assert (0 <= s /\ s <= 1) as [Hs0 Hs1]
        by (unfold s; js_minmax; split; lra).
    assert (0 <= naturalWidth * s) as Cw by nra.
    assert (0 <= naturalHeight * s) as Ch by nra.
    assert (0 <= Binary64.mul naturalWidth s) as Rw
        by (apply round_nonneg, Cw).
    assert (0 <= Binary64.mul naturalHeight s) as Rh
        by (apply round_nonneg, Ch).
    rewrite !JsFacts.trunc_nonneg by assumption.
    conjuncts; try reflexivity; try assumption.
    + apply within_round; [exact Cw | apply within_refl].
    + apply within_round; [exact Ch | apply within_refl].
  - cbv zeta. conjuncts;
      try (vm_compute; reflexivity);
      try (apply Qle_bool_iff; vm_compute; reflexivity).
    unfold Binary64.within. split; apply Qle_bool_iff; vm_compute; reflexivity.
  - cbv zeta. conjuncts; vm_compute; reflexivity.
  - cbv zeta. conjuncts;
      try (vm_compute; reflexivity);
      try (apply JsFacts.lt_true; vm_compute; reflexivity).
Qed.

Lemma openCropModal_seeds_region_witness :
  let maxW := Binary64.mul 1000 (Binary64.round 0.7) in
  let maxH := Binary64.mul 800 0.5 in
  let w' := openCropModal (mkWindow 1000 800) (loaded (Decoded 1000 700)) in
  let c := crop_of (st w') in
  scale c
  = Js.min (Js.min (Binary64.div maxW 1000) (Binary64.div maxH 700)) 1 /\
  0 <= scale c /\ scale c <= 1 /\
  canvasWidth c = Binary64.mul 1000 (scale c) /\
  canvasHeight c = Binary64.mul 700 (scale c) /\
  Binary64.within 1 (canvasWidth c) (1000 * scale c) /\
  Binary64.within 1 (canvasHeight c) (700 * scale c) /\
  cropCanvas (el w') = (Qfloor (canvasWidth c), Qfloor (canvasHeight c)) /\
  x c = 20 /\ y c = 20 /\
  width c == inject_Z (Qfloor (canvasWidth c)) - 40 /\
  height c == inject_Z (Qfloor (canvasHeight c)) - 40 /\
  aspectRatio c = None.
Proof.
  apply (proj1 openCropModal_seeds_region (mkWindow 1000 800)
           (loaded (Decoded 1000 700)) (Decoded 1000 700)).
  - reflexivity.
  - apply Qle_bool_iff. vm_compute. reflexivity.
  - apply Qle_bool_iff. vm_compute. reflexivity.
Defined.

(** C4 as stated fails: on a 1000 by 700 image in a 1000 by 800 window
    the bounds are 571.4285714285714 wide and the seeded width is 531,
    not the width of the bounds less 40. *)
Lemma seeded_width_is_not_bounds_less_padding :
  let c := crop_of (st sampleFraction) in
  571 < canvasWidth c /\ canvasWidth c < 572 /\ width c == 531 /\
  ~ width c == canvasWidth c - 40.
Proof.
  cbv zeta. conjuncts.
  - apply JsFacts.lt_true. vm_compute. reflexivity.
  - apply JsFacts.lt_true. vm_compute. reflexivity.
  - vm_compute. reflexivity.
  - vm_compute. discriminate.
Qed.

End CropOpeningProofs.

(** ** The PDF tools *)
Module PdfToolsProofs.
Import PdfTools.

(** *** Compression results *)

Lemma toFixed0_negative (v : Q) : v < 0 -> (Js.toFixed0 v <= 0)%Z.
Proof.
  intro H. unfold Js.toFixed0.
  apply JsFacts.lt_true in H. rewrite H. apply JsFacts.lt_true in H.
  assert (0 <= Qfloor (- v + (1 # 2)))%Z; [| lia].
  apply JsFacts.floor_ge. change (inject_Z 0) with 0. lra.
Qed.

(** A compressed size above the original never counts as a saving. *)
Lemma savings_of_larger_output (originalSize compressedSize : N) :
  (originalSize < compressedSize)%N ->
  match savings originalSize compressedSize with
  | Some n => (n <= 0)%Z
  | None => True
  end.
Proof.
  intro Hlt. unfold savings.
  destruct (Js.div _ _) as [q | | |] eqn:E; try exact I.
  unfold Js.div in E.
  destruct (Qeq_bool (inject_Z (Z.of_N originalSize)) 0) eqn:Ez.
  - destruct (Js.lt 0 _); [discriminate |].
    destruct (Js.lt _ 0); discriminate.
  - injection E as <-. apply Qeq_bool_neq in Ez.
    apply toFixed0_negative.
    assert (0 <= inject_Z (Z.of_N originalSize)) as H0
        by (unfold Qle; simpl; lia).
    assert (inject_Z (Z.of_N originalSize) < inject_Z (Z.of_N compressedSize))
      as H1 by (rewrite <- Zlt_Qlt; lia).
    set (o := inject_Z (Z.of_N originalSize)) in *.
    set (c := inject_Z (Z.of_N compressedSize)) in *.
    assert (0 < o) as Ho by lra.
    assert (1 < c / o) as Hq by (apply Qlt_shift_div_l; lra).
    lra.
Qed.

(** C7: a run whose output is larger than the input ends in the results
    view: the blob is kept, both sizes are shown, the badge says
    "larger", the tip is shown, and nothing of the error path happens
    (no alert, the file is kept, the drop zone stays as it was). *)
Theorem larger_output_is_a_result_not_an_error
  (w : world) (f : file) (bytes : N) :
  file_of (st w) = Some f ->
  originalSize (st w) = size f ->
  isProcessing (st w) = false ->
  (size f < bytes)%N ->
  let w' := compressPDF (Produced bytes) w in
  compressedBlob (st w') = Some bytes /\
  compressedSize (st w') = bytes /\
  file_of (st w') = Some f /\
  originalSize (st w') = size f /\
  isProcessing (st w') = false /\
  resultsSectionHidden (compress w') = false /\
  progressSectionHidden (compress w') = true /\
  originalSizeLabel (compress w') = size f /\
  compressedSizeLabel (compress w') = bytes /\
  (exists percent, savingsBadge (compress w') = Some (Larger percent)) /\
  resultTip (compress w')
    = Some (if String.eqb (compressionMode (compress w)) "lossy"
            then TipTryLossless else TipTryLossy) /\
  alerts w' = alerts w /\
  dropZoneHidden (compress w') = dropZoneHidden (compress w) /\
  fileInfoHidden (compress w') = fileInfoHidden (compress w).
Proof.
  intros Hfile Hsize Hidle Hlarger w'. subst w'.
  rewrite <- Hsize in *.
  unfold compressPDF. rewrite Hfile, Hidle. cbv zeta.
  unfold showResults. cbn [st compress originalSize compressedSize
                             compressionMode].
  pose proof (savings_of_larger_output _ _ Hlarger) as Hs.
  destruct (savings (originalSize (st w)) bytes) as [n |].
  - assert ((0 <? n)%Z = false) as E by (apply Z.ltb_ge; exact Hs).
    rewrite E. cbn. conjuncts; try reflexivity. eexists. reflexivity.
  - cbn. conjuncts; try reflexivity. eexists. reflexivity.
Qed.

Lemma larger_output_is_a_result_not_an_error_witness :
  let w := handleFileSelect (Some samplePdf) sampleStart in
  let w' := compressPDF (Produced 1200) w in
  compressedBlob (st w') = Some 1200%N /\
  compressedSize (st w') = 1200%N /\
  file_of (st w') = Some samplePdf /\
  originalSize (st w') = size samplePdf /\
  isProcessing (st w') = false /\
  resultsSectionHidden (compress w') = false /\
  progressSectionHidden (compress w') = true /\
  originalSizeLabel (compress w') = size samplePdf /\
  compressedSizeLabel (compress w') = 1200%N /\
  (exists percent, savingsBadge (compress w') = Some (Larger percent)) /\
  resultTip (compress w')
    = Some (if String.eqb (compressionMode (compress w)) "lossy"
            then TipTryLossless else TipTryLossy) /\
  alerts w' = alerts w /\
  dropZoneHidden (compress w') = dropZoneHidden (compress w) /\
  fileInfoHidden (compress w') = fileInfoHidden (compress w).
Proof.
  apply (larger_output_is_a_result_not_an_error
           (handleFileSelect (Some samplePdf) sampleStart) samplePdf 1200).
  - reflexivity.
  - reflexivity.
  - reflexivity.
  - vm_compute. reflexivity.
Defined.

(** The badge of the sample run reads "20% larger". *)
Example sample_badge :
  savingsBadge
    (compress (compressPDF (Produced 1200)
                 (handleFileSelect (Some samplePdf) sampleStart)))
  = Some (Larger (Some 20%Z)).
Proof. vm_compute. reflexivity. Qed.

(** A compressor that throws takes the error path instead. *)
Example failed_run_alerts_and_removes :
  let w' := compressPDF Failed
              (handleFileSelect (Some samplePdf) sampleStart) in
  file_of (st w') = None /\ compressedBlob (st w') = None /\
  alerts w'
    = ["An error occurred while compressing the PDF. Please try again."].
Proof. vm_compute. conjuncts; reflexivity. Qed.

(** *** Page geometry *)

Lemma pageSizes_named (name : string) (pw ph : Q) :
  In (name, (pw, ph)) namedSizes ->
  String.eqb name "fit" = false /\ pageSizes !! name = Some (pw, ph) /\
  20 < pw /\ 20 < ph.
Proof.
  unfold namedSizes. simpl.
  intros [H | [H | [H | []]]]; injection H as <- <- <-;
    (split; [reflexivity |]); (split; [reflexivity |]);
    split; apply JsFacts.lt_true; reflexivity.
Qed.

(** The scaling step of the margin branch: the size chosen for an image
    of [w] by [h] pixels in a box of [bw] by [bh] fits the box, keeps
    the aspect ratio, and no size that does both is larger. *)
Lemma scaled_to_box (w h bw bh : Q) :
  0 < w -> 0 < h -> 0 < bw -> 0 < bh ->
  let imgRatio := w / h in
  let availRatio := bw / bh in
  let size := if Js.gt imgRatio availRatio
              then (bw, bw / imgRatio)
              else (bh * imgRatio, bh) in
  fitsKeeping w h bw bh (fst size) (snd size) /\
  (forall fw fh, fitsKeeping w h bw bh fw fh ->
                 fw <= fst size /\ fh <= snd size).
Proof.
  intros Hw Hh Hbw Hbh imgRatio availRatio size.
  assert (imgRatio * h == w) as Ei by (unfold imgRatio; field; lra).
  assert (availRatio * bh == bw) as Ea by (unfold availRatio; field; lra).
  assert (0 < imgRatio) as Pi
      by (unfold imgRatio; apply Qlt_shift_div_l; lra).
  subst size. destruct (Js.gt imgRatio availRatio) eqn:E; js_tests;
    cbn [fst snd].
  - assert (bw / imgRatio * imgRatio == bw) as Ef by (field; lra).
    set (fh0 := bw / imgRatio) in *.
    assert (fh0 * w == bw * h) as Ek by nra.
    assert (fh0 <= bh) as Hfit by nra.
    split.
    + unfold fitsKeeping. conjuncts; [lra | exact Hfit | lra].
    + intros fw fh (Hfw & Hfh & Hkeep). split; [exact Hfw | nra].
  - set (fw0 := bh * imgRatio) in *.
    assert (fw0 * h == bh * w) as Ek by (unfold fw0; nra).
    assert (fw0 <= bw) as Hfit by (unfold fw0; nra).
    split.
    + unfold fitsKeeping. conjuncts; [exact Hfit | lra | exact Ek].
    + intros fw fh (Hfw & Hfh & Hkeep). split; [nra | exact Hfh].
Qed.

(** The body of the loop: in "fit" mode the page is the image at
    96 DPI in millimetres and the image fills it from (0, 0); under a
    named size the page has that size, and the image takes the largest
    size that fits the page less 10 mm on each side and keeps its aspect
    ratio, centered in that box on both axes; for A4 the box is 190 by
    277 mm. *)
Lemma processImage_geometry (quality : Q) (img : imageEntry) (w h : positive) :
  decoded img = Some (w, h) ->
  let imgW := inject_Z (Z.pos w) in
  let imgH := inject_Z (Z.pos h) in
  (exists p, processImage "fit" quality img = Some p /\
             pageWidth p = (imgW / 96) * 25.4 /\
             pageHeight p = (imgH / 96) * 25.4 /\
             imgX p = 0 /\ imgY p = 0 /\
             imgFinalWidth p = pageWidth p /\
             imgFinalHeight p = pageHeight p) /\
  (forall name pw ph,
      In (name, (pw, ph)) namedSizes ->
      exists p, processImage name quality img = Some p /\
                pageWidth p = pw /\ pageHeight p = ph /\
                fitsKeeping imgW imgH (pw - 20) (ph - 20)
                  (imgFinalWidth p) (imgFinalHeight p) /\
                (forall fw fh,
                    fitsKeeping imgW imgH (pw - 20) (ph - 20) fw fh ->
                    fw <= imgFinalWidth p /\ fh <= imgFinalHeight p) /\
                imgX p - 10 == (pw - 10) - (imgX p + imgFinalWidth p) /\
                imgY p - 10 == (ph - 10) - (imgY p + imgFinalHeight p) /\
                10 <= imgX p /\ 10 <= imgY p) /\
  (exists pw ph, In ("a4", (pw, ph)) namedSizes /\
                 pw == 210 /\ ph == 297 /\
                 pw - 20 == 190 /\ ph - 20 == 277).
Proof.
  intros Hdec imgW imgH. split; [| split].
  - unfold processImage. rewrite Hdec. cbn. eexists. conjuncts; reflexivity.
  - intros name pw ph Hin.
    destruct (pageSizes_named name pw ph Hin) as (Hfit & Hsize & Hpw & Hph).
    pose proof (JsFacts.inject_pos w) as Pw.
    pose proof (JsFacts.inject_pos h) as Ph.
    fold imgW in Pw. fold imgH in Ph.
    unfold processImage. rewrite Hdec. fold imgW imgH.
    unfold geometry. rewrite Hfit, Hsize. cbv zeta.
    assert (0 < pw - 10 * 2) as Bw by lra.
    assert (0 < ph - 10 * 2) as Bh by lra.
    destruct (scaled_to_box imgW imgH (pw - 10 * 2) (ph - 10 * 2)
                Pw Ph Bw Bh) as [Hkeep Hmax].
    cbv zeta in Hkeep, Hmax.
    destruct (if Js.gt (imgW / imgH) ((pw - 10 * 2) / (ph - 10 * 2))
              then (pw - 10 * 2, (pw - 10 * 2) / (imgW / imgH))
              else ((ph - 10 * 2) * (imgW / imgH), ph - 10 * 2))
      as [fw fh].
    cbn [fst snd] in Hkeep, Hmax.
    eexists. split; [reflexivity |].
    cbn [pageWidth pageHeight imgX imgY imgFinalWidth imgFinalHeight].
    destruct Hkeep as (Kw & Kh & Kr).
    assert (forall a b, fitsKeeping imgW imgH (pw - 20) (ph - 20) a b ->
                        fitsKeeping imgW imgH (pw - 10 * 2) (ph - 10 * 2) a b)
      as Hbox.
    { intros a b (A1 & A2 & A3). unfold fitsKeeping.
      conjuncts; [lra | lra | exact A3]. }
    assert (forall a, 0 <= a -> 0 <= a / 2) as Hhalf
        by (intros a Ha; apply Qle_shift_div_l; lra).
    pose proof (Hhalf (pw - 10 * 2 - fw)) as Hx.
    pose proof (Hhalf (ph - 10 * 2 - fh)) as Hy.
    conjuncts; try reflexivity; try lra.
    + intros a b Hab. apply Hmax, Hbox, Hab.
    + field.
    + field.
  - exists 210, 297. conjuncts; try reflexivity. left. reflexivity.
Qed.

(** The same photo on A4: 190 mm wide, 142.5 mm high, 10 mm from the
    left edge and 77.25 mm from the top. *)
Example sample_a4_page :
  exists p, processImage "a4" (85 / 100) samplePhoto = Some p /\
            pageWidth p == 210 /\ pageHeight p == 297 /\
            imgFinalWidth p == 190 /\ imgFinalHeight p == 142.5 /\
            imgX p == 10 /\ imgY p == 77.25.
Proof. eexists. split; [vm_compute; reflexivity |]. conjuncts; reflexivity. Qed.

(** The document holds one page per image, in list order. *)
Lemma assemble_pages (pageSize : string) (quality : Q)
  (imgs : list imageEntry) (pages : list page) :
  assemble pageSize quality imgs = Some pages ->
  Forall2 (fun img p => processImage pageSize quality img = Some p)
    imgs pages.
Proof.
  revert pages. induction imgs as [| img rest IH]; intros pages H.
  - injection H as <-. constructor.
  - simpl in H.
    destruct (processImage pageSize quality img) as [p |] eqn:Ep;
      [| discriminate].
    destruct (assemble pageSize quality rest) as [ps |]; [| discriminate].
    injection H as <-. constructor; [exact Ep | apply IH; reflexivity].
Qed.

(** One image that throws leaves no document behind. *)
Lemma assemble_aborts (pageSize : string) (quality : Q)
  (imgs : list imageEntry) (img : imageEntry) :
  In img imgs ->
  processImage pageSize quality img = None ->
  assemble pageSize quality imgs = None.
Proof.
  induction imgs as [| first rest IH]; intros Hin Hnone; [destruct Hin |].
  simpl. destruct Hin as [-> | Hin].
  - rewrite Hnone. reflexivity.
  - destruct (processImage pageSize quality first); [| reflexivity].
    rewrite (IH Hin Hnone). reflexivity.
Qed.

(** A run of [createPdfFromImages] stores one page per image, each with
    the geometry of [processImage], and raises no alert; a run in which an
    image throws stores nothing new and raises one. *)
Lemma createPdfFromImages_document (w : world) :
  images (st w) <> [] ->
  isProcessing (st w) = false ->
  let quality := inject_Z (imgQualitySlider (imagesUi w)) / 100 in
  let pageSize := pageSizeSelect (imagesUi w) in
  let w' := createPdfFromImages w in
  match assemble pageSize quality (images (st w)) with
  | Some pages =>
      imagePdfBlob (st w') = Some pages /\
      Forall2 (fun img p => processImage pageSize quality img = Some p)
        (images (st w)) pages /\
      alerts w' = alerts w
  | None =>
      imagePdfBlob (st w') = imagePdfBlob (st w) /\
      alerts w' <> alerts w
  end.
Proof.
  intros Himgs Hidle quality pageSize w'. subst w'.
  unfold createPdfFromImages.
  destruct (images (st w)) as [| img rest] eqn:Eimgs; [congruence |].
  rewrite Hidle. fold quality pageSize.
  destruct (assemble pageSize quality (img :: rest)) as [pages |] eqn:Ea.
  - cbn. split; [reflexivity |]. split; [| reflexivity].
    apply assemble_pages, Ea.
  - cbn. split; [reflexivity |].
    intro H. apply (f_equal (@List.length string)) in H.
    rewrite List.length_app in H. simpl in H. lia.
Qed.

Example compressImage_caps_at_2000 :
  compressImage 4000 3000 = (2000, 1500)%Z /\
  compressImage 1600 1200 = (1600, 1200)%Z /\
  compressImage 1000 3001 = (666, 2000)%Z.
Proof. vm_compute. repeat split. Qed.

End PdfToolsProofs.

(** ** More on the crop editor *)
Module CropProofs.
Import Watermark CropEvents WatermarkProofs.

Section Dragging.

Variable measureText : font -> list N -> Q.
Variable sqrt : Q -> Q.

(** X1: once the button is up or the dialog is closed, no run of pointer
    moves changes anything. *)
Theorem moves_without_drag_change_nothing (ps : list (Q * Q)) (w : world) :
  run measureText sqrt (moves ps) (handleCropMouseUp w) = handleCropMouseUp w /\
  run measureText sqrt (moves ps) (closeCropModal w) = closeCropModal w.
Proof.
  assert (forall v, isDragging (crop_of (st v)) = false ->
                    run measureText sqrt (moves ps) v = v) as Hidle.
  { induction ps as [| p rest IH]; intros v Hv; [reflexivity |].
    change (run measureText sqrt (moves (p :: rest)) v)
      with (run measureText sqrt (moves rest)
              (handleCropMouseMove (fst p) (snd p) v)).
    assert (handleCropMouseMove (fst p) (snd p) v = v) as ->
        by (unfold handleCropMouseMove; rewrite Hv; reflexivity).
    apply IH, Hv. }
  split; apply Hidle; reflexivity.
Qed.

End Dragging.

(** X2: in translate mode an update depends on the snapshot and the
    pointer only: the update before it leaves no trace. *)
Theorem translate_updates_are_memoryless (x1 y1 x2 y2 : Q) (w : world) :
  isDragging (crop_of (st w)) = true ->
  dragType (crop_of (st w)) = Some "move" ->
  handleCropMouseMove x2 y2 (handleCropMouseMove x1 y1 w)
  = handleCropMouseMove x2 y2 w.
Proof.
  intros Hdrag Hmove. unfold handleCropMouseMove.
  rewrite Hdrag, Hmove. cbn. rewrite Hdrag, Hmove. cbn. reflexivity.
Qed.

Lemma translate_updates_are_memoryless_witness :
  let w := handleCropMouseDown CropBox 100 100 sampleSession in
  handleCropMouseMove 90 95 (handleCropMouseMove 130 60 w)
  = handleCropMouseMove 90 95 w.
Proof.
  apply (translate_updates_are_memoryless 130 60 90 95
           (handleCropMouseDown CropBox 100 100 sampleSession));
    reflexivity.
Defined.

Lemma min_left (a b : Q) : a <= b -> Js.min a b = a.
Proof.
  intro H. unfold Js.min. apply Qle_bool_iff in H. rewrite H. reflexivity.
Qed.

Lemma max_right (a b : Q) : a <= b -> Js.max a b = b.
Proof.
  intro H. unfold Js.max. apply Qle_bool_iff in H. rewrite H. reflexivity.
Qed.

(** X3: [constrainCropBox] leaves a region that satisfies the invariant
    exactly as it is. *)
Theorem constrain_keeps_wellFormed_region (c : crop) :
  wellFormed c -> constrainCropBox c = c.
Proof.
  intros (Hx & Hy & Hxw & Hyh & Hw & Hh). destruct c. cbn in *.
  unfold constrainCropBox, set_x, set_y, set_width, set_height. cbn.
  rewrite (min_left x0) by lra. rewrite (max_right 0 x0) by lra.
  rewrite (min_left y0) by lra. rewrite (max_right 0 y0) by lra.
  rewrite (min_left width0) by lra. rewrite (max_right 20 width0) by lra.
  rewrite (min_left height0) by lra. rewrite (max_right 20 height0) by lra.
  reflexivity.
Qed.

Lemma constrain_keeps_wellFormed_region_witness :
  constrainCropBox (crop_of (st sampleSession)) = crop_of (st sampleSession).
Proof.
  apply (constrain_keeps_wellFormed_region (crop_of (st sampleSession))).
  unfold wellFormed.
  repeat match goal with |- _ /\ _ => split end;
    apply Qle_bool_iff; vm_compute; reflexivity.
Defined.

(** *** Edges during a free resize *)

Lemma candidate_free (c : crop) (kind : string) (dx dy : Q) :
  aspectRatio c = None ->
  candidate c kind dx dy
  = ((if Js.includes "w" kind then startX c + dx else startX c),
     (if Js.includes "n" kind then startY c + dy else startY c),
     (if Js.includes "w" kind then startWidth c - dx
      else if Js.includes "e" kind then Js.max 20 (startWidth c + dx)
           else startWidth c),
     (if Js.includes "n" kind then startHeight c - dy
      else if Js.includes "s" kind then Js.max 20 (startHeight c + dy)
           else startHeight c)).
Proof.
  intro Hfree. unfold candidate. rewrite Hfree. cbn [truthy].
  destruct (Js.includes "e" kind), (Js.includes "w" kind),
    (Js.includes "s" kind), (Js.includes "n" kind); reflexivity.
Qed.

(** What a resize update leaves in the region: on each axis the
    candidate when it is accepted, the previous values otherwise. *)
Lemma resize_result (clientX clientY : Q) (w : world) (kind : string)
  (newX newY newW newH : Q) :
  let c := crop_of (st w) in
  isDragging c = true ->
  dragType c = Some kind ->
  kind <> "move" ->
  candidate c kind (clientX - startMouseX c) (clientY - startMouseY c)
    = (newX, newY, newW, newH) ->
  let c' := crop_of (st (handleCropMouseMove clientX clientY w)) in
  (x c', width c')
    = (if acceptsX c newX newW then (newX, newW) else (x c, width c)) /\
  (y c', height c')
    = (if acceptsY c newY newH then (newY, newH) else (y c, height c)).
Proof.
  intros c Hdrag Hkind Hmove Hcand c'. subst c c'.
  unfold handleCropMouseMove. rewrite Hdrag, Hkind. cbn [negb].
  cbv beta iota zeta. apply String.eqb_neq in Hmove.
  rewrite Hmove, Hcand, updateCropBox_crop.
  cbn [crop_of st with_crop].
  destruct (acceptsX (crop_of (st w)) newX newW);
    unfold acceptsY; cbn [canvasHeight set_width set_x];
    destruct (Js.ge newH 20 && Js.ge newY 0
              && Js.le (newY + newH) (canvasHeight (crop_of (st w))));
    split; reflexivity.
Qed.

(** X4: during a resize under the free ratio the edge opposite to the
    handle stays where the snapshot has it: the left edge unless the
    handle has a "w", the right edge when it has one, and likewise the
    top and the bottom edge for "n". *)
Theorem free_resize_keeps_opposite_edge
  (clientX clientY : Q) (w : world) (kind : string) :
  let c := crop_of (st w) in
  isDragging c = true ->
  dragType c = Some kind ->
  kind <> "move" ->
  aspectRatio c = None ->
  let c' := crop_of (st (handleCropMouseMove clientX clientY w)) in
  (Js.includes "w" kind = false -> x c = startX c -> x c' = startX c) /\
  (Js.includes "w" kind = true ->
   right c == startX c + startWidth c ->
   right c' == startX c + startWidth c) /\
  (Js.includes "n" kind = false -> y c = startY c -> y c' = startY c) /\
  (Js.includes "n" kind = true ->
   bottom c == startY c + startHeight c ->
   bottom c' == startY c + startHeight c).
Proof.
  intros c Hdrag Hkind Hmove Hfree c'.
  pose proof (candidate_free c kind (clientX - startMouseX c)
                (clientY - startMouseY c) Hfree) as Hcand.
  destruct (resize_result clientX clientY w kind _ _ _ _
              Hdrag Hkind Hmove Hcand) as [HX HY].
  fold c c' in HX, HY. unfold right, bottom.
  conjuncts.
  - intros Hno Hat. rewrite Hno in HX.
    destruct (acceptsX c _ _) in HX; injection HX as Hx _; congruence.
  - intros Hyes Hat. rewrite Hyes in HX.
    destruct (acceptsX c _ _) in HX; injection HX as Hx Hw; rewrite Hx, Hw;
      [ring | exact Hat].
  - intros Hno Hat. rewrite Hno in HY.
    destruct (acceptsY c _ _) in HY; injection HY as Hy _; congruence.
  - intros Hyes Hat. rewrite Hyes in HY.
    destruct (acceptsY c _ _) in HY; injection HY as Hy Hh; rewrite Hy, Hh;
      [ring | exact Hat].
Qed.

Lemma free_resize_keeps_opposite_edge_witness :
  let w := handleCropMouseDown (Handle "nw") 100 100 sampleSession in
  let c := crop_of (st w) in
  let c' := crop_of (st (handleCropMouseMove 130 140 w)) in
  (Js.includes "w" "nw" = false -> x c = startX c -> x c' = startX c) /\
  (Js.includes "w" "nw" = true ->
   right c == startX c + startWidth c ->
   right c' == startX c + startWidth c) /\
  (Js.includes "n" "nw" = false -> y c = startY c -> y c' = startY c) /\
  (Js.includes "n" "nw" = true ->
   bottom c == startY c + startHeight c ->
   bottom c' == startY c + startHeight c).
Proof.
  apply (free_resize_keeps_opposite_edge 130 140
           (handleCropMouseDown (Handle "nw") 100 100 sampleSession) "nw").
  - reflexivity.
  - reflexivity.
  - discriminate.
  - reflexivity.
Defined.

Example north_west_drag_keeps_far_corner :
  let w := handleCropMouseDown (Handle "nw") 100 100 sampleSession in
  let c' := crop_of (st (handleCropMouseMove 130 140 w)) in
  x c' == 50 /\ y c' == 60 /\ right c' == 780 /\ bottom c' == 580.
Proof. vm_compute. repeat split. Qed.

(** X5: a press on the crop box or on a handle followed by an update at
    the same pointer position leaves a well-formed region under the free
    ratio where it is. *)
Theorem press_without_movement_keeps_region
  (t : target) (px py : Q) (w : world) :
  t <> Elsewhere ->
  wellFormed (crop_of (st w)) ->
  aspectRatio (crop_of (st w)) = None ->
  let c := crop_of (st w) in
  let c' := crop_of (st (handleCropMouseMove px py
                           (handleCropMouseDown t px py w))) in
  x c' == x c /\ y c' == y c /\ width c' == width c /\
  height c' == height c.
Proof.
  intros Ht (Hx & Hy & Hxw & Hyh & Hw & Hh) Hfree c c'.
  assert (exists kind,
             handleCropMouseDown t px py w
             = with_crop (set_start px py)
                 (with_crop (set_isDragging true)
                    (with_crop (set_dragType (Some kind)) w)))
    as [kind Hdown].
  { destruct t as [| h |]; [exists "move" | exists h | contradiction];
      reflexivity. }
  subst c'. rewrite Hdown. clear Hdown Ht.
  set (wd := with_crop _ _).
  destruct (String.eqb kind "move") eqn:Ekind.
  - unfold handleCropMouseMove. cbn. rewrite Ekind. cbn. subst c.
    js_minmax; conjuncts; lra.
  - apply String.eqb_neq in Ekind.
    assert (aspectRatio (crop_of (st wd)) = None) as Hfree' by exact Hfree.
    pose proof (candidate_free (crop_of (st wd)) kind
                  (px - startMouseX (crop_of (st wd)))
                  (py - startMouseY (crop_of (st wd))) Hfree') as Hcand.
    destruct (resize_result px py wd kind _ _ _ _
                eq_refl eq_refl Ekind Hcand) as [HX HY].
    pose proof (f_equal fst HX) as Ex. pose proof (f_equal snd HX) as Ew.
    pose proof (f_equal fst HY) as Ey. pose proof (f_equal snd HY) as Eh.
    cbn [fst snd] in Ex, Ew, Ey, Eh. rewrite Ex, Ew, Ey, Eh.
    clear HX HY Ex Ew Ey Eh Hcand. subst c.
    destruct (acceptsX _ _ _), (acceptsY _ _ _);
      cbn [fst snd wd crop_of st with_crop set_start set_isDragging
             set_dragType startX startY startWidth startHeight startMouseX
             startMouseY x y width height];
      destruct (Js.includes "w" kind), (Js.includes "e" kind),
        (Js.includes "n" kind), (Js.includes "s" kind);
      js_minmax; conjuncts; lra.
Qed.

Lemma press_without_movement_keeps_region_witness :
  let c := crop_of (st sampleSession) in
  let c' := crop_of (st (handleCropMouseMove 100 100
                           (handleCropMouseDown (Handle "se") 100 100
                              sampleSession))) in
  x c' == x c /\ y c' == y c /\ width c' == width c /\
  height c' == height c.
Proof.
  apply (press_without_movement_keeps_region (Handle "se") 100 100
           sampleSession).
  - discriminate.
  - unfold wellFormed.
    repeat match goal with |- _ /\ _ => split end;
      apply Qle_bool_iff; vm_compute; reflexivity.
  - reflexivity.
Defined.

(** *** The session as a whole *)

Section Sessions.

Variable measureText : font -> list N -> Q.
Variable sqrt : Q -> Q.

(** An editing handler touches neither the image nor the scale and the
    bounds. *)
Lemma editing_keeps_frame (e : event) (w : world) :
  editing e = true ->
  let w' := handle measureText sqrt e w in
  originalImage (st w') = originalImage (st w) /\
  scale (crop_of (st w')) = scale (crop_of (st w)) /\
  canvasWidth (crop_of (st w')) = canvasWidth (crop_of (st w)) /\
  canvasHeight (crop_of (st w')) = canvasHeight (crop_of (st w)).
Proof.
  intros He w'. subst w'. destruct e; try discriminate; cbn [handle].
  - conjuncts; reflexivity.
  - unfold setAspectRatio. destruct r as [| a b]; simpl;
      [conjuncts; reflexivity |].
    destruct (Js.num_gt _ _); conjuncts; reflexivity.
  - destruct t; conjuncts; reflexivity.
  - unfold handleCropMouseMove.
    destruct (isDragging _); cbn [negb]; [| conjuncts; reflexivity].
    destruct (dragType _) as [kind |]; [| conjuncts; reflexivity].
    destruct (String.eqb kind "move"); cbn; [conjuncts; reflexivity |].
    destruct (candidate _ _ _ _) as [[[nx ny] nw] nh].
    destruct (acceptsX _ _ _); destruct (acceptsY _ _ _);
      conjuncts; reflexivity.
  - conjuncts; reflexivity.
Qed.

Lemma editing_opens_nothing (e : event) : editing e = true -> opens e = false.
Proof. destruct e; intro H; try reflexivity; discriminate. Qed.

(** X6: after the dialog opened on roomy bounds and any editing since,
    the rectangle that [applyCrop] cuts lies inside the image, and is at
    least 10 natural pixels wide and high. *)
Theorem crop_command_lies_inside_image
  (win : window) (w0 : world) (img : image) (es : list event)
  (l t wd ht : Q) :
  originalImage (st w0) = Some img ->
  roomy (crop_of (st (openCropModal win w0))) ->
  forallb editing es = true ->
  command (fst (applyCrop measureText sqrt
                  (run measureText sqrt es (openCropModal win w0))))
    = Some (l, t, wd, ht) ->
  0 <= l /\ 0 <= t /\
  l + wd <= inject_Z (Z.pos (imgWidth img)) /\
  t + ht <= inject_Z (Z.pos (imgHeight img)) /\
  10 <= wd /\ 10 <= ht.
Proof.
  intros Himg Hroomy Hes.
  set (W := inject_Z (Z.pos (imgWidth img))).
  set (H := inject_Z (Z.pos (imgHeight img))).
  assert (forall w,
             (wellFormed (crop_of (st w)) /\
              0 < scale (crop_of (st w)) /\
              canvasWidth (crop_of (st w)) == W * scale (crop_of (st w)) /\
              canvasHeight (crop_of (st w)) == H * scale (crop_of (st w))) ->
             let w' := run measureText sqrt es w in
             wellFormed (crop_of (st w')) /\
             0 < scale (crop_of (st w')) /\
             canvasWidth (crop_of (st w')) == W * scale (crop_of (st w')) /\
             canvasHeight (crop_of (st w')) == H * scale (crop_of (st w')))
    as Hrun.
  { induction es as [| e rest IH]; intros w Hinv; [exact Hinv |].
    simpl in Hes. apply andb_true_iff in Hes as [He Hrest].
    change (run measureText sqrt (e :: rest) w)
      with (run measureText sqrt rest (handle measureText sqrt e w)).
    apply (IH Hrest).
    destruct Hinv as (Hwf & Hs & Hcw & Hch).
    destruct (editing_keeps_frame e w He) as (_ & Es & Ecw & Ech).
    split;
      [apply handle_wellFormed; [apply editing_opens_nothing, He | exact Hwf] |].
    rewrite Es, Ecw, Ech. split; [| split]; assumption. }
  assert (wellFormed (crop_of (st (openCropModal win w0))) /\
          0 < scale (crop_of (st (openCropModal win w0))) /\
          canvasWidth (crop_of (st (openCropModal win w0)))
            == W * scale (crop_of (st (openCropModal win w0))) /\
          canvasHeight (crop_of (st (openCropModal win w0)))
            == H * scale (crop_of (st (openCropModal win w0)))) as Hopen.
  { split; [apply open_wellFormed; [exact Hroomy | right; congruence] |].
    destruct Hroomy as [Rw Rh]. revert Rw Rh.
    unfold openCropModal. rewrite Himg.
    cbn [crop_of st with_crop with_el updateCropBox set_canvas set_x set_y
           set_width set_height set_aspectRatio scale canvasWidth
           canvasHeight].
    fold W H. set (s := Js.min _ 1). intros Rw Rh.
    pose proof (JsFacts.inject_pos (imgWidth img)) as PW. fold W in PW.
    assert (0 < s) by nra.
    conjuncts; [assumption | reflexivity | reflexivity]. }
  specialize (Hrun _ Hopen). cbv zeta in Hrun.
  set (w := run measureText sqrt es (openCropModal win w0)) in *.
  destruct Hrun as ((Hx & Hy & Hxw & Hyh & Hw & Hh) & Hs & Hcw & Hch).
  assert (~ scale (crop_of (st w)) == 0) as Hnz by lra.
  unfold applyCrop. cbv zeta. rewrite !(JsFacts.div_finite _ _ Hnz).
  unfold Js.num_lt.
  destruct (Js.lt (width (crop_of (st w)) / scale (crop_of (st w))) 10)
    eqn:Ew; [discriminate |].
  destruct (Js.lt (height (crop_of (st w)) / scale (crop_of (st w))) 10)
    eqn:Eh; [discriminate |].
  cbn [orb]. js_tests.
  destruct (originalImage (st w)); [| discriminate].
  set (s := scale (crop_of (st w))) in *.
  assert (0 <= x (crop_of (st w)) / s /\ 0 <= y (crop_of (st w)) / s /\
          x (crop_of (st w)) / s + width (crop_of (st w)) / s <= W /\
          y (crop_of (st w)) / s + height (crop_of (st w)) / s <= H /\
          10 <= width (crop_of (st w)) / s /\
          10 <= height (crop_of (st w)) / s) as Hgoal.
  { conjuncts; try assumption.
    - apply div_nonneg; assumption.
    - apply div_nonneg; assumption.
    - assert (x (crop_of (st w)) / s + width (crop_of (st w)) / s
              == (x (crop_of (st w)) + width (crop_of (st w))) / s) as ->
          by (field; lra).
      apply Qle_shift_div_r; [exact Hs | lra].
    - assert (y (crop_of (st w)) / s + height (crop_of (st w)) / s
              == (y (crop_of (st w)) + height (crop_of (st w))) / s) as ->
          by (field; lra).
      apply Qle_shift_div_r; [exact Hs | lra]. }
  destruct (renderPreview _ _ _ _); cbn [fst command];
    intro Hsome; injection Hsome as <- <- <- <-; exact Hgoal.
Qed.

(** What each handler leaves in the gate of the Apply button: the old
    value, or the test of [updateCropBox] on the new region. *)
Lemma handle_gate (e : event) (w : world) :
  let w' := handle measureText sqrt e w in
  applyCropDisabled (el w') = applyCropDisabled (el w) \/
  applyCropDisabled (el w')
    = (Js.lt (width (crop_of (st w'))) 20
       || Js.lt (height (crop_of (st w'))) 20).
Proof.
  intro w'. subst w'. destruct e; cbn [handle].
  - unfold openCropModal. destruct (originalImage (st w));
      [right | left]; reflexivity.
  - left. reflexivity.
  - right. reflexivity.
  - left. destruct t; reflexivity.
  - unfold handleCropMouseMove.
    destruct (isDragging _); cbn [negb]; [| left; reflexivity].
    destruct (dragType _); [right | left]; reflexivity.
  - left. reflexivity.
  - left. unfold applyCrop. cbv zeta.
    destruct (_ || _); [reflexivity |].
    destruct (originalImage (st w)); [| reflexivity].
    destruct (Js.div (x (crop_of (st w))) _); try reflexivity.
    destruct (Js.div (y (crop_of (st w))) _); try reflexivity.
    destruct (Js.div (width (crop_of (st w))) _); try reflexivity.
    destruct (Js.div (height (crop_of (st w))) _); try reflexivity.
    destruct (renderPreview _ _ _ _); reflexivity.
Qed.

(** X7: in every world of a crop session whose openings all found roomy
    bounds, the Apply button is enabled. *)
Theorem apply_is_enabled_in_session (w : world) :
  inSession measureText sqrt w -> applyCropDisabled (el w) = false.
Proof.
  intro Hs.
  assert (wellFormed (crop_of (st w)) /\ applyCropDisabled (el w) = false)
    as [_ Hgate]; [| exact Hgate].
  assert (forall c, wellFormed c ->
                    Js.lt (width c) 20 || Js.lt (height c) 20 = false)
    as Htest.
  { intros c (_ & _ & _ & _ & Hw & Hh).
    apply JsFacts.lt_false in Hw, Hh. rewrite Hw, Hh. reflexivity. }
  induction Hs as [win w img Himg Hroomy | e w Hs [IHwf IHgate] Hroomy].
  - assert (wellFormed (crop_of (st (openCropModal win w)))) as Hwf
        by (apply open_wellFormed; [exact Hroomy | right; congruence]).
    split; [exact Hwf |].
    unfold openCropModal in *. rewrite Himg in *. apply (Htest _ Hwf).
  - assert (wellFormed (crop_of (st (handle measureText sqrt e w))))
      as Hwf.
    { destruct (opens e) eqn:He.
      - destruct e; try discriminate.
        apply open_wellFormed; [apply Hroomy; reflexivity | left; exact IHwf].
      - apply handle_wellFormed; assumption. }
    split; [exact Hwf |].
    destruct (handle_gate e w) as [H | H]; rewrite H;
      [exact IHgate | apply Htest, Hwf].
Qed.

End Sessions.

Lemma crop_command_lies_inside_image_witness :
  0 <= (5600000 # 56000) /\ 0 <= (5600000 # 56000) /\
  (5600000 # 56000) + (204400000 # 56000) <= inject_Z 4000 /\
  (5600000 # 56000) + (145600000 # 56000) <= inject_Z 3000 /\
  10 <= (204400000 # 56000) /\ 10 <= (145600000 # 56000).
Proof.
  apply (crop_command_lies_inside_image sampleMeasure sampleSqrt
           (mkWindow (8000 # 7) 1200) (loaded (Decoded 4000 3000))
           (Decoded 4000 3000)
           [MouseDown (Handle "se") 500 300; MouseMove 470 260; MouseUp]
           (5600000 # 56000) (5600000 # 56000)).
  - reflexivity.
  - split; apply Qle_bool_iff; vm_compute; reflexivity.
  - reflexivity.
  - vm_compute. reflexivity.
Defined.

Lemma apply_is_enabled_in_session_witness :
  applyCropDisabled
    (el (handle sampleMeasure sampleSqrt (SetAspectRatio (Parts 1 1))
           sampleSession)) = false.
Proof.
  apply (apply_is_enabled_in_session sampleMeasure sampleSqrt).
  apply session_handled; [| discriminate].
  apply (session_opened _ _ _ _ (Decoded 4000 3000)); [reflexivity |].
  split; apply Qle_bool_iff; vm_compute; reflexivity.
Defined.

End CropProofs.

(** ** Choosing an aspect ratio *)
Module RatioProofs.
Import Watermark WatermarkProofs CropProofs.





(** A side cut under 20 is raised to 20: the ratio 1:2 on a region 40
    wide and 30 high gives 20 by 30, not 15 by 30. *)
Example ratio_raises_short_side :
  let c := mkCrop 20 20 40 30 1 None false None 0 0 0 0 0 0 800 600 in
  let w := with_crop (fun _ => c) initialWorld in
  let c' := crop_of (st (setAspectRatio (Parts 1 2) w)) in
  width c' == 20 /\ height c' == 30.
Proof. vm_compute. conjuncts; reflexivity. Qed.

End RatioProofs.

(** ** More on the watermark renderer *)
Module RenderProofs.
Import Watermark Stamps.

Section Rendering.

Variable measureText : font -> list N -> Q.
Variable sqrt : Q -> Q.

Lemma tileRow_stamps (n : nat) (txt : list N) (from ty spacing : Q)
  (c : context) :
  let c' := tileRow n txt from ty spacing c in
  current c' = current c /\ saved c' = saved c /\
  surface c'
    = surface c
      ++ map (fun tx => FillText txt tx ty (current c)) (steps n from spacing).
Proof.
  revert from c. induction n as [| n IH]; intros from c; cbn.
  - rewrite app_nil_r. repeat split.
  - destruct (IH (from + spacing) (fillText txt from ty c))
      as (Ec & Es & Ef).
    rewrite Ec, Es, Ef. cbn. rewrite <- app_assoc. repeat split.
Qed.

Lemma tileRows_stamps (n perRow : nat) (txt : list N)
  (from ty spacing : Q) (c : context) :
  let c' := tileRows n perRow txt from ty spacing c in
  current c' = current c /\ saved c' = saved c /\
  surface c'
    = surface c
      ++ grid txt (current c) (steps perRow from spacing)
           (steps n ty (spacing * 0.7)).
Proof.
  revert ty c. induction n as [| n IH]; intros ty c; cbn.
  - unfold grid. cbn. rewrite app_nil_r. repeat split.
  - destruct (tileRow_stamps perRow txt from ty spacing c)
      as (Rc & Rs & Rf).
    destruct (IH (ty + spacing * 0.7) (tileRow perRow txt from ty spacing c))
      as (Ec & Es & Ef).
    cbv zeta in *. rewrite Ec, Es, Ef, Rc, Rs, Rf.
    unfold grid. cbn. rewrite <- app_assoc. repeat split.
Qed.

(** The steps of a loop cover its range: every point from the start up
    to the end of the last step lies in the step of one of them. *)
Lemma steps_cover (n : nat) (from step p : Q) :
  0 < step ->
  from <= p ->
  p < from + inject_Z (Z.of_nat n) * step ->
  exists t, In t (steps n from step) /\ t <= p /\ p < t + step.
Proof.
  intro Hstep. revert from. induction n as [| n IH]; intros from Hlo Hhi.
  - change (inject_Z (Z.of_nat 0)) with 0 in Hhi. lra.
  - destruct (Qlt_le_dec p (from + step)) as [Hin | Hout].
    + exists from. cbn. split; [left; reflexivity | lra].
    + destruct (IH (from + step) Hout) as (t & Ht & Hb).
      * rewrite Nat2Z.inj_succ, <- Z.add_1_r, inject_Z_plus in Hhi.
        change (inject_Z 1) with 1 in Hhi. lra.
      * exists t. cbn. split; [right; exact Ht | exact Hb].
Qed.

(** The count that [iterations] gives reaches the end of the range. *)
Lemma iterations_reach (diagonal step : Q) :
  0 < diagonal -> 0 < step ->
  diagonal
    <= - diagonal + inject_Z (Z.of_nat (iterations diagonal step)) * step.
Proof.
  intros Hd Hs. unfold iterations.
  pose proof (Qle_ceiling (2 * diagonal / step)) as Hc.
  assert (0 <= 2 * diagonal / step) as Hq
      by (apply Qle_shift_div_l; lra).
  assert (0 <= Qceiling (2 * diagonal / step))%Z as Hz.
  { rewrite Zle_Qle. change (inject_Z 0) with 0. lra. }
  rewrite Z2Nat.id by exact Hz.
  assert (2 * diagonal == 2 * diagonal / step * step) as E by (field; lra).
  nra.
Qed.

(** What [renderTiledWatermark] leaves on the context: the transform
    about the center of the image and the grid of stamps. *)
Lemma renderTiledWatermark_grid (c : context) (wd ht : Q) (txt : list N)
  (fontSize rotation tileSpacing : Z) (c' : context) :
  renderTiledWatermark measureText sqrt c wd ht txt fontSize rotation
    tileSpacing = Some c' ->
  let spacing := Js.max (measureText (ctxFont (current c)) txt * 1.5)
                   (inject_Z fontSize * 3)
                 * (inject_Z tileSpacing / 100) in
  let diagonal := sqrt (wd * wd + ht * ht) in
  saved c' = saved c /\
  transforms (current c')
    = transforms (current c)
      ++ [Translate (wd / 2) (ht / 2); Rotate rotation] /\
  surface c'
    = surface c
      ++ (if Js.lt (- diagonal) diagonal
          then grid txt (current c')
                 (steps (iterations diagonal spacing) (- diagonal) spacing)
                 (steps (iterations diagonal (spacing * 0.7)) (- diagonal)
                    (spacing * 0.7))
          else []) /\
  (Js.lt (- diagonal) diagonal = true -> 0 < spacing).
Proof.
  unfold renderTiledWatermark. cbv zeta.
  set (spacing := Js.max _ _ * _).
  set (diagonal := sqrt _).
  set (c3 := set_shadow _ _ _ _ _).
  assert (saved c3 = saved c /\
          transforms (current c3)
            = transforms (current c)
              ++ [Translate (wd / 2) (ht / 2); Rotate rotation] /\
          surface c3 = surface c) as (Es & Et & Ef).
  { subst c3. cbn. rewrite <- app_assoc. repeat split. }
  destruct (Js.lt (- diagonal) diagonal) eqn:Ed.
  - destruct (Js.lt 0 spacing) eqn:Esp; [| discriminate].
    intro H. injection H as <-.
    destruct (tileRows_stamps (iterations diagonal (spacing * 0.7))
                (iterations diagonal spacing) txt
                (- diagonal) (- diagonal) spacing c3) as (Rc & Rs & Rf).
    cbv zeta in Rc, Rs, Rf. rewrite Rc, Rs, Rf, Es, Et, Ef.
    js_tests. conjuncts; try reflexivity. intros _. assumption.
  - intro H. injection H as <-. rewrite app_nil_r.
    conjuncts; try assumption. discriminate.
Qed.

(** The context as [applyWatermark] has prepared it for the stamps. *)
Lemma prepared_context (s : settings) (c : context) :
  let c4 := set_textAlign "center" "middle"
              (set_globalAlpha (inject_Z (opacity s) / 100)
                 (set_fillStyle (color s)
                    (set_font (BoldInter (fontSize s)) (save c)))) in
  saved c4 = current c :: saved c /\ surface c4 = surface c /\
  ctxFont (current c4) = BoldInter (fontSize s) /\
  transforms (current c4) = transforms (current c).
Proof. repeat split. Qed.

Lemma grid_stamps (txt : list N) (under : drawState) (xs ys : list Q) :
  Forall (fun op => exists tx ty u, op = FillText txt tx ty u)
    (grid txt under xs ys).
Proof.
  apply List.Forall_forall. intros op Hop. unfold grid in Hop.
  apply in_flat_map in Hop as (ty & _ & Hop).
  apply in_map_iff in Hop as (tx & <- & _). eauto.
Qed.

(** X8: [applyWatermark] gives the context back with the drawing state
    and the stack of saved states as it found them; all it adds to the
    surface is stamps of the text. *)
Theorem applyWatermark_restores_drawing_state
  (s : settings) (c : context) (wd ht : Q) (c' : context) :
  applyWatermark measureText sqrt s c wd ht = Some c' ->
  current c' = current c /\ saved c' = saved c /\
  exists stamps,
    surface c' = surface c ++ stamps /\
    Forall (fun op => exists tx ty u, op = FillText (text s) tx ty u) stamps.
Proof.
  unfold applyWatermark. destruct (Js.trim (text s)) as [| ch rest].
  - intro H. injection H as <-. conjuncts; try reflexivity.
    exists []. rewrite app_nil_r. split; [reflexivity | constructor].
  - destruct (prepared_context s c) as (Es & Ef & _ & _). cbv zeta in *.
    set (c4 := set_textAlign _ _ _) in *.
    destruct (tile s).
    + destruct (renderTiledWatermark _ _ c4 _ _ _ _ _ _) as [c5 |] eqn:E;
        [| discriminate].
      intro H. injection H as <-.
      destruct (renderTiledWatermark_grid _ _ _ _ _ _ _ _ E)
        as (Rs & _ & Rf & _).
      unfold restore. rewrite Rs, Es. cbn. conjuncts; try reflexivity.
      eexists. rewrite Rf, Ef. split; [reflexivity |].
      destruct (Js.lt _ _); [apply grid_stamps | constructor].
    + intro H. injection H as <-.
      destruct (getPosition _ _ _ _); cbn; conjuncts; try reflexivity;
        eexists; (split; [reflexivity |]);
        repeat constructor; eauto.
Qed.

(** X9: a single watermark on an anchor is one stamp of the text at the
    origin of a frame moved to the anchor and then rotated, in the bold
    font of the chosen size, centered on both axes. *)
Theorem single_watermark_is_one_stamp
  (s : settings) (c : context) (wd ht px py : Q) :
  tile s = false ->
  Js.trim (text s) <> [] ->
  getPosition (position s) wd ht (inject_Z (fontSize s)) = Point px py ->
  exists c' under,
    applyWatermark measureText sqrt s c wd ht = Some c' /\
    surface c' = surface c ++ [FillText (text s) 0 0 under] /\
    transforms under
      = transforms (current c) ++ [Translate px py; Rotate (rotation s)] /\
    ctxFont under = BoldInter (fontSize s) /\
    fillStyle under = color s /\
    textAlign under = "center" /\ textBaseline under = "middle" /\
    ((0 <= opacity s <= 100)%Z ->
     globalAlpha under = inject_Z (opacity s) / 100).
Proof.
  intros Htile Htext Hpos. unfold applyWatermark.
  destruct (Js.trim (text s)); [contradiction |].
  rewrite Htile, Hpos. eexists _, _. split; [reflexivity |].
  cbn. rewrite <- app_assoc. conjuncts; try reflexivity.
  intros [Hlo Hhi].
  assert (0 <= inject_Z (opacity s) / 100) as H0.
  { apply Qle_shift_div_l; [lra |]. rewrite Zle_Qle in Hlo.
    change (inject_Z 0) with 0 in Hlo. lra. }
  assert (inject_Z (opacity s) / 100 <= 1) as H1.
  { apply Qle_shift_div_r; [lra |]. rewrite Zle_Qle in Hhi.
    change (inject_Z 100) with 100 in Hhi. lra. }
  unfold Js.le. apply Qle_bool_iff in H0, H1. rewrite H0, H1. reflexivity.
Qed.

(** X10: a tiled watermark with a positive spacing is drawn, and its
    stamps cover the square of twice the diagonal around the center:
    every point of the square has a stamp within one step to its left
    and within one row above it, in the frame rotated about the center
    of the image. *)
Theorem tiled_watermark_covers_square
  (s : settings) (c : context) (wd ht : Q) :
  tile s = true ->
  Js.trim (text s) <> [] ->
  let spacing := Js.max (measureText (BoldInter (fontSize s)) (text s) * 1.5)
                   (inject_Z (fontSize s) * 3)
                 * (inject_Z (tileSpacing s) / 100) in
  let diagonal := sqrt (wd * wd + ht * ht) in
  0 < diagonal ->
  0 < spacing ->
  exists c',
    applyWatermark measureText sqrt s c wd ht = Some c' /\
    forall px py,
      - diagonal <= px -> px < diagonal ->
      - diagonal <= py -> py < diagonal ->
      exists tx ty under,
        In (FillText (text s) tx ty under) (surface c') /\
        tx <= px /\ px < tx + spacing /\
        ty <= py /\ py < ty + spacing * 0.7 /\
        transforms under
          = transforms (current c)
            ++ [Translate (wd / 2) (ht / 2); Rotate (rotation s)].
Proof.
  intros Htile Htext spacing diagonal Hd Hsp. unfold applyWatermark.
  destruct (Js.trim (text s)); [contradiction |].
  rewrite Htile.
  destruct (prepared_context s c) as (Es & Ef & Efont & Etr).
  cbv zeta in *. set (c4 := set_textAlign _ _ _) in *.
  assert (Js.lt (- diagonal) diagonal = true) as Edd
      by (apply JsFacts.lt_true; lra).
  destruct (renderTiledWatermark measureText sqrt c4 wd ht (text s)
              (fontSize s) (rotation s) (tileSpacing s)) as [c5 |] eqn:E.
  - destruct (renderTiledWatermark_grid _ _ _ _ _ _ _ _ E)
      as (_ & Rt & Rf & _).
    rewrite Efont in Rf. fold spacing diagonal in Rf. rewrite Edd in Rf.
    eexists. split; [reflexivity |].
    intros px py Hx0 Hx1 Hy0 Hy1.
    destruct (steps_cover (iterations diagonal spacing) (- diagonal)
                spacing px Hsp Hx0) as (tx & Htx & Bx0 & Bx1).
    { pose proof (iterations_reach diagonal spacing Hd Hsp). lra. }
    assert (0 < spacing * 0.7) as Hsp7 by lra.
    destruct (steps_cover (iterations diagonal (spacing * 0.7)) (- diagonal)
                (spacing * 0.7) py Hsp7 Hy0) as (ty & Hty & By0 & By1).
    { pose proof (iterations_reach diagonal (spacing * 0.7) Hd Hsp7). lra. }
    exists tx, ty, (current c5).
    assert (In (FillText (text s) tx ty (current c5)) (surface c5)) as Hin.
    { rewrite Rf. apply in_or_app. right. unfold grid. apply in_flat_map.
      exists ty. split; [exact Hty |].
      apply in_map_iff. exists tx. split; [reflexivity | exact Htx]. }
    rewrite Etr in Rt.
    conjuncts; try assumption.
    unfold restore. destruct (saved c5); exact Hin.
  - exfalso. unfold renderTiledWatermark in E. cbv zeta in E.
    rewrite Efont in E. fold spacing diagonal in E. rewrite Edd in E.
    apply JsFacts.lt_true in Hsp. rewrite Hsp in E. discriminate.
Qed.

End Rendering.

Lemma applyWatermark_restores_drawing_state_witness :
  exists c',
    applyWatermark sampleMeasure sampleSqrt sampleTiled
      (mkContext defaultDrawState [] []) 3 4 = Some c' /\
    current c' = defaultDrawState /\ saved c' = [].
Proof.
  eexists. split; [vm_compute; reflexivity |].
  pose proof (applyWatermark_restores_drawing_state sampleMeasure sampleSqrt
                sampleTiled (mkContext defaultDrawState [] []) 3 4 _ eq_refl)
    as (Hc & Hs & _).
  split; [exact Hc | exact Hs].
Defined.

Lemma single_watermark_is_one_stamp_witness :
  exists c' under,
    applyWatermark sampleMeasure sampleSqrt initialSettings
      (mkContext defaultDrawState [] []) 640 480 = Some c' /\
    surface c' = [] ++ [FillText (text initialSettings) 0 0 under] /\
    transforms under = [] ++ [Translate (640 / 2) (480 / 2); Rotate (-30)] /\
    ctxFont under = BoldInter 48 /\
    fillStyle under = "#ffffff" /\
    textAlign under = "center" /\ textBaseline under = "middle" /\
    ((0 <= 50 <= 100)%Z -> globalAlpha under = inject_Z 50 / 100).
Proof.
  apply (single_watermark_is_one_stamp sampleMeasure sampleSqrt
           initialSettings (mkContext defaultDrawState [] []) 640 480
           (640 / 2) (480 / 2)).
  - reflexivity.
  - discriminate.
  - reflexivity.
Defined.

Lemma tiled_watermark_covers_square_witness :
  exists c',
    applyWatermark sampleMeasure sampleSqrt sampleTiled
      (mkContext defaultDrawState [] []) 3 4 = Some c' /\
    forall px py,
      - sampleSqrt (3 * 3 + 4 * 4) <= px -> px < sampleSqrt (3 * 3 + 4 * 4) ->
      - sampleSqrt (3 * 3 + 4 * 4) <= py -> py < sampleSqrt (3 * 3 + 4 * 4) ->
      exists tx ty under,
        In (FillText (text sampleTiled) tx ty under) (surface c') /\
        tx <= px /\
        px < tx + Js.max (sampleMeasure (BoldInter 10) (text sampleTiled) * 1.5)
                    (inject_Z 10 * 3) * (inject_Z 100 / 100) /\
        ty <= py /\
        py < ty + Js.max (sampleMeasure (BoldInter 10) (text sampleTiled) * 1.5)
                    (inject_Z 10 * 3) * (inject_Z 100 / 100) * 0.7 /\
        transforms under = [] ++ [Translate (3 / 2) (4 / 2); Rotate (-30)].
Proof.
  apply (tiled_watermark_covers_square sampleMeasure sampleSqrt sampleTiled
           (mkContext defaultDrawState [] []) 3 4).
  - reflexivity.
  - discriminate.
  - apply JsFacts.lt_true. vm_compute. reflexivity.
  - apply JsFacts.lt_true. vm_compute. reflexivity.
Defined.

(** X12: the nine anchors lie in pairs opposite each other about the
    center of the image: the coordinates of a pair add up to the width
    and the height. *)
Theorem opposite_anchors_mirror_about_center
  (a b : string) (width height fontSize : Q) :
  In (a, b) opposite ->
  exists ax ay bx by',
    getPosition a width height fontSize = Point ax ay /\
    getPosition b width height fontSize = Point bx by' /\
    ax + bx == width /\ ay + by' == height.
Proof.
  unfold opposite. intro H.
  repeat (destruct H as [H | H];
          [injection H as <- <-; eexists _, _, _, _;
           split; [reflexivity |]; split; [reflexivity |];
           split; field |]).
  destruct H.
Qed.

Lemma opposite_anchors_mirror_about_center_witness :
  exists ax ay bx by',
    getPosition "top-left" 640 480 48 = Point ax ay /\
    getPosition "bottom-right" 640 480 48 = Point bx by' /\
    ax + bx == 640 /\ ay + by' == 480.
Proof.
  apply (opposite_anchors_mirror_about_center "top-left" "bottom-right"
           640 480 48).
  left. reflexivity.
Defined.

End RenderProofs.

(** ** The loops of the tiled watermark *)
Module TileLoopProofs.
Import Watermark Stamps TileLoops.

Lemma rowLoop_stuck (fuel : nat) (txt : list N) (x y diagonal spacing : Q)
  (c : context) :
  spacing <= 0 -> x < diagonal ->
  rowLoop fuel txt x y diagonal spacing c = None.
Proof.
  intros Hsp. revert x c. induction fuel as [| fuel IH]; intros x c Hx;
    cbn [rowLoop]; apply JsFacts.lt_true in Hx; rewrite Hx.
  - reflexivity.
  - apply IH. apply JsFacts.lt_true in Hx. lra.
Qed.

Lemma rowsLoop_stuck (fuel : nat) (txt : list N) (diagonal spacing : Q)
  (c : context) :
  spacing <= 0 -> 0 < diagonal ->
  rowsLoop fuel txt (- diagonal) diagonal spacing c = None.
Proof.
  intros Hsp Hd.
  assert (Js.lt (- diagonal) diagonal = true) as E
      by (apply JsFacts.lt_true; lra).
  destruct fuel as [| fuel]; cbn [rowsLoop]; rewrite E; [reflexivity |].
  rewrite rowLoop_stuck by lra. reflexivity.
Qed.

Lemma ceiling_above (q : Q) : inject_Z (Qceiling q) - 1 < q.
Proof.
  pose proof (Qceiling_lt q) as H. unfold Z.sub in H.
  rewrite inject_Z_plus, inject_Z_opp in H. exact H.
Qed.

Lemma ceiling_unique (q : Q) (z : Z) :
  inject_Z z - 1 < q -> q <= inject_Z z -> Qceiling q = z.
Proof.
  intros Hlo Hhi.
  pose proof (Qle_ceiling q) as H1. pose proof (ceiling_above q) as H2.
  assert (Qceiling q < z + 1)%Z
    by (rewrite Zlt_Qlt, inject_Z_plus; change (inject_Z 1) with 1; lra).
  assert (z < Qceiling q + 1)%Z
    by (rewrite Zlt_Qlt, inject_Z_plus; change (inject_Z 1) with 1; lra).
  lia.
Qed.

(** The number of rounds of a loop from [x] below [diagonal] in steps
    of [step]: one more than from [x + step] while [x < diagonal], and
    none from there on. *)
Lemma rounds_step (x diagonal step : Q) :
  0 < step -> x < diagonal ->
  Z.to_nat (Qceiling ((diagonal - x) / step))
  = S (Z.to_nat (Qceiling ((diagonal - (x + step)) / step))).
Proof.
  intros Hs Hx.
  set (q := (diagonal - x) / step).
  assert (q * step == diagonal - x) as Eq by (unfold q; field; lra).
  assert (0 < q) as Hq by (unfold q; apply Qlt_shift_div_l; lra).
  assert ((diagonal - (x + step)) / step == q - 1) as E
      by (unfold q; field; lra).
  rewrite E.
  pose proof (Qle_ceiling q) as H1. pose proof (ceiling_above q) as H2.
  assert (Qceiling (q - 1) = Qceiling q - 1)%Z as ->.
  { apply ceiling_unique; unfold Z.sub;
      rewrite inject_Z_plus, inject_Z_opp; change (inject_Z 1) with 1; lra. }
  assert (0 < Qceiling q)%Z
    by (rewrite Zlt_Qlt; change (inject_Z 0) with 0; lra).
  lia.
Qed.

Lemma rounds_done (x diagonal step : Q) :
  0 < step -> diagonal <= x ->
  Z.to_nat (Qceiling ((diagonal - x) / step)) = O.
Proof.
  intros Hs Hx.
  set (q := (diagonal - x) / step).
  assert (q * step == diagonal - x) as Eq by (unfold q; field; lra).
  assert (q <= 0) as Hq by nra.
  pose proof (ceiling_above q) as H2.
  assert (Qceiling q < 1)%Z
    by (rewrite Zlt_Qlt; change (inject_Z 1) with 1; lra).
  lia.
Qed.

Lemma rounds_from_start (diagonal step : Q) :
  Z.to_nat (Qceiling ((diagonal - - diagonal) / step))
  = iterations diagonal step.
Proof.
  unfold iterations. f_equal. apply Qceiling_comp.
  unfold Qdiv. ring.
Qed.

Lemma rowLoop_finishes (k : nat) :
  forall (fuel : nat) (txt : list N) (x y diagonal spacing : Q) (c : context),
    0 < spacing ->
    Z.to_nat (Qceiling ((diagonal - x) / spacing)) = k ->
    (k <= fuel)%nat ->
    rowLoop fuel txt x y diagonal spacing c
    = Some (tileRow k txt x y spacing c).
Proof.
  induction k as [| k IH]; intros fuel txt x y diagonal spacing c Hsp Hk Hfuel.
  - assert (Js.lt x diagonal = false) as E.
    { destruct (Js.lt x diagonal) eqn:E; [| reflexivity]. js_tests.
      rewrite (rounds_step x diagonal spacing Hsp E) in Hk. discriminate. }
    destruct fuel; cbn [rowLoop]; rewrite E; reflexivity.
  - assert (Js.lt x diagonal = true) as E.
    { destruct (Js.lt x diagonal) eqn:E; [reflexivity |]. js_tests.
      rewrite (rounds_done x diagonal spacing Hsp E) in Hk. discriminate. }
    destruct fuel as [| fuel]; [lia |].
    cbn [rowLoop tileRow]. rewrite E. js_tests.
    apply IH; [exact Hsp | | lia].
    rewrite (rounds_step x diagonal spacing Hsp E) in Hk. lia.
Qed.

Lemma rowsLoop_finishes (k : nat) :
  forall (fuel : nat) (txt : list N) (y diagonal spacing : Q) (c : context),
    0 < spacing ->
    Z.to_nat (Qceiling ((diagonal - y) / (spacing * 0.7))) = k ->
    (k + iterations diagonal spacing <= fuel)%nat ->
    rowsLoop fuel txt y diagonal spacing c
    = Some (tileRows k (iterations diagonal spacing) txt (- diagonal) y
              spacing c).
Proof.
  induction k as [| k IH];
    intros fuel txt y diagonal spacing c Hsp Hk Hfuel.
  - assert (Js.lt y diagonal = false) as E.
    { destruct (Js.lt y diagonal) eqn:E; [| reflexivity]. js_tests.
      rewrite (rounds_step y diagonal (spacing * 0.7)) in Hk
        by (try exact E; lra).
      discriminate. }
    destruct fuel; cbn [rowsLoop]; rewrite E; reflexivity.
  - assert (Js.lt y diagonal = true) as E.
    { destruct (Js.lt y diagonal) eqn:E; [reflexivity |]. js_tests.
      rewrite (rounds_done y diagonal (spacing * 0.7)) in Hk
        by (try exact E; lra).
      discriminate. }
    destruct fuel as [| fuel]; [lia |].
    cbn [rowsLoop tileRows]. rewrite E. js_tests.
    rewrite (rowLoop_finishes (iterations diagonal spacing) (S fuel) txt
               (- diagonal) y diagonal spacing c Hsp
               (rounds_from_start diagonal spacing)) by lia.
    apply IH; [exact Hsp | | lia].
    rewrite (rounds_step y diagonal (spacing * 0.7)) in Hk
      by (try exact E; lra).
    lia.
Qed.

Section Bounded.

Variable measureText : font -> list N -> Q.
Variable sqrt : Q -> Q.

(** Where [renderTiledWatermark] gives a context, the loops as written
    give the same context once they are allowed enough rounds. *)
Lemma loops_reach_closed_form (c : context) (wd ht : Q) (txt : list N)
  (fontSize rotation tileSpacing : Z) (c' : context) :
  renderTiledWatermark measureText sqrt c wd ht txt fontSize rotation
    tileSpacing = Some c' ->
  exists n, forall fuel, (n <= fuel)%nat ->
    renderTiledWatermarkWithin measureText sqrt fuel c wd ht txt fontSize
      rotation tileSpacing = Some c'.
Proof.
  unfold renderTiledWatermark, renderTiledWatermarkWithin. cbv zeta.
  set (spacing := Js.max _ _ * _).
  set (diagonal := sqrt _).
  set (c3 := set_shadow _ _ _ _ _).
  destruct (Js.lt (- diagonal) diagonal) eqn:Ed.
  - destruct (Js.lt 0 spacing) eqn:Esp; [| discriminate].
    intro H. injection H as <-. js_tests.
    exists (iterations diagonal (spacing * 0.7)
            + iterations diagonal spacing)%nat.
    intros fuel Hfuel.
    apply rowsLoop_finishes; [exact Esp | | exact Hfuel].
    apply rounds_from_start.
  - intro H. injection H as <-. exists O. intros fuel _.
    destruct fuel; cbn [rowsLoop]; rewrite Ed; reflexivity.
Qed.

(** X11: a tiled watermark whose spacing is not positive is never
    finished: on an image with a positive diagonal the loops of
    [renderTiledWatermark], as they are written, have not come to their
    end after any number of rounds, which is what [None] stands for in
    [applyWatermark]. *)
Theorem tiled_watermark_without_spacing_hangs
  (s : settings) (c : context) (wd ht : Q) :
  tile s = true ->
  Js.trim (text s) <> [] ->
  0 < sqrt (wd * wd + ht * ht) ->
  Js.max (measureText (BoldInter (fontSize s)) (text s) * 1.5)
    (inject_Z (fontSize s) * 3)
  * (inject_Z (tileSpacing s) / 100) <= 0 ->
  let prepared := set_textAlign "center" "middle"
                    (set_globalAlpha (inject_Z (opacity s) / 100)
                       (set_fillStyle (color s)
                          (set_font (BoldInter (fontSize s)) (save c)))) in
  (forall fuel,
      renderTiledWatermarkWithin measureText sqrt fuel prepared wd ht
        (text s) (fontSize s) (rotation s) (tileSpacing s) = None) /\
  applyWatermark measureText sqrt s c wd ht = None.
Proof.
  intros Htile Htext Hd Hsp prepared. split.
  - intro fuel. unfold renderTiledWatermarkWithin. cbv zeta.
    apply rowsLoop_stuck; [exact Hsp | exact Hd].
  - unfold applyWatermark.
    destruct (Js.trim (text s)); [contradiction |].
    rewrite Htile. unfold renderTiledWatermark. cbn [ctxFont current
      set_textAlign set_globalAlpha set_fillStyle set_font on_current save].
    assert (Js.lt (- sqrt (wd * wd + ht * ht)) (sqrt (wd * wd + ht * ht))
            = true) as -> by (apply JsFacts.lt_true; lra).
    apply JsFacts.lt_false in Hsp. rewrite Hsp. reflexivity.
Qed.

End Bounded.

Lemma tiled_watermark_without_spacing_hangs_witness :
  let prepared := set_textAlign "center" "middle"
                    (set_globalAlpha (inject_Z 50 / 100)
                       (set_fillStyle "#ffffff"
                          (set_font (BoldInter 10)
                             (save (mkContext defaultDrawState [] []))))) in
  (forall fuel,
      renderTiledWatermarkWithin sampleMeasure sampleSqrt fuel prepared 3 4
        (text sampleStuck) 10 (-30) 0 = None) /\
  applyWatermark sampleMeasure sampleSqrt sampleStuck
    (mkContext defaultDrawState [] []) 3 4 = None.
Proof.
  apply (tiled_watermark_without_spacing_hangs sampleMeasure sampleSqrt
           sampleStuck (mkContext defaultDrawState [] []) 3 4).
  - reflexivity.
  - discriminate.
  - apply JsFacts.lt_true. vm_compute. reflexivity.
  - apply Qle_bool_iff. vm_compute. reflexivity.
Defined.

(** With the slider at 100 three rounds are too few for the same
    loops, and with forty they give what [renderTiledWatermark]
    gives. *)
Example tiled_loops_of_the_sample :
  let c := mkContext defaultDrawState [] [] in
  renderTiledWatermarkWithin sampleMeasure sampleSqrt 3 c 3 4
    [87; 77]%N 10 (-30) 100 = None /\
  renderTiledWatermarkWithin sampleMeasure sampleSqrt 40 c 3 4
    [87; 77]%N 10 (-30) 100
  = renderTiledWatermark sampleMeasure sampleSqrt c 3 4
      [87; 77]%N 10 (-30) 100 /\
  renderTiledWatermark sampleMeasure sampleSqrt c 3 4
    [87; 77]%N 10 (-30) 100 <> None.
Proof. vm_compute. repeat split. discriminate. Qed.

End TileLoopProofs.

(** ** Download names *)
Module FileNameProofs.
Import FileNames.
Local Open Scope string_scope.

Lemma append_cons (c : ascii) (a b : string) :
  (String c a ++ b)%string = String c (a ++ b).
Proof. reflexivity. Qed.

Lemma append_nil (b : string) : (EmptyString ++ b)%string = b.
Proof. reflexivity. Qed.

Lemma append_nil_r (a : string) : (a ++ EmptyString)%string = a.
Proof.
  induction a as [| c a IH]; [reflexivity |].
  rewrite append_cons, IH. reflexivity.
Qed.

Lemma hasDot_app (a b : string) : hasDot (a ++ b) = hasDot a || hasDot b.
Proof.
  induction a as [| c a IH]; [reflexivity |].
  rewrite append_cons. cbn [hasDot]. rewrite IH, orb_assoc. reflexivity.
Qed.

Lemma stripExtension_keeps_before_dot (base rest : string) :
  hasDot rest = true ->
  stripExtension (base ++ rest) = base ++ stripExtension rest.
Proof.
  intro Hrest. induction base as [| c base IH]; [reflexivity |].
  rewrite !append_cons. cbn [stripExtension].
  rewrite hasDot_app, Hrest, orb_true_r, andb_false_r, IH. reflexivity.
Qed.

Lemma stripExtension_without_dot (s : string) :
  hasDot s = false -> stripExtension s = s.
Proof.
  induction s as [| c s IH]; cbn [hasDot stripExtension]; [reflexivity |].
  intro H. apply orb_false_iff in H as [Hc Hs].
  rewrite Hc, (IH Hs). reflexivity.
Qed.

(** X13: the download name of the editor drops the last extension of
    the file name and nothing else: a name without a dot, and a name that
    ends in a dot, are kept whole. *)
Theorem watermarkedName_drops_last_extension :
  (forall base ext,
      ext <> EmptyString -> hasDot ext = false ->
      watermarkedName (base ++ "." ++ ext) = base ++ "_watermarked.png") /\
  (forall name,
      hasDot name = false ->
      watermarkedName name = name ++ "_watermarked.png") /\
  (forall base,
      watermarkedName (base ++ ".") = base ++ "." ++ "_watermarked.png").
Proof.
  unfold watermarkedName. split; [| split].
  - intros base ext Hext Hdot.
    rewrite stripExtension_keeps_before_dot
      by (rewrite append_cons; reflexivity).
    rewrite append_cons, append_nil. cbn [stripExtension isDot].
    rewrite Hdot. destruct ext; [contradiction |].
    cbn. rewrite append_nil_r. reflexivity.
  - intros name Hdot. rewrite stripExtension_without_dot by exact Hdot.
    reflexivity.
  - intro base.
    rewrite stripExtension_keeps_before_dot by reflexivity.
    cbn [stripExtension]. cbn.
    induction base as [| c base IH]; [reflexivity |].
    rewrite !append_cons, IH. reflexivity.
Qed.

Lemma watermarkedName_drops_last_extension_witness :
  watermarkedName ("holiday.2024" ++ "." ++ "jpeg")
  = "holiday.2024" ++ "_watermarked.png".
Proof.
  apply (proj1 watermarkedName_drops_last_extension "holiday.2024" "jpeg").
  - discriminate.
  - reflexivity.
Defined.

(** The pattern cannot start in a text that is free of it and end in a
    ".pdf" that follows. *)
Lemma pdf_tail_straddles_nothing (a z : string) :
  String.prefix "pdf" a = false ->
  String.prefix "pdf" (a ++ ".pdf" ++ z) = false.
Proof.
  destruct a as [| c1 [| c2 [| c3 a]]]; intro H;
    rewrite ?append_cons, ?append_nil; cbn [String.prefix] in *;
    repeat match goal with
      | |- context [ascii_dec ?x ?y] => destruct (ascii_dec x y); subst
      | H : context [ascii_dec ?x ?y] |- _ => destruct (ascii_dec x y); subst
      end;
    try reflexivity; try discriminate; try congruence.
  destruct a; discriminate.
Qed.

Lemma prefix_pdf_step (c : ascii) (rest : string) :
  String.prefix ".pdf" (String c rest)
  = isDot c && String.prefix "pdf" rest.
Proof.
  cbn [String.prefix]. unfold isDot.
  destruct (ascii_dec "." c) as [<- | Hne]; [reflexivity |].
  destruct (Ascii.eqb_spec c "."); [congruence | reflexivity].
Qed.

Lemma replaceFirst_pdf (a b : string) :
  occurs ".pdf" a = false ->
  replaceFirst ".pdf" "" (a ++ ".pdf" ++ b) = a ++ b.
Proof.
  induction a as [| c a IH]; intro H.
  - destruct b; reflexivity.
  - cbn [occurs] in H. apply orb_false_iff in H as [Hhere Hlater].
    rewrite prefix_pdf_step in Hhere.
    rewrite (append_cons c a). cbn [replaceFirst].
    rewrite prefix_pdf_step.
    assert (isDot c && String.prefix "pdf" (a ++ ".pdf" ++ b) = false) as ->.
    { destruct (isDot c); [| reflexivity]. cbn [andb] in *.
      apply pdf_tail_straddles_nothing, Hhere. }
    rewrite (IH Hlater). reflexivity.
Qed.

Lemma replaceFirst_absent (pattern s : string) :
  occurs pattern s = false -> replaceFirst pattern "" s = s.
Proof.
  induction s as [| c s IH]; cbn [occurs replaceFirst]; intro H;
    apply orb_false_iff in H as [Hhere Hlater]; rewrite Hhere;
    [reflexivity | rewrite (IH Hlater); reflexivity].
Qed.

(** X14: the download name of the compressor removes the first ".pdf"
    of the file name, wherever it stands, and appends
    "_compressed.pdf"; a name without ".pdf" in this spelling is kept
    whole. *)
Theorem compressedName_removes_first_pdf :
  (forall stem,
      occurs ".pdf" stem = false ->
      compressedName (stem ++ ".pdf") = stem ++ "_compressed.pdf") /\
  (forall before after,
      occurs ".pdf" before = false ->
      compressedName (before ++ ".pdf" ++ after)
      = before ++ after ++ "_compressed.pdf") /\
  (forall name,
      occurs ".pdf" name = false ->
      compressedName name = name ++ "_compressed.pdf").
Proof.
  unfold compressedName. split; [| split].
  - intros stem H.
    pose proof (replaceFirst_pdf stem "" H) as E.
    rewrite !append_nil_r in E. rewrite E. reflexivity.
  - intros before after H. rewrite (replaceFirst_pdf before after H).
    clear. induction before as [| c before IH]; [reflexivity |].
    rewrite !append_cons, IH. reflexivity.
  - intros name H. rewrite (replaceFirst_absent _ _ H). reflexivity.
Qed.

Lemma compressedName_removes_first_pdf_witness :
  compressedName ("report.v2" ++ ".pdf") = "report.v2" ++ "_compressed.pdf".
Proof.
  apply (proj1 compressedName_removes_first_pdf "report.v2"). reflexivity.
Defined.

Example compressedName_quirks :
  compressedName "my.pdf.backup.pdf" = "my.backup.pdf_compressed.pdf" /\
  compressedName "SCAN.PDF" = "SCAN.PDF_compressed.pdf".
Proof. split; reflexivity. Qed.

End FileNameProofs.

(** ** The theme switch *)
Module ThemeProofs.
Import Theme.

(** X15: a toggle flips between dark and not dark and stores what it
    shows; on the next load of a document whose markup is not dark,
    [initTheme] shows the stored choice again, whatever the system
    prefers. *)
Theorem toggled_theme_survives_reload
  (prefersDark : bool) (markup : option string) (p : page) :
  isDark (mkPage markup None) = false ->
  let toggled := toggleTheme p in
  isDark toggled = negb (isDark p) /\
  storedTheme toggled = dataTheme toggled /\
  isDark (initTheme prefersDark (reloaded markup toggled)) = isDark toggled.
Proof.
  intros Hmarkup toggled. subst toggled.
  unfold toggleTheme, initTheme, reloaded, isDark in *. cbn in *.
  destruct (match dataTheme p with
            | Some t => String.eqb t "dark"
            | None => false
            end); cbn; rewrite ?Hmarkup; repeat split.
Qed.

Lemma toggled_theme_survives_reload_witness :
  let toggled := toggleTheme (mkPage None None) in
  isDark toggled = negb (isDark (mkPage None None)) /\
  storedTheme toggled = dataTheme toggled /\
  isDark (initTheme false (reloaded None toggled)) = isDark toggled.
Proof.
  apply (toggled_theme_survives_reload false None (mkPage None None)).
  reflexivity.
Defined.

(** Without a stored choice the system preference decides. *)
Lemma initTheme_follows_system (prefersDark : bool) (markup : option string) :
  isDark (mkPage markup None) = false ->
  isDark (initTheme prefersDark (mkPage markup None)) = prefersDark.
Proof.
  intro H. unfold initTheme. cbn. destruct prefersDark; [reflexivity | exact H].
Qed.

End ThemeProofs.

(** ** More on the PDF tools *)
Module PdfMoreProofs.
Import PdfTools PdfMore PdfToolsProofs.

(** *** Choosing and losing a file *)

(** X16: [handleFileSelect] takes a PDF of up to 100 MB, the limit
    included, and shows its panels; any other file changes neither the
    state nor the panels and raises one alert. *)
Theorem handleFileSelect_gate (f : file) (w : world) :
  let w' := handleFileSelect (Some f) w in
  (type f = "application/pdf" -> (size f <= 104857600)%N ->
   file_of (st w') = Some f /\ originalSize (st w') = size f /\
   dropZoneHidden (compress w') = true /\
   fileInfoHidden (compress w') = false /\
   settingsPanelHidden (compress w') = false /\
   resultsSectionHidden (compress w') = true /\
   alerts w' = alerts w) /\
  (type f <> "application/pdf" \/ (104857600 < size f)%N ->
   st w' = st w /\ compress w' = compress w /\
   exists msg, alerts w' = alerts w ++ [msg]).
Proof.
  intro w'. subst w'. unfold handleFileSelect. split.
  - intros Htype Hsize. apply String.eqb_eq in Htype. rewrite Htype.
    cbn [negb].
    assert ((100 * 1024 * 1024 <? size f)%N = false) as ->
        by (apply N.ltb_ge; exact Hsize).
    repeat split.
  - intros [Htype | Hsize].
    + apply String.eqb_neq in Htype. rewrite Htype. cbn.
      repeat split. eexists. reflexivity.
    + destruct (negb _); [cbn; repeat split; eexists; reflexivity |].
      assert ((100 * 1024 * 1024 <? size f)%N = true) as ->
          by (apply N.ltb_lt; exact Hsize).
      cbn. repeat split. eexists. reflexivity.
Qed.

Lemma handleFileSelect_gate_witness :
  let f := mkFile "scan.pdf" "application/pdf" 104857600 in
  let w' := handleFileSelect (Some f) sampleStart in
  file_of (st w') = Some f /\ originalSize (st w') = size f /\
  dropZoneHidden (compress w') = true /\
  fileInfoHidden (compress w') = false /\
  settingsPanelHidden (compress w') = false /\
  resultsSectionHidden (compress w') = true /\
  alerts w' = alerts sampleStart.
Proof.
  apply (handleFileSelect_gate
           (mkFile "scan.pdf" "application/pdf" 104857600) sampleStart).
  - reflexivity.
  - vm_compute. discriminate.
Defined.

(** X17: a compression that throws ends in the state of a page without
    a file: file, blob and sizes are cleared, the drop zone is back and
    every other panel is hidden, the button is enabled again, and one
    alert was raised. *)
Theorem failed_compression_rolls_back (w : world) (f : file) :
  file_of (st w) = Some f ->
  isProcessing (st w) = false ->
  let w' := compressPDF Failed w in
  file_of (st w') = None /\ compressedBlob (st w') = None /\
  originalSize (st w') = 0%N /\ compressedSize (st w') = 0%N /\
  isProcessing (st w') = false /\
  images (st w') = images (st w) /\
  imagePdfBlob (st w') = imagePdfBlob (st w) /\
  dropZoneHidden (compress w') = false /\
  fileInfoHidden (compress w') = true /\
  settingsPanelHidden (compress w') = true /\
  progressSectionHidden (compress w') = true /\
  resultsSectionHidden (compress w') = true /\
  compressBtnDisabled (compress w') = false /\
  alerts w'
    = alerts w
      ++ ["An error occurred while compressing the PDF. Please try again."].
Proof.
  intros Hfile Hidle w'. subst w'. unfold compressPDF.
  rewrite Hfile, Hidle. cbn. repeat split.
Qed.

Lemma failed_compression_rolls_back_witness :
  let w := handleFileSelect (Some samplePdf) sampleStart in
  let w' := compressPDF Failed w in
  file_of (st w') = None /\ compressedBlob (st w') = None /\
  originalSize (st w') = 0%N /\ compressedSize (st w') = 0%N /\
  isProcessing (st w') = false /\
  images (st w') = images (st w) /\
  imagePdfBlob (st w') = imagePdfBlob (st w) /\
  dropZoneHidden (compress w') = false /\
  fileInfoHidden (compress w') = true /\
  settingsPanelHidden (compress w') = true /\
  progressSectionHidden (compress w') = true /\
  resultsSectionHidden (compress w') = true /\
  compressBtnDisabled (compress w') = false /\
  alerts w'
    = alerts w
      ++ ["An error occurred while compressing the PDF. Please try again."].
Proof.
  apply (failed_compression_rolls_back
           (handleFileSelect (Some samplePdf) sampleStart) samplePdf);
    reflexivity.
Defined.

(** *** The savings badge *)

Lemma toFixed0_nonneg (v : Q) : 0 <= v -> Js.toFixed0 v = Qfloor (v + (1 # 2)).
Proof.
  intro H. unfold Js.toFixed0. apply JsFacts.lt_false in H. rewrite H.
  reflexivity.
Qed.

Lemma floor_lt (q : Q) (z : Z) : q < inject_Z z -> (Qfloor q < z)%Z.
Proof.
  intro H. rewrite Zlt_Qlt. pose proof (Qfloor_le q). lra.
Qed.

(** X18: an output that is not larger than the input is called smaller
    only from half a percent of savings on, with a percentage between 1
    and 100 and no tip; below that the badge reads "0% larger" and the
    tip is shown. *)
Theorem savings_badge_threshold (w : world) :
  let original := originalSize (st w) in
  let compressed := compressedSize (st w) in
  (0 < original)%N ->
  (compressed <= original)%N ->
  let w' := showResults w in
  ((original <= 200 * (original - compressed))%N ->
   exists n, savingsBadge (compress w') = Some (Smaller n) /\
             (1 <= n <= 100)%Z /\ resultTip (compress w') = None) /\
  ((200 * (original - compressed) < original)%N ->
   savingsBadge (compress w') = Some (Larger (Some 0%Z)) /\
   resultTip (compress w') <> None).
Proof.
  intros original compressed Hpos Hle w'. subst w'.
  unfold showResults. fold original compressed.
  set (o := inject_Z (Z.of_N original)).
  set (c := inject_Z (Z.of_N compressed)).
  assert (0 < o) as Ho
      by (unfold o; change 0 with (inject_Z 0); rewrite <- Zlt_Qlt; lia).
  assert (0 <= c) as Hc
      by (unfold c; change 0 with (inject_Z 0); rewrite <- Zle_Qle; lia).
  assert (c <= o) as Hco by (unfold c, o; rewrite <- Zle_Qle; lia).
  assert (c / o <= 1) as Hq1 by (apply Qle_shift_div_r; lra).
  assert (0 <= c / o) as Hq0 by (apply Qle_shift_div_l; lra).
  assert (savings original compressed
          = Some (Qfloor ((1 - c / o) * 100 + (1 # 2)))) as Esav.
  { unfold savings. fold o c. rewrite JsFacts.div_finite by lra.
    f_equal. apply toFixed0_nonneg. lra. }
  rewrite Esav. clear Esav.
  assert (c == c / o * o) as Ec by (field; lra).
  set (v := (1 - c / o) * 100 + (1 # 2)).
  assert (v < 101) as Hv by (unfold v; lra).
  assert (Qfloor v <= 100)%Z as Hhi
      by (pose proof (floor_lt v 101 Hv); lia).
  split; intro Hth.
  - assert (o <= 200 * (o - c)) as Hq.
    { unfold o, c, Qminus.
      change 200 with (inject_Z 200).
      rewrite <- inject_Z_opp, <- inject_Z_plus, <- inject_Z_mult, <- Zle_Qle.
      lia. }
    assert (1 <= Qfloor v)%Z as Hlo.
    { apply JsFacts.floor_ge. change (inject_Z 1) with 1. unfold v. nra. }
    assert ((0 <? Qfloor v)%Z = true) as -> by (apply Z.ltb_lt; lia).
    cbn. exists (Qfloor v). repeat split; lia.
  - assert (200 * (o - c) < o) as Hq.
    { unfold o, c, Qminus.
      change 200 with (inject_Z 200).
      rewrite <- inject_Z_opp, <- inject_Z_plus, <- inject_Z_mult, <- Zlt_Qlt.
      lia. }
    assert (Qfloor v = 0)%Z as ->.
    { assert (v < 1) as Hv1 by (unfold v; nra).
      pose proof (floor_lt v 1 Hv1).
      assert (0 <= Qfloor v)%Z
        by (apply JsFacts.floor_ge; change (inject_Z 0) with 0; unfold v; lra).
      lia. }
    cbn. split; [reflexivity |].
    destruct (String.eqb _ _); discriminate.
Qed.

Lemma savings_badge_threshold_witness :
  let w := mkWorld (mkState (Some samplePdf) (Some 996%N) 1000 996 false [] None)
             (compress sampleStart) (imagesUi sampleStart) [] in
  let w' := showResults w in
  ((1000 <= 200 * (1000 - 996))%N ->
   exists n, savingsBadge (compress w') = Some (Smaller n) /\
             (1 <= n <= 100)%Z /\ resultTip (compress w') = None) /\
  ((200 * (1000 - 996) < 1000)%N ->
   savingsBadge (compress w') = Some (Larger (Some 0%Z)) /\
   resultTip (compress w') <> None).
Proof.
  apply (savings_badge_threshold
           (mkWorld (mkState (Some samplePdf) (Some 996%N) 1000 996 false []
                       None)
              (compress sampleStart) (imagesUi sampleStart) [])).
  - reflexivity.
  - vm_compute. discriminate.
Defined.

(** *** Images to pages *)

(** The sides of the canvas [compressImage] encodes, for an image of [w]
    by [h] pixels. *)
Lemma compressImage_sides (w h : positive) :
  let c := compressImage (inject_Z (Z.pos w)) (inject_Z (Z.pos h)) in
  (fst c <= 2000 /\ snd c <= 2000 /\
   fst c <= Z.pos w /\ snd c <= Z.pos h /\
   (Z.pos w <= 2000 * Z.pos h -> Z.pos h <= 2000 * Z.pos w ->
    1 <= fst c /\ 1 <= snd c) /\
   (Z.pos w <= 2000 -> Z.pos h <= 2000 -> c = (Z.pos w, Z.pos h)) /\
   (2000 < Z.pos w \/ 2000 < Z.pos h -> Z.max (fst c) (snd c) = 2000) /\
   (2000 * Z.pos w < Z.pos h -> c = (0, 2000)) /\
   (2000 * Z.pos h < Z.pos w -> c = (2000, 0)))%Z.
Proof.
  intro c. subst c. unfold compressImage. cbv zeta.
  set (W := inject_Z (Z.pos w)). set (H := inject_Z (Z.pos h)).
  assert (0 < W) as HW by apply JsFacts.inject_pos.
  assert (0 < H) as HH by apply JsFacts.inject_pos.
  assert (forall z : Z, (Z.pos w <= z)%Z <-> W <= inject_Z z) as Lw
      by (intro z; unfold W; rewrite Zle_Qle; reflexivity).
  assert (forall z : Z, (Z.pos h <= z)%Z <-> H <= inject_Z z) as Lh
      by (intro z; unfold H; rewrite Zle_Qle; reflexivity).
  assert (Js.trunc W = Z.pos w) as TW
      by (rewrite JsFacts.trunc_nonneg by lra; apply Qfloor_Z).
  assert (Js.trunc H = Z.pos h) as TH
      by (rewrite JsFacts.trunc_nonneg by lra; apply Qfloor_Z).
  assert (Js.trunc 2000 = 2000%Z) as T2 by reflexivity.
  destruct (Js.gt W 2000 || Js.gt H 2000) eqn:Ebig.
  - destruct (Js.gt W H) eqn:Ewide; js_tests.
    + (* wider than tall: the width becomes 2000 *)
      assert (2000 < W) as HbigW.
      { apply orb_true_iff in Ebig as [E | E]; js_tests; lra. }
      set (q := H / W).
      assert (q * W == H) as Eq by (unfold q; field; lra).
      assert (0 < q) as Hq0 by (unfold q; apply Qlt_shift_div_l; lra).
      assert (q < 1) as Hq1 by (unfold q; apply Qlt_shift_div_r; lra).
      rewrite (JsFacts.trunc_nonneg (q * 2000)) by nra. rewrite T2.
      cbn [fst snd].
      assert (Qfloor (q * 2000) < 2000)%Z as Hlt
          by (apply floor_lt; change (inject_Z 2000) with 2000; lra).
      assert (Qfloor (q * 2000) <= Z.pos h)%Z as Hleh.
      { rewrite <- (Qfloor_Z (Z.pos h)). apply Qfloor_resp_le. fold H. nra. }
      assert (2000 < Z.pos w)%Z as HbigZ
          by (rewrite Zlt_Qlt; exact HbigW).
      assert (Z.pos h < Z.pos w)%Z as HwideZ
          by (rewrite Zlt_Qlt; exact Ewide).
      assert (0 <= Qfloor (q * 2000))%Z as Hnn
          by (apply JsFacts.floor_ge; change (inject_Z 0) with 0; nra).
      repeat match goal with |- _ /\ _ => split end; try lia.
      * intros Hr _. split; [lia |].
        apply JsFacts.floor_ge. change (inject_Z 1) with 1.
        assert (W <= 2000 * H) as Hr'.
        { unfold W, H. change 2000 with (inject_Z 2000).
          rewrite <- inject_Z_mult, <- Zle_Qle. exact Hr. }
        nra.
      * intros Hthin. f_equal.
        assert (2000 * H < W) as Hr'.
        { unfold W, H. change 2000 with (inject_Z 2000).
          rewrite <- inject_Z_mult, <- Zlt_Qlt. exact Hthin. }
        assert (q * 2000 < 1) as Hone by nra.
        pose proof (floor_lt (q * 2000) 1 Hone). lia.
    + (* at least as tall as wide: the height becomes 2000 *)
      assert (2000 < H) as HbigH.
      { apply orb_true_iff in Ebig as [E | E]; js_tests; lra. }
      set (q := W / H).
      assert (q * H == W) as Eq by (unfold q; field; lra).
      assert (0 < q) as Hq0 by (unfold q; apply Qlt_shift_div_l; lra).
      assert (q <= 1) as Hq1 by (unfold q; apply Qle_shift_div_r; lra).
      rewrite (JsFacts.trunc_nonneg (q * 2000)) by nra. rewrite T2.
      cbn [fst snd].
      assert (Qfloor (q * 2000) < 2001)%Z as Hlt
          by (apply floor_lt; change (inject_Z 2001) with 2001; lra).
      assert (Qfloor (q * 2000) <= Z.pos w)%Z as Hlew.
      { rewrite <- (Qfloor_Z (Z.pos w)). apply Qfloor_resp_le. fold W. nra. }
      assert (2000 < Z.pos h)%Z as HbigZ
          by (rewrite Zlt_Qlt; exact HbigH).
      assert (Z.pos w <= Z.pos h)%Z as HtallZ
          by (rewrite Zle_Qle; exact Ewide).
      assert (0 <= Qfloor (q * 2000))%Z as Hnn
          by (apply JsFacts.floor_ge; change (inject_Z 0) with 0; nra).
      repeat match goal with |- _ /\ _ => split end; try lia.
      * intros _ Hr. split; [| lia].
        apply JsFacts.floor_ge. change (inject_Z 1) with 1.
        assert (H <= 2000 * W) as Hr'.
        { unfold W, H. change 2000 with (inject_Z 2000).
          rewrite <- inject_Z_mult, <- Zle_Qle. exact Hr. }
        nra.
      * intros Hthin. f_equal.
        assert (2000 * W < H) as Hr'.
        { unfold W, H. change 2000 with (inject_Z 2000).
          rewrite <- inject_Z_mult, <- Zlt_Qlt. exact Hthin. }
        assert (q * 2000 < 1) as Hone by nra.
        pose proof (floor_lt (q * 2000) 1 Hone). lia.
  - apply orb_false_iff in Ebig as [EW EH]. js_tests.
    rewrite TW, TH. cbn [fst snd].
    assert (Z.pos w <= 2000)%Z by (apply Lw; exact EW).
    assert (Z.pos h <= 2000)%Z by (apply Lh; exact EH).
    repeat match goal with |- _ /\ _ => split end; try lia; try reflexivity.
    all: intros; try reflexivity; try lia.
Qed.

(** X19: the canvas [compressImage] encodes is never larger than the
    image nor than 2000 pixels on a side; an image within 2000 pixels is
    encoded at its own size, a larger one with its longer side at 2000;
    both sides are at least one pixel unless one side of the image is
    more than 2000 times the other, and then the short side of the
    canvas is 0. *)
Theorem compressImage_canvas (w h : positive) :
  let c := compressImage (inject_Z (Z.pos w)) (inject_Z (Z.pos h)) in
  (fst c <= Z.min 2000 (Z.pos w) /\ snd c <= Z.min 2000 (Z.pos h) /\
   (Z.pos w <= 2000 -> Z.pos h <= 2000 -> c = (Z.pos w, Z.pos h)) /\
   (2000 < Z.pos w \/ 2000 < Z.pos h -> Z.max (fst c) (snd c) = 2000) /\
   (Z.pos w <= 2000 * Z.pos h -> Z.pos h <= 2000 * Z.pos w ->
    1 <= fst c /\ 1 <= snd c) /\
   (2000 * Z.pos w < Z.pos h -> c = (0, 2000)) /\
   (2000 * Z.pos h < Z.pos w -> c = (2000, 0)))%Z.
Proof.
  intro c. subst c.
  destruct (compressImage_sides w h)
    as (A & B & C & D & E & F & G & I & J).
  repeat match goal with |- _ /\ _ => split end; try assumption; lia.
Qed.

Lemma compressImage_canvas_witness :
  let c := compressImage 4000 3000 in
  (fst c <= Z.min 2000 4000 /\ snd c <= Z.min 2000 3000 /\
   (4000 <= 2000 -> 3000 <= 2000 -> c = (4000, 3000)) /\
   (2000 < 4000 \/ 2000 < 3000 -> Z.max (fst c) (snd c) = 2000) /\
   (4000 <= 2000 * 3000 -> 3000 <= 2000 * 4000 ->
    1 <= fst c /\ 1 <= snd c) /\
   (2000 * 4000 < 3000 -> c = (0, 2000)) /\
   (2000 * 3000 < 4000 -> c = (2000, 0)))%Z.
Proof. exact (compressImage_canvas 4000 3000). Defined.

Lemma geometry_offered (pageSize : string) (imgWidth imgHeight : Q) :
  In pageSize knownSizes -> geometry pageSize imgWidth imgHeight <> None.
Proof.
  unfold knownSizes. simpl.
  intros [<- | [<- | [<- | [<- | []]]]]; unfold geometry.
  - discriminate.
  - change (pageSizes !! "a4") with (Some (210, 297) : option (Q * Q)).
    cbv iota beta zeta. change (String.eqb "a4" "fit") with false.
    cbv iota. destruct (Js.gt _ _); discriminate.
  - change (pageSizes !! "letter") with (Some (215.9, 279.4) : option (Q * Q)).
    change (String.eqb "letter" "fit") with false.
    cbv iota beta zeta. destruct (Js.gt _ _); discriminate.
  - change (pageSizes !! "legal") with (Some (215.9, 355.6) : option (Q * Q)).
    change (String.eqb "legal" "fit") with false.
    cbv iota beta zeta. destruct (Js.gt _ _); discriminate.
Qed.

Lemma processImage_offered (pageSize : string) (quality : Q)
  (img : imageEntry) (w h : positive) :
  decoded img = Some (w, h) ->
  In pageSize knownSizes ->
  exists p, processImage pageSize quality img = Some p /\
            payload p = compressImage (inject_Z (Z.pos w))
                          (inject_Z (Z.pos h)) /\
            jpegQuality p = quality.
Proof.
  intros Hd Hin. unfold processImage. rewrite Hd.
  pose proof (geometry_offered pageSize (inject_Z (Z.pos w))
                (inject_Z (Z.pos h)) Hin) as Hg.
  destruct (geometry pageSize _ _) as [[[pw ph] [[[ix iy] fw] fh]] |];
    [| congruence].
  eexists. split; [reflexivity |]. split; reflexivity.
Qed.

Lemma assemble_offered (pageSize : string) (quality : Q)
  (imgs : list imageEntry) :
  In pageSize knownSizes ->
  Forall drawable imgs ->
  exists pages,
    assemble pageSize quality imgs = Some pages /\
    length pages = length imgs /\
    Forall (fun p => (1 <= fst (payload p) <= 2000)%Z /\
                     (1 <= snd (payload p) <= 2000)%Z /\
                     jpegQuality p = quality) pages.
Proof.
  intros Hin Hall. induction Hall as [| img rest Himg _ IH].
  - exists []. repeat split. constructor.
  - destruct Himg as (w & h & Hd & Hr1 & Hr2).
    destruct (processImage_offered pageSize quality img w h Hd Hin)
      as (p & Ep & Epay & Eq).
    destruct IH as (ps & Eps & Elen & Hps).
    exists (p :: ps). simpl. rewrite Ep, Eps.
    split; [reflexivity |]. split; [simpl; congruence |].
    constructor; [| exact Hps].
    rewrite Epay.
    destruct (compressImage_sides w h)
      as (A & B & C & D & E & _).
    destruct (E Hr1 Hr2). repeat split; try lia. exact Eq.
Qed.

(** X20: with a page size the code knows, a list of decodable images
    of ordinary proportions always becomes a document: one page per
    image, each carrying a canvas of 1 to 2000 pixels a side at the
    quality of the slider; the results are shown and nothing is
    alerted. *)
Theorem drawable_images_make_one_page_each (w : world) :
  images (st w) <> [] ->
  isProcessing (st w) = false ->
  In (pageSizeSelect (imagesUi w)) knownSizes ->
  Forall drawable (images (st w)) ->
  let w' := createPdfFromImages w in
  exists pages,
    imagePdfBlob (st w') = Some pages /\
    length pages = length (images (st w)) /\
    Forall (fun p =>
              (1 <= fst (payload p) <= 2000)%Z /\
              (1 <= snd (payload p) <= 2000)%Z /\
              jpegQuality p == inject_Z (imgQualitySlider (imagesUi w)) / 100)
      pages /\
    imageResultsSectionHidden (imagesUi w') = false /\
    imageProgressSectionHidden (imagesUi w') = true /\
    isProcessing (st w') = false /\
    alerts w' = alerts w.
Proof.
  intros Himgs Hidle Hsize Hall w'. subst w'.
  destruct (assemble_offered (pageSizeSelect (imagesUi w))
              (inject_Z (imgQualitySlider (imagesUi w)) / 100)
              (images (st w)) Hsize Hall) as (pages & Ea & Elen & Hpages).
  exists pages. unfold createPdfFromImages.
  destruct (images (st w)) as [| img rest] eqn:Eimgs; [congruence |].
  rewrite Hidle. cbv zeta. rewrite Ea. cbn.
  repeat match goal with |- _ /\ _ => split end; try reflexivity.
  - exact Elen.
  - eapply List.Forall_impl; [| exact Hpages].
    intros p (A & B & C). rewrite C. split; [exact A | split; [exact B |]].
    reflexivity.
Qed.

Lemma drawable_images_make_one_page_each_witness :
  let w := mkWorld (mkState None None 0 0 false [samplePhoto; samplePhoto] None)
             (compress sampleStart) (imagesUi sampleStart) [] in
  let w' := createPdfFromImages w in
  exists pages,
    imagePdfBlob (st w') = Some pages /\
    length pages = length (images (st w)) /\
    Forall (fun p =>
              (1 <= fst (payload p) <= 2000)%Z /\
              (1 <= snd (payload p) <= 2000)%Z /\
              jpegQuality p == inject_Z (imgQualitySlider (imagesUi w)) / 100)
      pages /\
    imageResultsSectionHidden (imagesUi w') = false /\
    imageProgressSectionHidden (imagesUi w') = true /\
    isProcessing (st w') = false /\
    alerts w' = alerts w.
Proof.
  apply (drawable_images_make_one_page_each
           (mkWorld
              (mkState None None 0 0 false [samplePhoto; samplePhoto] None)
              (compress sampleStart) (imagesUi sampleStart) [])).
  - discriminate.
  - reflexivity.
  - right. left. reflexivity.
  - repeat constructor; exists 1600%positive, 1200%positive;
      (split; [reflexivity | split; vm_compute; discriminate]).
Defined.

(** X21: one image that cannot be decoded aborts the whole document:
    the blob in the state stays the one of the last success, the list
    of images is shown again unchanged, and one alert is raised. *)
Theorem undecodable_image_aborts_document (w : world) (img : imageEntry) :
  isProcessing (st w) = false ->
  In img (images (st w)) ->
  decoded img = None ->
  let w' := createPdfFromImages w in
  imagePdfBlob (st w') = imagePdfBlob (st w) /\
  images (st w') = images (st w) /\
  isProcessing (st w') = false /\
  imageListHidden (imagesUi w') = false /\
  imageProgressSectionHidden (imagesUi w') = true /\
  imageResultsSectionHidden (imagesUi w')
    = imageResultsSectionHidden (imagesUi w) /\
  compress w' = compress w /\
  alerts w'
    = alerts w
      ++ ["An error occurred while creating the PDF. Please try again."].
Proof.
  intros Hidle Hin Hd w'. subst w'. unfold createPdfFromImages.
  assert (assemble (pageSizeSelect (imagesUi w))
            (inject_Z (imgQualitySlider (imagesUi w)) / 100)
            (images (st w)) = None) as Ea.
  { apply (assemble_aborts _ _ _ img Hin).
    unfold processImage. rewrite Hd. reflexivity. }
  destruct (images (st w)) as [| first rest] eqn:Eimgs; [destruct Hin |].
  rewrite Hidle. cbv zeta. rewrite Ea. cbn. repeat split.
Qed.

Lemma undecodable_image_aborts_document_witness :
  let broken := mkImageEntry "broken.png" None in
  let w := mkWorld
             (mkState None None 0 0 false [samplePhoto; broken]
                (Some []))
             (compress sampleStart) (imagesUi sampleStart) [] in
  let w' := createPdfFromImages w in
  imagePdfBlob (st w') = imagePdfBlob (st w) /\
  images (st w') = images (st w) /\
  isProcessing (st w') = false /\
  imageListHidden (imagesUi w') = false /\
  imageProgressSectionHidden (imagesUi w') = true /\
  imageResultsSectionHidden (imagesUi w')
    = imageResultsSectionHidden (imagesUi w) /\
  compress w' = compress w /\
  alerts w'
    = alerts w
      ++ ["An error occurred while creating the PDF. Please try again."].
Proof.
  apply (undecodable_image_aborts_document
           (mkWorld
              (mkState None None 0 0 false
                 [samplePhoto; mkImageEntry "broken.png" None] (Some []))
              (compress sampleStart) (imagesUi sampleStart) [])
           (mkImageEntry "broken.png" None)).
  - reflexivity.
  - right. left. reflexivity.
  - reflexivity.
Defined.

(** X22: a page of a named size is always a portrait page, whatever the
    shape of the image; a page fitted to the image is a landscape page
    exactly when the image is wider than tall. *)
Theorem page_orientation_follows_page_not_image
  (pageSize : string) (quality : Q) (img : imageEntry) (w h : positive)
  (p : page) :
  decoded img = Some (w, h) ->
  processImage pageSize quality img = Some p ->
  (pageSize <> "fit" -> pageOrientation p = Portrait) /\
  (pageSize = "fit" ->
   pageOrientation p = if (Z.pos h <? Z.pos w)%Z then Landscape else Portrait).
Proof.
  intros Hd Hp. unfold processImage in Hp. rewrite Hd in Hp.
  set (W := inject_Z (Z.pos w)) in *. set (H := inject_Z (Z.pos h)) in *.
  split; intro Hs.
  - unfold geometry in Hp.
    apply String.eqb_neq in Hs. rewrite Hs in Hp.
    destruct (pageSizes !! pageSize) as [[pw ph] |] eqn:El; [| discriminate].
    assert (pw <= ph) as Hle.
    { apply elem_of_list_to_map_2 in El.
      repeat (apply elem_of_cons in El as [El | El];
              [injection El as -> -> ->; apply Qle_bool_iff; reflexivity |]).
      apply elem_of_nil in El. destruct El. }
    cbv zeta in Hp. destruct (Js.gt (W / H) _) in Hp;
      injection Hp as <-; cbn [pageOrientation];
      apply JsFacts.lt_false in Hle; unfold Js.gt; rewrite Hle; reflexivity.
  - subst pageSize. unfold geometry in Hp.
    change (String.eqb "fit" "fit") with true in Hp. cbv iota zeta in Hp.
    injection Hp as <-. cbn [pageOrientation].
    assert (forall a : Q, a / 96 * 25.4 == a * (254 # 960)) as Emm
        by (intro a; field).
    destruct (Z.pos h <? Z.pos w)%Z eqn:E.
    + apply Z.ltb_lt in E. rewrite Zlt_Qlt in E. fold W H in E.
      assert (Js.gt (W / 96 * 25.4) (H / 96 * 25.4) = true) as ->
          by (unfold Js.gt; apply JsFacts.lt_true; rewrite !Emm; lra).
      reflexivity.
    + apply Z.ltb_ge in E. rewrite Zle_Qle in E. fold W H in E.
      assert (Js.gt (W / 96 * 25.4) (H / 96 * 25.4) = false) as ->
          by (unfold Js.gt; apply JsFacts.lt_false; rewrite !Emm; lra).
      reflexivity.
Qed.

Lemma page_orientation_follows_page_not_image_witness :
  exists p,
    processImage "a4" (85 # 100) samplePhoto = Some p /\
    pageOrientation p = Portrait.
Proof.
  destruct (processImage "a4" (85 # 100) samplePhoto) as [p |] eqn:Ep;
    [| vm_compute in Ep; discriminate].
  exists p. split; [reflexivity |].
  apply (page_orientation_follows_page_not_image "a4" (85 # 100)
           samplePhoto 1600 1200 p eq_refl Ep).
  discriminate.
Defined.


(** *** The pages of the document *)

Lemma processImage_agrees (pageSize : string) (quality : Q)
  (img : imageEntry) (p : page) :
  processImage pageSize quality img = Some p -> agrees p.
Proof.
  unfold processImage, agrees.
  destruct (decoded img) as [[w h] |]; [| discriminate].
  destruct (geometry _ _ _) as [[[pw ph] [[[ix iy] fw] fh]] |];
    [| discriminate].
  intro H. injection H as <-. cbn.
  destruct (Js.gt pw ph) eqn:E; js_tests; assumption.
Qed.

Lemma named_is_portrait (name : string) (pw ph : Q) :
  In (name, (pw, ph)) namedSizes -> pw <= ph.
Proof.
  unfold namedSizes. simpl.
  intros [H | [H | [H | []]]]; injection H as <- <- <-;
    apply Qle_bool_iff; reflexivity.
Qed.

Lemma processImage_pageOf (pageSize : string) (quality : Q)
  (img : imageEntry) (p : page) :
  processImage pageSize quality img = Some p -> pageOf pageSize img p.
Proof.
  intro Hp. pose proof (processImage_agrees _ _ _ _ Hp) as Hag.
  destruct (decoded img) as [[w h] |] eqn:Hdec;
    [| unfold processImage in Hp; rewrite Hdec in Hp; discriminate].
  destruct (processImage_geometry quality img w h Hdec)
    as (Hfit & Hnamed & _).
  exists w, h. split; [exact Hdec |]. cbv zeta.
  split; [exact Hag |]. split.
  - intros ->. destruct Hfit as (p' & Ep' & Hfacts).
    rewrite Hp in Ep'. injection Ep' as <-. exact Hfacts.
  - intros pw ph Hin.
    destruct (Hnamed pageSize pw ph Hin) as (p' & Ep' & Hw & Hh & Hfacts).
    rewrite Hp in Ep'. injection Ep' as <-.
    split; [exact Hw |]. split; [exact Hh |]. split; [| exact Hfacts].
    pose proof (named_is_portrait pageSize pw ph Hin) as Hle.
    unfold agrees in Hag.
    destruct (pageOrientation p); [| reflexivity].
    rewrite Hw, Hh in Hag. lra.
Qed.

(** C8: a run of [createPdfFromImages] that goes through without an
    alert stores a document with one page per image, in list order.  In
    "fit" mode the page of an image is the image at 96 DPI in
    millimetres, with the image all over it from (0, 0); under a named
    size it is a portrait page of that size, whatever the shape of the
    image, and the image takes the largest size that fits the page less
    10 mm on each side and keeps its aspect ratio, centered in that box
    on both axes.  The orientation handed to jsPDF agrees with the
    format, so the format is the size of the page.  The run goes
    through for every list of images that decode and are not more than
    2000 times longer than wide or wider than long; for A4 the box is
    190 by 277 mm. *)
Theorem document_page_geometry (w : world) :
  images (st w) <> [] ->
  isProcessing (st w) = false ->
  let w' := createPdfFromImages w in
  let pageSize := pageSizeSelect (imagesUi w) in
  (alerts w' = alerts w ->
   exists pages,
     imagePdfBlob (st w') = Some pages /\
     Forall2 (pageOf pageSize) (images (st w)) pages) /\
  (In pageSize knownSizes -> Forall drawable (images (st w)) ->
   alerts w' = alerts w) /\
  (exists pw ph, In ("a4", (pw, ph)) namedSizes /\
                 pw == 210 /\ ph == 297 /\
                 pw - 20 == 190 /\ ph - 20 == 277).
Proof.
  intros Himgs Hidle w' pageSize.
  pose proof (createPdfFromImages_document w Himgs Hidle) as Hdoc.
  cbv zeta in Hdoc. fold w' pageSize in Hdoc.
  split; [| split].
  - intro Hquiet.
    destruct (assemble pageSize _ (images (st w))) as [pages |].
    + destruct Hdoc as (Hblob & Hpages & _).
      exists pages. split; [exact Hblob |].
      eapply Forall2_impl; [exact Hpages |].
      intros img p Hp. eapply processImage_pageOf, Hp.
    + destruct Hdoc as [_ Hloud]. contradiction.
  - intros Hsize Hall.
    destruct (assemble_offered pageSize
                (inject_Z (imgQualitySlider (imagesUi w)) / 100)
                (images (st w)) Hsize Hall) as (pages & Ea & _).
    rewrite Ea in Hdoc. destruct Hdoc as (_ & _ & Hquiet). exact Hquiet.
  - exists 210, 297. conjuncts; try reflexivity. left. reflexivity.
Qed.

Lemma document_page_geometry_witness :
  let w := sampleTab "a4" in
  let w' := createPdfFromImages w in
  (alerts w' = alerts w ->
   exists pages,
     imagePdfBlob (st w') = Some pages /\
     Forall2 (pageOf "a4") (images (st w)) pages) /\
  (In "a4" knownSizes -> Forall drawable (images (st w)) ->
   alerts w' = alerts w) /\
  (exists pw ph, In ("a4", (pw, ph)) namedSizes /\
                 pw == 210 /\ ph == 297 /\
                 pw - 20 == 190 /\ ph - 20 == 277).
Proof.
  apply (document_page_geometry (sampleTab "a4")).
  - discriminate.
  - reflexivity.
Defined.

(** Three images of different shapes on A4: three portrait pages of
    210 by 297 mm, each image within the box of 190 by 277 mm. *)
Example three_images_on_a4 :
  exists p1 p2 p3,
    imagePdfBlob (st (createPdfFromImages (sampleTab "a4")))
    = Some [p1; p2; p3] /\
    Forall (fun p => pageWidth p == 210 /\ pageHeight p == 297 /\
                     pageOrientation p = Portrait /\
                     10 <= imgX p /\ imgX p + imgFinalWidth p <= 200 /\
                     10 <= imgY p /\ imgY p + imgFinalHeight p <= 287)
      [p1; p2; p3] /\
    imgFinalWidth p1 == 190 /\ imgFinalHeight p1 == 142.5 /\
    imgFinalWidth p2 == 155.8125 /\ imgFinalHeight p2 == 277 /\
    imgFinalWidth p3 == 190 /\ imgFinalHeight p3 == 190.
Proof.
  eexists _, _, _. split; [vm_compute; reflexivity |].
  split.
  - repeat constructor; try reflexivity;
      apply Qle_bool_iff; vm_compute; reflexivity.
  - conjuncts; vm_compute; reflexivity.
Qed.

End PdfMoreProofs.

(** ** Choosing an image *)
Module IntakeProofs.
Import Watermark Intake.
Local Open Scope string_scope.

Lemma toLowerCase_app (a b : string) :
  toLowerCase (a ++ b) = toLowerCase a ++ toLowerCase b.
Proof.
  induction a as [| c a IH]; [reflexivity |].
  rewrite FileNameProofs.append_cons. simpl toLowerCase.
  rewrite FileNameProofs.append_cons, IH. reflexivity.
Qed.

Lemma length_app_string (a b : string) :
  String.length (a ++ b) = (String.length a + String.length b)%nat.
Proof.
  induction a as [| c a IH]; [reflexivity |].
  rewrite FileNameProofs.append_cons. simpl. rewrite IH. reflexivity.
Qed.

Lemma substring_whole (b : string) : substring 0 (String.length b) b = b.
Proof. induction b as [| c b IH]; simpl; [| rewrite IH]; reflexivity. Qed.

Lemma substring_tail (a b : string) :
  substring (String.length a) (String.length b) (a ++ b) = b.
Proof.
  induction a as [| c a IH]; [apply substring_whole |].
  rewrite FileNameProofs.append_cons. simpl. exact IH.
Qed.

Lemma endsWith_app (a b : string) : endsWith b (a ++ b) = true.
Proof.
  unfold endsWith. rewrite length_app_string.
  replace (String.length a + String.length b - String.length b)%nat
    with (String.length a) by lia.
  rewrite substring_tail, String.eqb_refl.
  rewrite andb_true_r. apply Nat.leb_le. lia.
Qed.

(** X23: a file whose name ends in [.heic] or [.heif], in any mix of
    upper and lower case, is taken as an image whatever its MIME
    type. *)
Theorem heic_extension_is_accepted_in_any_case (f : file) (stem ext : string) :
  name f = stem ++ ext ->
  toLowerCase ext = ".heic" \/ toLowerCase ext = ".heif" ->
  isHeicFile f = true /\ accepted f = true.
Proof.
  intros Hname Hext.
  assert (isHeicFile f = true) as Hh.
  { unfold isHeicFile. cbv zeta.
    destruct (existsb _ ["image/heic"; "image/heif"]); [reflexivity |].
    rewrite Hname, toLowerCase_app. cbn [existsb].
    destruct Hext as [-> | ->]; rewrite endsWith_app;
      [| rewrite orb_true_r]; reflexivity. }
  split; [exact Hh |]. unfold accepted. rewrite Hh. apply orb_true_r.
Qed.

Lemma heic_extension_is_accepted_in_any_case_witness :
  isHeicFile (mkFile "IMG_0042.HEIC" "") = true /\
  accepted (mkFile "IMG_0042.HEIC" "") = true.
Proof.
  apply (heic_extension_is_accepted_in_any_case
           (mkFile "IMG_0042.HEIC" "") "IMG_0042" ".HEIC").
  - reflexivity.
  - left. reflexivity.
Defined.

Section Selecting.

Variable measureText : font -> list N -> Q.
Variable sqrt : Q -> Q.

(** X24: [handleFileSelect] stores the name of a file it takes before
    the file is converted and decoded.  When the conversion fails or
    the data cannot be decoded, the image in the editor stays the one
    that was there, and its download is now named after the file that
    was never shown. *)
Theorem unshown_file_renames_download
  (f : file) (l : loading) (p : page) (img : image) :
  originalImage (st (world_of p)) = Some img ->
  accepted f = true ->
  (isHeicFile f = true /\ converts l = false) \/ decodes l = None ->
  exists p',
    handleFileSelect measureText sqrt (Some f) l p = Some p' /\
    originalImage (st (world_of p')) = Some img /\
    el (world_of p') = el (world_of p) /\
    dropZoneHidden p' = dropZoneHidden p /\
    editorPanelHidden p' = editorPanelHidden p /\
    downloadImage p' = Some (FileNames.watermarkedName (name f)).
Proof.
  intros Himg Hacc Hfail. unfold handleFileSelect. cbv zeta.
  unfold accepted in Hacc.
  assert (negb (String.prefix "image/" (type f)) && negb (isHeicFile f)
          = false) as ->.
  { apply orb_true_iff in Hacc as [-> | ->];
      [| rewrite andb_false_r]; reflexivity. }
  destruct Hfail as [[Hh Hc] | Hd].
  - rewrite Hh, Hc. cbn [andb negb]. eexists. split; [reflexivity |].
    unfold downloadImage. cbn. rewrite Himg. repeat split.
  - rewrite Hd.
    destruct (isHeicFile f && negb (converts l));
      (eexists; split; [reflexivity |]);
      unfold downloadImage; cbn; rewrite Himg; repeat split.
Qed.

End Selecting.

Lemma unshown_file_renames_download_witness :
  exists p',
    handleFileSelect sampleMeasure sampleSqrt
      (Some (mkFile "notes.png" "image/png")) (mkLoading true None)
      samplePage = Some p' /\
    originalImage (st (world_of p')) = Some (Decoded 640 480) /\
    el (world_of p') = el (world_of samplePage) /\
    dropZoneHidden p' = dropZoneHidden samplePage /\
    editorPanelHidden p' = editorPanelHidden samplePage /\
    downloadImage p' = Some "notes_watermarked.png".
Proof.
  apply (unshown_file_renames_download sampleMeasure sampleSqrt
           (mkFile "notes.png" "image/png") (mkLoading true None)
           samplePage (Decoded 640 480)).
  - reflexivity.
  - reflexivity.
  - right. reflexivity.
Defined.

End IntakeProofs.

(** ** Reordering the images *)
Module ImageListProofs.
Import ImageList.
Local Open Scope nat_scope.

Section Arrays.

Context {A : Type}.
Variable undefined : A.

(** A list around its element at index [d]. *)
Lemma around (l : list A) (d : nat) :
  d < length l ->
  exists x l1 l2, l = l1 ++ x :: l2 /\ length l1 = d.
Proof.
  intro Hd. destruct (lookup_lt_is_Some_2 l d Hd) as [x Hx].
  exists x, (take d l), (drop (S d) l). split.
  - symmetry. apply take_drop_middle, Hx.
  - rewrite length_take. lia.
Qed.

(** Taking the element at [d] out and setting it down at [t]. *)
Lemma reorder_parts (l1 l2 : list A) (x : A) (t : nat) :
  t <> length l1 ->
  handleImageDropReorder undefined (Some (length l1)) t (l1 ++ x :: l2)
  = take t (l1 ++ l2) ++ x :: drop t (l1 ++ l2).
Proof.
  intro Hne. unfold handleImageDropReorder, splice.
  assert ((length l1 =? t)%nat = false) as -> by (apply Nat.eqb_neq; lia).
  cbn [negb snd app].
  rewrite drop_app_length, take_app_length. cbn [take hd].
  rewrite <- drop_drop, drop_app_length. cbn [drop].
  rewrite Nat.add_0_r. reflexivity.
Qed.

Lemma removeImage_parts (l1 l2 : list A) (x : A) :
  removeImage (length l1) (l1 ++ x :: l2) = l1 ++ l2.
Proof.
  unfold removeImage, splice. cbn [snd app].
  rewrite take_app_length.
  rewrite <- drop_drop, drop_app_length. reflexivity.
Qed.

(** X25: dropping the image dragged from index [d] on the one at index
    [t] moves that one image to index [t]: the list keeps its elements,
    the image is found at [t], and the others keep their order. *)
Theorem reorder_moves_one_image (images : list A) (d t : nat) :
  d < length images ->
  t < length images ->
  let moved := handleImageDropReorder undefined (Some d) t images in
  moved ≡ₚ images /\
  moved !! t = images !! d /\
  removeImage t moved = removeImage d images.
Proof.
  intros Hd Ht moved. subst moved.
  destruct (decide (t = d)) as [-> | Hne].
  - unfold handleImageDropReorder. rewrite Nat.eqb_refl. cbn [negb].
    split; [reflexivity | split; reflexivity].
  - destruct (around images d Hd) as (x & l1 & l2 & -> & <-).
    rewrite reorder_parts by exact Hne.
    rewrite length_app in Ht. cbn [length] in Ht.
    assert (length (take t (l1 ++ l2)) = t) as Et
        by (rewrite length_take, length_app; lia).
    split; [| split].
    + rewrite <- Permutation_middle, take_drop.
      apply Permutation_middle.
    + rewrite lookup_app_r by lia. rewrite Et, Nat.sub_diag.
      rewrite lookup_app_r by lia. rewrite Nat.sub_diag. reflexivity.
    + rewrite removeImage_parts.
      rewrite <- Et at 1. rewrite removeImage_parts. apply take_drop.
Qed.

(** X26: dragging the image back from where it was dropped to where it
    came from restores the list. *)
Theorem reorder_back_restores_list (images : list A) (d t : nat) :
  d < length images ->
  t < length images ->
  handleImageDropReorder undefined (Some t) d
    (handleImageDropReorder undefined (Some d) t images)
  = images.
Proof.
  intros Hd Ht.
  destruct (decide (t = d)) as [-> | Hne].
  - unfold handleImageDropReorder. rewrite !Nat.eqb_refl. reflexivity.
  - destruct (around images d Hd) as (x & l1 & l2 & -> & <-).
    rewrite reorder_parts by exact Hne.
    rewrite length_app in Ht. cbn [length] in Ht.
    assert (length (take t (l1 ++ l2)) = t) as Et
        by (rewrite length_take, length_app; lia).
    rewrite <- Et at 1. rewrite reorder_parts by lia.
    rewrite take_drop, take_app_length, drop_app_length. reflexivity.
Qed.

End Arrays.

Lemma reorder_moves_one_image_witness :
  let images := ["a"; "b"; "c"; "d"] in
  let moved := handleImageDropReorder "" (Some 0) 2 images in
  moved ≡ₚ images /\
  moved !! 2 = images !! 0 /\
  removeImage 2 moved = removeImage 0 images.
Proof.
  apply (reorder_moves_one_image "" ["a"; "b"; "c"; "d"] 0 2);
    simpl; lia.
Defined.

Lemma reorder_back_restores_list_witness :
  handleImageDropReorder "" (Some 2) 0
    (handleImageDropReorder "" (Some 0) 2 ["a"; "b"; "c"; "d"])
  = ["a"; "b"; "c"; "d"].
Proof.
  apply (reorder_back_restores_list "" ["a"; "b"; "c"; "d"] 0 2);
    simpl; lia.
Defined.

End ImageListProofs.

(** ** The preview dialog *)
Module PreviewProofs.
Import Preview.
Local Open Scope Z_scope.

(** Decides an equation between two comparisons of integers. *)
Ltac same_test :=
  match goal with
  | |- ?a = ?b =>
      let Ea := fresh "Ea" in
      let Eb := fresh "Eb" in
      destruct a eqn:Ea; destruct b eqn:Eb; try reflexivity;
      repeat match goal with
        | H : (_ <=? _) = true |- _ => apply Z.leb_le in H
        | H : (_ <=? _) = false |- _ => apply Z.leb_gt in H
        | H : (_ =? _) = true |- _ => apply Z.eqb_eq in H
        | H : (_ =? _) = false |- _ => apply Z.eqb_neq in H
        end;
      lia
  end.

Lemma open_inDocument (n : positive) (w : world) :
  inDocument n (openPreview (Some (Some n)) w) /\
  alerts (openPreview (Some (Some n)) w) = alerts w.
Proof.
  unfold inDocument, openPreview, renderPreviewPage, updatePageNavigation.
  cbn -[Z.eqb Z.leb].
  repeat match goal with |- _ /\ _ => split end;
    try reflexivity; try lia; same_test.
Qed.

Lemma press_inDocument (n : positive) (c : click) (w : world) :
  inDocument n w ->
  inDocument n (press c w) /\ alerts (press c w) = alerts w /\
  currentPage (st (press c w))
  = match c with
    | Prev => Z.max 1 (currentPage (st w) - 1)
    | Next => Z.min (Z.pos n) (currentPage (st w) + 1)
    end.
Proof.
  unfold inDocument. cbv zeta.
  intros (Hpdf & Htot & Hpage & Hind & Hprev & Hnext & Hren & Hshown).
  destruct c; cbn [press].
  - unfold prevPage. destruct (1 <? currentPage (st w)) eqn:E.
    + apply Z.ltb_lt in E.
      unfold renderPreviewPage, updatePageNavigation.
      cbn -[Z.eqb Z.leb]. rewrite Hpdf, Htot. cbn -[Z.eqb Z.leb].
      repeat match goal with |- _ /\ _ => split end;
        try reflexivity; try lia; try assumption; same_test.
    + apply Z.ltb_ge in E.
      repeat match goal with |- _ /\ _ => split end;
        try reflexivity; try lia; assumption.
  - unfold nextPage. rewrite Htot.
    destruct (currentPage (st w) <? Z.pos n) eqn:E.
    + apply Z.ltb_lt in E.
      unfold renderPreviewPage, updatePageNavigation.
      cbn -[Z.eqb Z.leb]. rewrite Hpdf. cbn -[Z.eqb Z.leb].
      repeat match goal with |- _ /\ _ => split end;
        try reflexivity; try lia; try assumption; same_test.
    + apply Z.ltb_ge in E.
      repeat match goal with |- _ /\ _ => split end;
        try reflexivity; try lia; assumption.
Qed.

Lemma clicks_inDocument (n : positive) (cs : list click) (w : world) :
  inDocument n w ->
  inDocument n (clicks cs w) /\ alerts (clicks cs w) = alerts w.
Proof.
  revert w. induction cs as [| c cs IH]; intros w Hw; [split; trivial |].
  change (clicks (c :: cs) w) with (clicks cs (press c w)).
  destruct (press_inDocument n c w Hw) as (Hin & Hal & _).
  destruct (IH (press c w) Hin) as [Hin' Hal'].
  split; [exact Hin' |].
  change (clicks (c :: cs) w) with (clicks cs (press c w)).
  rewrite Hal'. exact Hal.
Qed.

(** X27: once a document of [n] pages is open, no sequence of clicks on
    the two page buttons leaves it: the page number stays between 1 and
    [n], the indicator shows that page, the button to the previous page
    is disabled exactly on page 1 and the button to the next exactly on
    page [n], the dialog stays open and nothing is alerted. *)
Theorem page_buttons_stay_in_document
  (n : positive) (cs : list click) (w : world) :
  let w' := clicks cs (openPreview (Some (Some n)) w) in
  onPage n w' /\ alerts w' = alerts w.
Proof.
  intro w'. subst w'.
  destruct (open_inDocument n w) as [Hopen Hal].
  destruct (clicks_inDocument n cs _ Hopen) as [Hin Hal'].
  split; [| congruence].
  destruct Hin as (H1 & H2 & H3 & H4 & H5 & H6 & _ & H8).
  unfold onPage. cbv zeta. repeat split; try assumption; lia.
Qed.

Lemma next_clicks (n : positive) (k : nat) (w : world) :
  inDocument n w ->
  currentPage (st (clicks (repeat Next k) w))
  = Z.min (Z.pos n) (currentPage (st w) + Z.of_nat k).
Proof.
  revert w. induction k as [| k IH]; intros w Hw.
  - destruct Hw as (_ & _ & Hpage & _). cbn. lia.
  - destruct (press_inDocument n Next w Hw) as (Hin & _ & Hpage).
    cbn [repeat clicks fold_left].
    change (fold_left (fun w c => press c w) (repeat Next k) (press Next w))
      with (clicks (repeat Next k) (press Next w)).
    rewrite (IH _ Hin), Hpage. lia.
Qed.

Lemma prev_clicks (n : positive) (k : nat) (w : world) :
  inDocument n w ->
  currentPage (st (clicks (repeat Prev k) w))
  = Z.max 1 (currentPage (st w) - Z.of_nat k).
Proof.
  revert w. induction k as [| k IH]; intros w Hw.
  - destruct Hw as (_ & _ & Hpage & _). cbn. lia.
  - destruct (press_inDocument n Prev w Hw) as (Hin & _ & Hpage).
    cbn [repeat clicks fold_left].
    change (fold_left (fun w c => press c w) (repeat Prev k) (press Prev w))
      with (clicks (repeat Prev k) (press Prev w)).
    rewrite (IH _ Hin), Hpage. lia.
Qed.

(** X28: every page of the document can be reached and left again:
    from the first page, [k - 1] clicks on the next button show page
    [k], and as many clicks on the previous button lead back to
    page 1. *)
Theorem every_page_is_reachable (n : positive) (k : Z) (w : world) :
  1 <= k <= Z.pos n ->
  let forth := repeat Next (Z.to_nat (k - 1)) in
  let back := repeat Prev (Z.to_nat (k - 1)) in
  let opened := openPreview (Some (Some n)) w in
  rendered (ui (clicks forth opened)) = Some k /\
  rendered (ui (clicks back (clicks forth opened))) = Some 1.
Proof.
  intros Hk forth back opened. subst forth back opened.
  destruct (open_inDocument n w) as [Hopen _].
  destruct (clicks_inDocument n (repeat Next (Z.to_nat (k - 1))) _ Hopen)
    as [Hforth _].
  destruct (clicks_inDocument n (repeat Prev (Z.to_nat (k - 1))) _ Hforth)
    as [Hback _].
  assert (currentPage (st (openPreview (Some (Some n)) w)) = 1) as E1
      by reflexivity.
  pose proof (next_clicks n (Z.to_nat (k - 1)) _ Hopen) as En.
  pose proof (prev_clicks n (Z.to_nat (k - 1)) _ Hforth) as Ep.
  destruct Hforth as (_ & _ & _ & _ & _ & _ & -> & _).
  destruct Hback as (_ & _ & _ & _ & _ & _ & -> & _).
  split; f_equal; lia.
Qed.

Lemma every_page_is_reachable_witness :
  let forth := repeat Next (Z.to_nat (3 - 1)) in
  let back := repeat Prev (Z.to_nat (3 - 1)) in
  let opened := openPreview (Some (Some 5%positive)) initialWorld in
  rendered (ui (clicks forth opened)) = Some 3 /\
  rendered (ui (clicks back (clicks forth opened))) = Some 1.
Proof.
  apply (every_page_is_reachable 5 3 initialWorld). lia.
Defined.

End PreviewProofs.

(** ** Printing sizes *)
Module FormatProofs.
Import Format.

Lemma unitIndex_brackets (bytes : N) :
  (0 < bytes)%N ->
  (1024 ^ unitIndex bytes <= bytes < 1024 * 1024 ^ unitIndex bytes)%N.
Proof.
  intro Hpos. unfold unitIndex.
  destruct (N.log2_spec bytes Hpos) as [Hlo Hhi].
  set (L := N.log2 bytes) in *.
  assert (10 * (L / 10) <= L)%N as Hdiv by (apply N.Div0.mul_div_le).
  assert (L < 10 * N.succ (L / 10))%N as Hdiv'
      by (apply N.mul_succ_div_gt; lia).
  change 1024%N with (2 ^ 10)%N.
  rewrite <- N.pow_mul_r, <- N.pow_add_r.
  split.
  - eapply N.le_trans; [| exact Hlo]. apply N.pow_le_mono_r; lia.
  - eapply N.lt_le_trans; [exact Hhi |]. apply N.pow_le_mono_r; lia.
Qed.

(** X29: for a size that is not zero (and below 2^49 bytes, where the
    quotient of the logarithms is computed exactly enough),
    [formatFileSize] picks the unit
    whose power of 1024 is the largest one not above the size, and
    prints a number from 1 to 1024 (1024 itself just below the next
    unit) within half a hundredth of the quotient; from 1024^4 bytes on
    there is no unit left and the text ends in [undefined]. *)
Theorem formatFileSize_unit_and_number (bytes : N) :
  (0 < bytes < 2 ^ 49)%N ->
  let i := unitIndex bytes in
  let n := fst (formatFileSize bytes) in
  let u := snd (formatFileSize bytes) in
  let quotient := inject_Z (Z.of_N bytes) / inject_Z (Z.of_N (1024 ^ i)) in
  (1024 ^ i <= bytes < 1024 ^ (i + 1))%N /\
  (100 <= n <= 102400)%Z /\
  inject_Z n - (1 # 2) <= quotient * 100 /\
  quotient * 100 < inject_Z n + (1 # 2) /\
  ((bytes < 1024 ^ 4)%N -> exists unit, u = Some unit) /\
  ((1024 ^ 4 <= bytes)%N -> u = None).
Proof.
  intros [Hpos _] i n u quotient.
  destruct (unitIndex_brackets bytes Hpos) as [Hlo Hhi]. fold i in Hlo, Hhi.
  assert ((1024 ^ (i + 1))%N = (1024 * 1024 ^ i)%N) as Esucc
      by (rewrite N.add_1_r, N.pow_succ_r'; reflexivity).
  assert (formatFileSize bytes
          = (Qfloor (quotient * 100 + (1 # 2)), sizes !! N.to_nat i)) as E.
  { unfold formatFileSize.
    assert ((bytes =? 0)%N = false) as -> by (apply N.eqb_neq; lia).
    reflexivity. }
  subst n u. rewrite E. cbn [fst snd]. clear E.
  set (B := inject_Z (Z.of_N bytes)) in *.
  set (K := inject_Z (Z.of_N (1024 ^ i))) in *.
  assert (0 < 1024 ^ i)%N as Hk by (apply N.neq_0_lt_0, N.pow_nonzero; lia).
  assert (0 < K) as HK
      by (unfold K; change 0 with (inject_Z 0); rewrite <- Zlt_Qlt; lia).
  assert (K <= B) as HKB by (unfold K, B; rewrite <- Zle_Qle; lia).
  assert (B < 1024 * K) as HBK.
  { unfold K, B. change 1024 with (inject_Z 1024).
    rewrite <- inject_Z_mult, <- Zlt_Qlt. lia. }
  assert (quotient * K == B) as Eq by (unfold quotient; field; lra).
  assert (1 <= quotient) as Hq1 by nra.
  assert (quotient < 1024) as Hq2 by nra.
  pose proof (Qfloor_le (quotient * 100 + (1 # 2))) as Hfl.
  pose proof (Qlt_floor (quotient * 100 + (1 # 2))) as Hfu.
  set (n := Qfloor (quotient * 100 + (1 # 2))) in *.
  assert (inject_Z (n + 1) == inject_Z n + 1) as En
      by (rewrite inject_Z_plus; reflexivity).
  repeat match goal with |- _ /\ _ => split end.
  - exact Hlo.
  - rewrite Esucc. exact Hhi.
  - apply JsFacts.floor_ge. change (inject_Z 100) with 100. lra.
  - assert (n < 102401)%Z; [| lia].
    rewrite Zlt_Qlt. change (inject_Z 102401) with 102401. lra.
  - lra.
  - lra.
  - intro Hsmall.
    assert (i < 4)%N as Hi.
    { apply (N.pow_lt_mono_r_iff 1024); [lia |].
      eapply N.le_lt_trans; [exact Hlo | exact Hsmall]. }
    apply lookup_lt_is_Some_2. simpl. lia.
  - intro Hbig.
    assert (4 < i + 1)%N as Hi.
    { apply (N.pow_lt_mono_r_iff 1024); [lia |].
      rewrite Esucc. eapply N.le_lt_trans; [exact Hbig | exact Hhi]. }
    apply lookup_ge_None_2. simpl. lia.
Qed.

Lemma formatFileSize_unit_and_number_witness :
  let bytes := 1048575%N in
  let i := unitIndex bytes in
  let n := fst (formatFileSize bytes) in
  let u := snd (formatFileSize bytes) in
  let quotient := inject_Z (Z.of_N bytes) / inject_Z (Z.of_N (1024 ^ i)) in
  (1024 ^ i <= bytes < 1024 ^ (i + 1))%N /\
  (100 <= n <= 102400)%Z /\
  inject_Z n - (1 # 2) <= quotient * 100 /\
  quotient * 100 < inject_Z n + (1 # 2) /\
  ((bytes < 1024 ^ 4)%N -> exists unit, u = Some unit) /\
  ((1024 ^ 4 <= bytes)%N -> u = None).
Proof.
  apply (formatFileSize_unit_and_number 1048575). split; reflexivity.
Defined.

(** 1536 bytes print as [1.5 KB], one byte less than a megabyte as
    [1024 KB], and a terabyte as [1 undefined]. *)
Example formatFileSize_samples :
  formatFileSize 1536 = (150%Z, Some "KB") /\
  formatFileSize 1048575 = (102400%Z, Some "KB") /\
  formatFileSize 1048576 = (100%Z, Some "MB") /\
  formatFileSize (1024 ^ 4) = (100%Z, None).
Proof. repeat split. Qed.

End FormatProofs.

(** ** Pages of the lossy compressor *)
Module LossyProofs.
Import Lossy Binary64 Binary64Facts.

Lemma page_mm (wd : Q) :
  0 < wd ->
  near (mul (div (mul wd 1) 72) (round 25.4)) (wd / 72 * 25.4).
Proof.
  intro Hw.
  apply (near_eq _ (wd * 1 / 72 * 25.4)); [field |].
  eapply within_near; cycle 2.
  - repeat within_step; signs.
  - cbn. lia.
  - signs.
Qed.

Lemma shrunk_mm (wd d : Q) :
  0 < wd -> 0 < d ->
  near (mul (div (mul wd (mul (div d 150) (round 0.7))) d) (round 25.4))
    (0.336 * (wd / 72 * 25.4)).
Proof.
  intros Hw Hd.
  apply (near_eq _ (wd * (d / 150 * 0.7) / d * 25.4)); [field; lra |].
  eapply within_near; cycle 2.
  - repeat within_step; signs.
  - cbn. lia.
  - signs.
Qed.

Lemma page_pixels (wd d : Q) :
  0 < wd -> 0 < d ->
  near (mul wd (div d 72)) (wd * d / 72) /\ 0 <= mul wd (div d 72).
Proof.
  intros Hw Hd. split.
  - apply (near_eq _ (wd * (d / 72))); [field |].
    eapply within_near; cycle 2.
    + repeat within_step; signs.
    + cbn. lia.
    + signs.
  - apply round_nonneg, Qmult_le_0_compat; [lra |].
    apply round_nonneg. signs.
Qed.

Lemma shrunk_pixels (wd d : Q) :
  0 < wd -> 0 < d ->
  near (mul wd (mul (div d 150) (round 0.7))) (wd * d * 0.7 / 150) /\
  0 <= mul wd (mul (div d 150) (round 0.7)).
Proof.
  intros Hw Hd. split.
  - apply (near_eq _ (wd * (d / 150 * 0.7))); [field |].
    eapply within_near; cycle 2.
    + repeat within_step; signs.
    + cbn. lia.
    + signs.
  - apply round_nonneg, Qmult_le_0_compat; [lra |].
    apply round_nonneg, Qmult_le_0_compat; apply round_nonneg; signs.
Qed.

(** X30: [compressLossy] gives every page the physical size of the page
    it renders, up to rounding, whatever the DPI, which only sets the
    pixels of the canvas; the compressor without a lossless mode makes
    every page 0.336 times as wide and as high as that, whatever the
    DPI.  The canvas sizes are the whole parts of the pixel counts as
    the doubles have them; a page that is clearly wider than high is a
    landscape page in both programs, one clearly higher than wide a
    portrait page. *)
Theorem lossy_pages_keep_size_earlier_ones_shrink
  (dpi dpi' : Z) (page : Q * Q) :
  (0 < dpi)%Z ->
  0 < fst page -> 0 < snd page ->
  let new := compressLossy dpi page in
  let old := Lossy.compressPDF dpi page in
  let width := fst page / 72 * 25.4 in
  let height := snd page / 72 * 25.4 in
  format new = format (compressLossy dpi' page) /\
  near (fst (format new)) width /\ near (snd (format new)) height /\
  near (fst (format old)) (0.336 * width) /\
  near (snd (format old)) (0.336 * height) /\
  (exists px py,
      near px (fst page * inject_Z dpi / 72) /\
      near py (snd page * inject_Z dpi / 72) /\
      canvas new = (Qfloor px, Qfloor py)) /\
  (exists px py,
      near px (fst page * inject_Z dpi * 0.7 / 150) /\
      near py (snd page * inject_Z dpi * 0.7 / 150) /\
      canvas old = (Qfloor px, Qfloor py)) /\
  (snd page * (1 + (1 # 2 ^ 46)) <= fst page ->
   landscape new = true /\ landscape old = true) /\
  (fst page * (1 + (1 # 2 ^ 46)) <= snd page ->
   landscape new = false /\ landscape old = false).
Proof.
  intros Hdpi Hw Hh new old width height. subst new old width height.
  assert (0 < inject_Z dpi) as Hd
      by (change 0 with (inject_Z 0); rewrite <- Zlt_Qlt; exact Hdpi).
  destruct page as [wd ht]. cbn [fst snd] in *.
  unfold compressLossy, Lossy.compressPDF, getViewport.
  cbn [format canvas landscape fst snd].
  pose proof (page_mm wd Hw) as Nw. pose proof (page_mm ht Hh) as Nh.
  pose proof (shrunk_mm wd _ Hw Hd) as Ow.
  pose proof (shrunk_mm ht _ Hh Hd) as Oh.
  destruct (page_pixels wd _ Hw Hd) as [Pw Pw0].
  destruct (page_pixels ht _ Hh Hd) as [Ph Ph0].
  destruct (shrunk_pixels wd _ Hw Hd) as [Sw Sw0].
  destruct (shrunk_pixels ht _ Hh Hd) as [Sh Sh0].
  assert (0 < wd / 72 * 25.4) as Mw by signs.
  assert (0 < ht / 72 * 25.4) as Mh by signs.
  assert (forall a : Q, a / 72 * 25.4 == a * (254 # 720)) as Emm
      by (intro a; field).
  repeat match goal with |- _ /\ _ => split end;
    try assumption; try reflexivity.
  - eexists _, _. split; [exact Pw |]. split; [exact Ph |].
    rewrite !JsFacts.trunc_nonneg by assumption. reflexivity.
  - eexists _, _. split; [exact Sw |]. split; [exact Sh |].
    rewrite !JsFacts.trunc_nonneg by assumption. reflexivity.
  - intro Hwide. split.
    + apply (near_gt _ _ _ _ Mh Nw Nh). rewrite !Emm. lra.
    + apply (near_gt _ (0.336 * (wd / 72 * 25.4)) _
               (0.336 * (ht / 72 * 25.4))); [lra | exact Ow | exact Oh |].
      rewrite !Emm. lra.
  - intro Htall. split.
    + apply (near_le _ _ _ _ Mw Nw Nh). rewrite !Emm. lra.
    + apply (near_le _ (0.336 * (wd / 72 * 25.4)) _
               (0.336 * (ht / 72 * 25.4))); [lra | exact Ow | exact Oh |].
      rewrite !Emm. lra.
Qed.

Lemma lossy_pages_keep_size_earlier_ones_shrink_witness :
  let new := compressLossy 150 letter in
  let old := Lossy.compressPDF 150 letter in
  let width := fst letter / 72 * 25.4 in
  let height := snd letter / 72 * 25.4 in
  format new = format (compressLossy 72 letter) /\
  near (fst (format new)) width /\ near (snd (format new)) height /\
  near (fst (format old)) (0.336 * width) /\
  near (snd (format old)) (0.336 * height) /\
  (exists px py,
      near px (fst letter * inject_Z 150 / 72) /\
      near py (snd letter * inject_Z 150 / 72) /\
      canvas new = (Qfloor px, Qfloor py)) /\
  (exists px py,
      near px (fst letter * inject_Z 150 * 0.7 / 150) /\
      near py (snd letter * inject_Z 150 * 0.7 / 150) /\
      canvas old = (Qfloor px, Qfloor py)) /\
  (snd letter * (1 + (1 # 2 ^ 46)) <= fst letter ->
   landscape new = true /\ landscape old = true) /\
  (fst letter * (1 + (1 # 2 ^ 46)) <= snd letter ->
   landscape new = false /\ landscape old = false).
Proof.
  apply (lossy_pages_keep_size_earlier_ones_shrink 150 72 letter).
  - lia.
  - reflexivity.
  - reflexivity.
Defined.

(** The canvases of a Letter and an A4 page at 150 DPI and of a Letter
    page at 110 DPI, and the canvases the earlier compressor gives a
    page of 720 by 540 points and a Letter page at 150 DPI.  Exact
    products would give 1753 for the height of the A4 page, 935 for the
    width of the Letter page at 110 DPI and 504 for the 720 points. *)
Example canvases_in_doubles :
  canvas (compressLossy 150 letter) = (1275, 1650)%Z /\
  canvas (compressLossy 150 a4) = (1240, 1754)%Z /\
  canvas (compressLossy 110 letter) = (934, 1210)%Z /\
  canvas (Lossy.compressPDF 150 (720, 540)) = (503, 378)%Z /\
  canvas (Lossy.compressPDF 150 letter) = (428, 554)%Z.
Proof. vm_compute. repeat split. Qed.

End LossyProofs.
